(** * Hyperpure catalogue scrapers: a shallow embedding

    The development follows [hyperpure_scraper_comprehensive.py] (with its
    twin [hyperpure_scraper_targeted.py]) and
    [scripts/hyperpure_PERFECT_scraper.py] /
    [scripts/hyperpure_detailed_scraper.py].

    - Python [str] is a list of code points ([list N]); literals are written
      as UTF-8 Rocq strings and decoded with [py].
    - Python [float] is IEEE-754 binary64: the kernel's [PrimFloat], with
      decimal parsing and [%.1f] formatting built on [SpecFloat].
    - [re] is a backtracking matcher over a regular-expression syntax tree;
      every pattern of the source is transcribed as such a tree.
    - The network, the clock, [urljoin]/[urlparse] and the iteration order of
      a Python [set] are external: the first is a scripted list of responses,
      the others are section variables.
    - The Unicode character database is not embedded: whitespace carries the
      full Unicode list, while digits, letters and case mapping are given on
      ASCII (code points beyond ASCII are neither digits nor letters and have
      no case). *)

From Stdlib Require Import ZArith NArith List Ascii String Lia Floats.
From stdpp Require Import base option list gmap sets.

(* ===================================================================== *)
(** * 1. Text                                                            *)
(* ===================================================================== *)

Abbreviation str := (list N).

Module Text.

(** UTF-8 decoding, used for literals only. *)
Fixpoint utf8_decode (s : string) : str :=
  match s with
  | EmptyString => []
  | String a r =>
      let n := N_of_ascii a in
      if (n <? 128)%N then n :: utf8_decode r
      else if (n <? 224)%N then
        match r with
        | String b r1 =>
            ((n - 192) * 64 + (N_of_ascii b - 128))%N :: utf8_decode r1
        | _ => []
        end
      else if (n <? 240)%N then
        match r with
        | String b (String c r2) =>
            ((n - 224) * 4096 + (N_of_ascii b - 128) * 64
             + (N_of_ascii c - 128))%N :: utf8_decode r2
        | _ => []
        end
      else
        match r with
        | String b (String c (String d r3)) =>
            ((n - 240) * 262144 + (N_of_ascii b - 128) * 4096
             + (N_of_ascii c - 128) * 64 + (N_of_ascii d - 128))%N
            :: utf8_decode r3
        | _ => []
        end
  end.

Definition py (s : string) : str := utf8_decode s.
Arguments py : simpl never.

(** ** Character classes *)

Definition in_range (lo hi c : N) : bool := ((lo <=? c) && (c <=? hi))%N.

(** [str.isspace] and the class [\s] of [re] on [str] patterns. *)
Definition isspace (c : N) : bool :=
  in_range 9 13 c || in_range 28 32 c || (c =? 133)%N || (c =? 160)%N
  || (c =? 5760)%N || in_range 8192 8202 c || (c =? 8232)%N
  || (c =? 8233)%N || (c =? 8239)%N || (c =? 8287)%N || (c =? 12288)%N.

Definition isdigit (c : N) : bool := in_range 48 57 c.
Definition isupper (c : N) : bool := in_range 65 90 c.
Definition islower (c : N) : bool := in_range 97 122 c.
Definition isalpha (c : N) : bool := isupper c || islower c.
Definition isalnum (c : N) : bool := isalpha c || isdigit c.
(** The class [\w]. *)
Definition isword (c : N) : bool := isalnum c || (c =? 95)%N.

Definition lower_c (c : N) : N := if isupper c then (c + 32)%N else c.
Definition upper_c (c : N) : N := if islower c then (c - 32)%N else c.

Definition lower (s : str) : str := map lower_c s.

(** [str.title]: the first cased character of every run of letters is
    upper-cased, the others lower-cased. *)
Fixpoint title_from (prev_cased : bool) (s : str) : str :=
  match s with
  | [] => []
  | c :: t =>
      (if prev_cased then lower_c c else upper_c c) :: title_from (isalpha c) t
  end.
Definition title (s : str) : str := title_from false s.

(** ** Whole-string operations *)

(** Truth value of a string: [if text]. *)
Definition truthy (s : str) : bool := match s with [] => false | _ => true end.

Definition str_eqb (a b : str) : bool := bool_decide (a = b).

(** [x in l] for a list of strings. *)
Definition str_in (x : str) (l : list str) : bool := existsb (str_eqb x) l.

Fixpoint startswith (p s : str) : bool :=
  match p, s with
  | [], _ => true
  | a :: p', b :: s' => (a =? b)%N && startswith p' s'
  | _ :: _, [] => false
  end.

(** [needle in hay]. *)
Fixpoint contains (needle hay : str) : bool :=
  startswith needle hay
  || match hay with [] => false | _ :: t => contains needle t end.

(** [hay.find(needle)], [None] standing for [-1]. *)
Fixpoint find (needle hay : str) : option nat :=
  if startswith needle hay then Some 0%nat
  else match hay with
       | [] => None
       | _ :: t => S <$> find needle t
       end.

(** [any(k in s for k in ks)]. *)
Definition any_in (ks : list str) (s : str) : bool :=
  existsb (fun k => contains k s) ks.

Fixpoint lstrip (s : str) : str :=
  match s with
  | c :: t => if isspace c then lstrip t else s
  | [] => []
  end.

Definition rstrip (s : str) : str := rev (lstrip (rev s)).
Definition strip (s : str) : str := rstrip (lstrip s).

(** [s.replace(old, new)] for a one-character [old]. *)
Definition replace_c (old : N) (new : str) (s : str) : str :=
  flat_map (fun c => if (c =? old)%N then new else [c]) s.

(** [s.split(sep)[0]]: the text before the first [sep], or all of [s]. *)
Definition split_head (sep s : str) : str :=
  match find sep s with
  | Some i => take i s
  | None => s
  end.

(** [sep.join(l)]. *)
Fixpoint join (sep : str) (l : list str) : str :=
  match l with
  | [] => []
  | [x] => x
  | x :: t => x ++ sep ++ join sep t
  end.

(** [s[max(0, i-a) : i+b]]. *)
Definition window (s : str) (i a b : nat) : str :=
  let lo := (i - a)%nat in
  take ((i + b) - lo)%nat (drop lo s).

End Text.
Export Text.

(* ===================================================================== *)
(** * 2. Regular expressions ([re])                                      *)
(* ===================================================================== *)

Module Re.

(** Syntax of the patterns that occur in the scrapers.  [Cls p] is a
    character set, [NCls p] its complement [[^...]]; [Star true] is the
    greedy [*], [Star false] the lazy [*?]; [Grp] is the (single) capturing
    group, [Ahead] the look-ahead [(?=...)], [Eos] is [$] and [WordB] is
    [\b].  Non-capturing groups need no constructor. *)
Inductive regex : Type :=
| Eps
| Lit (c : N)
| Cls (p : N -> bool)
| NCls (p : N -> bool)
| Dot
| Seq (a b : regex)
| Alt (a b : regex)
| Star (greedy : bool) (a : regex)
| Grp (a : regex)
| Ahead (a : regex)
| Eos
| WordB.

Definition Plus (g : bool) (a : regex) : regex := Seq a (Star g a).
(** [a?] *)
Definition Opt (a : regex) : regex := Alt a Eps.
(** literal text *)
Definition Str (s : str) : regex := foldr (fun c r => Seq (Lit c) r) Eps s.
(** [a|b|c...] over literal words *)
Definition Words (ws : list str) : regex :=
  match ws with
  | [] => Eps
  | w :: t => fold_left (fun r x => Alt r (Str x)) t (Str w)
  end.
Fixpoint Seqs (rs : list regex) : regex :=
  match rs with
  | [] => Eps
  | [r] => r
  | r :: t => Seq r (Seqs t)
  end.

(** [re.IGNORECASE] and [re.DOTALL]. *)
Record flags : Type := Flags { icase : bool; dotall : bool }.
Definition no_flags : flags := Flags false false.
Definition IGNORECASE : flags := Flags true false.
Definition IGNORECASE_DOTALL : flags := Flags true true.

(** A position of the matcher: the character before it (for [\b]), the
    text still to be read, and the text of group 1 once it has closed. *)
Record mstate : Type := MState {
  m_prev : option N;
  m_rest : str;
  m_cap : option str
}.

Definition advance (c : N) (t : str) (st : mstate) : mstate :=
  MState (Some c) t (m_cap st).

Definition lit_ok (fl : flags) (c x : N) : bool :=
  (x =? c)%N || (icase fl && (lower_c x =? lower_c c)%N).

Definition cls_ok (fl : flags) (p : N -> bool) (x : N) : bool :=
  p x || (icase fl && (p (lower_c x) || p (upper_c x))).

Definition dot_ok (fl : flags) (x : N) : bool :=
  dotall fl || negb (x =? 10)%N.

Definition at_eos (st : mstate) : bool :=
  match m_rest st with
  | [] => true
  | [c] => (c =? 10)%N
  | _ => false
  end.

Definition at_wordb (st : mstate) : bool :=
  let before := match m_prev st with Some c => isword c | None => false end in
  let after := match m_rest st with c :: _ => isword c | [] => false end in
  xorb before after.

Definition step_char (ok : N -> bool) (st : mstate)
    (k : mstate -> option mstate) : option mstate :=
  match m_rest st with
  | x :: t => if ok x then k (advance x t st) else None
  | [] => None
  end.

(** Text read between two positions of the same scan. *)
Definition consumed (st st1 : mstate) : str :=
  take (length (m_rest st) - length (m_rest st1)) (m_rest st).

Definition close_group (st st1 : mstate) : mstate :=
  MState (m_prev st1) (m_rest st1) (Some (consumed st st1)).

(** The backtracking matcher, in continuation-passing style: alternatives
    are tried left to right, a greedy star tries one more round before
    stopping, a lazy star tries to stop first.  A round of a star that reads
    nothing is refused, so at most [length (m_rest st)] rounds can follow. *)
Fixpoint m_re (fl : flags) (r : regex) (st : mstate)
    (k : mstate -> option mstate) {struct r} : option mstate :=
  match r with
  | Eps => k st
  | Lit c => step_char (lit_ok fl c) st k
  | Cls p => step_char (cls_ok fl p) st k
  | NCls p => step_char (fun x => negb (cls_ok fl p x)) st k
  | Dot => step_char (dot_ok fl) st k
  | Seq a b => m_re fl a st (fun st1 => m_re fl b st1 k)
  | Alt a b =>
      match m_re fl a st k with
      | Some x => Some x
      | None => m_re fl b st k
      end
  | Star g a =>
      (fix rounds (n : nat) (st : mstate) {struct n} : option mstate :=
         match n with
         | O => k st
         | S n' =>
             if g then
               match m_re fl a st (fun st1 =>
                       if (length (m_rest st1) <? length (m_rest st))%nat
                       then rounds n' st1 else None) with
               | Some x => Some x
               | None => k st
               end
             else
               match k st with
               | Some x => Some x
               | None =>
                   m_re fl a st (fun st1 =>
                     if (length (m_rest st1) <? length (m_rest st))%nat
                     then rounds n' st1 else None)
               end
         end) (length (m_rest st)) st
  | Grp a => m_re fl a st (fun st1 => k (close_group st st1))
  | Ahead a =>
      match m_re fl a st Some with
      | Some _ => k st
      | None => None
      end
  | Eos => if at_eos st then k st else None
  | WordB => if at_wordb st then k st else None
  end.

(** A match object: where it starts, [group(0)], [group(1)], and the
    position after it. *)
Record rmatch : Type := RMatch {
  mt_start : nat;
  mt_text : str;
  mt_group1 : option str;
  mt_end : mstate
}.

Definition match_at (fl : flags) (r : regex) (prev : option N) (s : str)
    (i : nat) : option rmatch :=
  let st := MState prev s None in
  match m_re fl r st Some with
  | Some st1 => Some (RMatch i (consumed st st1) (m_cap st1) st1)
  | None => None
  end.

(** [re.search]: the leftmost position at which the pattern matches. *)
Fixpoint search_from (fl : flags) (r : regex) (prev : option N) (s : str)
    (i : nat) {struct s} : option rmatch :=
  match match_at fl r prev s i with
  | Some m => Some m
  | None =>
      match s with
      | [] => None
      | c :: t => search_from fl r (Some c) t (S i)
      end
  end.

Definition search (fl : flags) (r : regex) (s : str) : option rmatch :=
  search_from fl r None s 0.

(** [m.group(1)]; a group that took no part in the match gives [None]. *)
Definition group1 (m : rmatch) : str := default [] (mt_group1 m).

(** Successive non-overlapping matches, left to right.  After an empty
    match the scan moves one character on. *)
Fixpoint matches_from (n : nat) (fl : flags) (r : regex) (prev : option N)
    (s : str) : list rmatch :=
  match n with
  | O => []
  | S n' =>
      match search_from fl r prev s 0 with
      | None => []
      | Some m =>
          m :: match mt_text m, m_rest (mt_end m) with
               | [], [] => []
               | [], c :: t => matches_from n' fl r (Some c) t
               | _ :: _, rest => matches_from n' fl r (m_prev (mt_end m)) rest
               end
      end
  end.

Definition finditer (fl : flags) (r : regex) (s : str) : list rmatch :=
  matches_from (S (length s)) fl r None s.

(** [re.findall] for a pattern with one group, and with none. *)
Definition findall_group (fl : flags) (r : regex) (s : str) : list str :=
  map group1 (finditer fl r s).
Definition findall (fl : flags) (r : regex) (s : str) : list str :=
  map mt_text (finditer fl r s).

(** [re.sub(r, repl, s)] for a replacement without back-references. *)
Fixpoint sub_from (n : nat) (fl : flags) (r : regex) (repl : str)
    (prev : option N) (s : str) : str :=
  match n with
  | O => s
  | S n' =>
      match search_from fl r prev s 0 with
      | None => s
      | Some m =>
          take (mt_start m) s ++ repl ++
          match mt_text m, m_rest (mt_end m) with
          | [], [] => []
          | [], c :: t => c :: sub_from n' fl r repl (Some c) t
          | _ :: _, rest => sub_from n' fl r repl (m_prev (mt_end m)) rest
          end
      end
  end.

Definition sub (fl : flags) (r : regex) (repl s : str) : str :=
  sub_from (S (length s)) fl r repl None s.

End Re.
Export Re.

(* ===================================================================== *)
(** * 3. Floating point ([float], [%.1f])                                *)
(* ===================================================================== *)

Module PyFloat.

Definition digit_val (c : N) : Z := Z.of_N c - 48.

Definition digits_val (ds : str) : Z :=
  fold_left (fun acc c => 10 * acc + digit_val c)%Z ds 0%Z.

Fixpoint takewhile_digit (s : str) : str :=
  match s with
  | c :: t => if isdigit c then c :: takewhile_digit t else []
  | [] => []
  end.

(** The decimal numerals that reach [float()] in the scrapers: digits with
    an optional fraction.  The result is the integer made of all the digits
    and the number of digits after the point; [None] is [ValueError]. *)
Definition parse_decimal (s : str) : option (Z * nat) :=
  let ip := takewhile_digit s in
  match drop (length ip) s with
  | [] => if truthy ip then Some (digits_val ip, 0%nat) else None
  | c :: fp =>
      if (c =? 46)%N && forallb isdigit fp && (truthy ip || truthy fp)
      then Some (digits_val (ip ++ fp), length fp)
      else None
  end.

(** The binary64 number nearest to [m / 10^k] (ties to even), as
    [float()] computes it from a decimal numeral. *)
Definition nearest_float (m : Z) (k : nat) : float :=
  match m with
  | Z0 => PrimFloat.zero
  | _ =>
      let '(q, e, l) := SFdiv_core_binary prec emax m 0 (10 ^ Z.of_nat k) 0 in
      SF2Prim (binary_round_aux prec emax false q e l)
  end.

Definition float_of_str (s : str) : option float :=
  match parse_decimal s with
  | Some (m, k) => Some (nearest_float m k)
  | None => None
  end.

(** Decimal digits of a natural number. *)
Fixpoint digits_of (fuel : nat) (n : Z) (acc : str) : str :=
  match fuel with
  | O => acc
  | S f =>
      let acc' := Z.to_N (48 + n mod 10) :: acc in
      if (n <? 10)%Z then acc' else digits_of f (n / 10)%Z acc'
  end.
Definition str_of_Z (n : Z) : str := digits_of (S (Z.to_nat (Z.log2 n))) n [].

(** [round(m * 2^e * 10)] to the nearest integer, ties to even. *)
Definition tenths (m : positive) (e : Z) : Z :=
  let num := (Z.pos m * 10)%Z in
  if (0 <=? e)%Z then (num * 2 ^ e)%Z
  else
    let den := (2 ^ (- e))%Z in
    let q := (num / den)%Z in
    let r := (num mod den)%Z in
    if (2 * r <? den)%Z then q
    else if (den <? 2 * r)%Z then (q + 1)%Z
    else if Z.even q then q else (q + 1)%Z.

(** [f"{x:.1f}"]. *)
Definition format_1f (x : float) : str :=
  match Prim2SF x with
  | S754_nan => py "nan"
  | S754_infinity s => (if s then py "-inf" else py "inf")
  | S754_zero s => (if s then py "-0.0" else py "0.0")
  | S754_finite s m e =>
      let t := tenths m e in
      (if s then py "-" else []) ++ str_of_Z (t / 10) ++ py "."
      ++ str_of_Z (t mod 10)
  end.

(** Float division: a zero divisor raises [ZeroDivisionError] ([None]). *)
Definition py_div (a b : float) : option float :=
  if PrimFloat.eqb b PrimFloat.zero then None else Some (PrimFloat.div a b).

End PyFloat.
Export PyFloat.

(* ===================================================================== *)
(** * 4. Price extraction                                                *)
(* ===================================================================== *)

Definition ch (a : ascii) : N := N_of_ascii a.

(** U+20B9, the rupee sign. *)
Definition rupee : N := 8377%N.

Definition digits1 : regex := Plus true (Cls isdigit).

(** [r'₹(\d+(?:,\d+)*(?:\.\d+)?)'] *)
Definition amount_re : regex :=
  Seqs [digits1;
        Star true (Seq (Lit (ch ",")) digits1);
        Opt (Seq (Lit (ch ".")) digits1)].
Definition price_re : regex := Seq (Lit rupee) (Grp amount_re).

(** [re.sub(r'[₹,]', '', price)] *)
Definition strip_currency (price : str) : str :=
  sub no_flags (Cls (fun c => (c =? rupee)%N || (c =? ch ",")%N)) [] price.

(** The number a price string stands for:
    [float(re.sub(r'[₹,]', '', price))]. *)
Definition amount (price : str) : option float :=
  float_of_str (strip_currency price).

(** The [try] block shared by every variant of the price extractor: the
    discount text, or the empty string when the original price does not
    exceed the current one or an exception was swallowed. *)
Definition discount_text (current_price original_price : str) : str :=
  match amount current_price with
  | None => []                                   (* ValueError: pass *)
  | Some current_val =>
      match amount original_price with
      | None => []                               (* ValueError: pass *)
      | Some original_val =>
          if PrimFloat.ltb current_val original_val then
            match py_div (original_val - current_val)%float original_val with
            | None => []                         (* ZeroDivisionError: pass *)
            | Some q => format_1f (q * 100)%float ++ py "%"
            end
          else []
      end
  end.

(** [extract_price_info] of the comprehensive and targeted scrapers. *)
Definition extract_price_info (price_text : str) : str * str * str :=
  if negb (truthy price_text) then ([], [], [])
  else
    let price_matches := findall_group no_flags price_re price_text in
    match price_matches with
    | [] => ([], [], [])
    | m0 :: more =>
        let current_price := rupee :: m0 in
        match more with
        | [] => (current_price, [], [])
        | m1 :: _ =>
            let original_price := rupee :: m1 in
            (current_price, original_price,
             discount_text current_price original_price)
        end
    end.


(* ===================================================================== *)
(** * 5. Records, pages, the world                                       *)
(* ===================================================================== *)

(** The [Product] dataclass of the comprehensive and targeted scrapers. *)
Record Product : Type := mkProduct {
  product_name : str;
  category : str;
  subcategory : str;
  price_current : str;
  price_original : str;
  discount_percentage : str;
  product_description : str;
  product_image_url : str;
  product_page_url : str;
  availability_status : str;
  brand_name : str;
  unit_size : str;
  packaging_type : str;
  nutritional_info : str;
  ingredients : str;
  product_id : str;
  sku_code : str;
  rating : str;
  review_count : str;
  tags : str;
  scraped_timestamp : str
}.

(** [Product()]: every field empty except the brand. *)
Definition new_Product : Product :=
  mkProduct [] [] [] [] [] [] [] [] [] [] (py "Hyperpure") [] [] [] [] [] []
            [] [] [] [].

(** Attribute assignment, [product.field = v]. *)
Definition set_product_name (v : str) (p : Product) : Product :=
  mkProduct v (category p) (subcategory p) (price_current p) (price_original
    p) (discount_percentage p) (product_description p) (product_image_url p)
    (product_page_url p) (availability_status p) (brand_name p) (unit_size
    p) (packaging_type p) (nutritional_info p) (ingredients p) (product_id
    p) (sku_code p) (rating p) (review_count p) (tags p) (scraped_timestamp
    p).
Definition set_category (v : str) (p : Product) : Product :=
  mkProduct (product_name p) v (subcategory p) (price_current p)
    (price_original p) (discount_percentage p) (product_description p)
    (product_image_url p) (product_page_url p) (availability_status p)
    (brand_name p) (unit_size p) (packaging_type p) (nutritional_info p)
    (ingredients p) (product_id p) (sku_code p) (rating p) (review_count p)
    (tags p) (scraped_timestamp p).
Definition set_price_current (v : str) (p : Product) : Product :=
  mkProduct (product_name p) (category p) (subcategory p) v (price_original
    p) (discount_percentage p) (product_description p) (product_image_url p)
    (product_page_url p) (availability_status p) (brand_name p) (unit_size
    p) (packaging_type p) (nutritional_info p) (ingredients p) (product_id
    p) (sku_code p) (rating p) (review_count p) (tags p) (scraped_timestamp
    p).
Definition set_price_original (v : str) (p : Product) : Product :=
  mkProduct (product_name p) (category p) (subcategory p) (price_current p)
    v (discount_percentage p) (product_description p) (product_image_url p)
    (product_page_url p) (availability_status p) (brand_name p) (unit_size
    p) (packaging_type p) (nutritional_info p) (ingredients p) (product_id
    p) (sku_code p) (rating p) (review_count p) (tags p) (scraped_timestamp
    p).
Definition set_discount_percentage (v : str) (p : Product) : Product :=
  mkProduct (product_name p) (category p) (subcategory p) (price_current p)
    (price_original p) v (product_description p) (product_image_url p)
    (product_page_url p) (availability_status p) (brand_name p) (unit_size
    p) (packaging_type p) (nutritional_info p) (ingredients p) (product_id
    p) (sku_code p) (rating p) (review_count p) (tags p) (scraped_timestamp
    p).
Definition set_product_description (v : str) (p : Product) : Product :=
  mkProduct (product_name p) (category p) (subcategory p) (price_current p)
    (price_original p) (discount_percentage p) v (product_image_url p)
    (product_page_url p) (availability_status p) (brand_name p) (unit_size
    p) (packaging_type p) (nutritional_info p) (ingredients p) (product_id
    p) (sku_code p) (rating p) (review_count p) (tags p) (scraped_timestamp
    p).
Definition set_product_image_url (v : str) (p : Product) : Product :=
  mkProduct (product_name p) (category p) (subcategory p) (price_current p)
    (price_original p) (discount_percentage p) (product_description p) v
    (product_page_url p) (availability_status p) (brand_name p) (unit_size
    p) (packaging_type p) (nutritional_info p) (ingredients p) (product_id
    p) (sku_code p) (rating p) (review_count p) (tags p) (scraped_timestamp
    p).
Definition set_product_page_url (v : str) (p : Product) : Product :=
  mkProduct (product_name p) (category p) (subcategory p) (price_current p)
    (price_original p) (discount_percentage p) (product_description p)
    (product_image_url p) v (availability_status p) (brand_name p)
    (unit_size p) (packaging_type p) (nutritional_info p) (ingredients p)
    (product_id p) (sku_code p) (rating p) (review_count p) (tags p)
    (scraped_timestamp p).
Definition set_availability_status (v : str) (p : Product) : Product :=
  mkProduct (product_name p) (category p) (subcategory p) (price_current p)
    (price_original p) (discount_percentage p) (product_description p)
    (product_image_url p) (product_page_url p) v (brand_name p) (unit_size
    p) (packaging_type p) (nutritional_info p) (ingredients p) (product_id
    p) (sku_code p) (rating p) (review_count p) (tags p) (scraped_timestamp
    p).
Definition set_unit_size (v : str) (p : Product) : Product :=
  mkProduct (product_name p) (category p) (subcategory p) (price_current p)
    (price_original p) (discount_percentage p) (product_description p)
    (product_image_url p) (product_page_url p) (availability_status p)
    (brand_name p) v (packaging_type p) (nutritional_info p) (ingredients p)
    (product_id p) (sku_code p) (rating p) (review_count p) (tags p)
    (scraped_timestamp p).
Definition set_packaging_type (v : str) (p : Product) : Product :=
  mkProduct (product_name p) (category p) (subcategory p) (price_current p)
    (price_original p) (discount_percentage p) (product_description p)
    (product_image_url p) (product_page_url p) (availability_status p)
    (brand_name p) (unit_size p) v (nutritional_info p) (ingredients p)
    (product_id p) (sku_code p) (rating p) (review_count p) (tags p)
    (scraped_timestamp p).
Definition set_ingredients (v : str) (p : Product) : Product :=
  mkProduct (product_name p) (category p) (subcategory p) (price_current p)
    (price_original p) (discount_percentage p) (product_description p)
    (product_image_url p) (product_page_url p) (availability_status p)
    (brand_name p) (unit_size p) (packaging_type p) (nutritional_info p) v
    (product_id p) (sku_code p) (rating p) (review_count p) (tags p)
    (scraped_timestamp p).
Definition set_sku_code (v : str) (p : Product) : Product :=
  mkProduct (product_name p) (category p) (subcategory p) (price_current p)
    (price_original p) (discount_percentage p) (product_description p)
    (product_image_url p) (product_page_url p) (availability_status p)
    (brand_name p) (unit_size p) (packaging_type p) (nutritional_info p)
    (ingredients p) (product_id p) v (rating p) (review_count p) (tags p)
    (scraped_timestamp p).
Definition set_tags (v : str) (p : Product) : Product :=
  mkProduct (product_name p) (category p) (subcategory p) (price_current p)
    (price_original p) (discount_percentage p) (product_description p)
    (product_image_url p) (product_page_url p) (availability_status p)
    (brand_name p) (unit_size p) (packaging_type p) (nutritional_info p)
    (ingredients p) (product_id p) (sku_code p) (rating p) (review_count p)
    v (scraped_timestamp p).
Definition set_scraped_timestamp (v : str) (p : Product) : Product :=
  mkProduct (product_name p) (category p) (subcategory p) (price_current p)
    (price_original p) (discount_percentage p) (product_description p)
    (product_image_url p) (product_page_url p) (availability_status p)
    (brand_name p) (unit_size p) (packaging_type p) (nutritional_info p)
    (ingredients p) (product_id p) (sku_code p) (rating p) (review_count p)
    (tags p) v.

(** [to_dict] in the column order [fieldnames] of [save_to_csv]. *)
Definition fieldnames : list str :=
  [py "product_name"; py "category"; py "subcategory"; py "price_current";
   py "price_original"; py "discount_percentage"; py "product_description";
   py "product_image_url"; py "product_page_url"; py "availability_status";
   py "brand_name"; py "unit_size"; py "packaging_type"; py
   "nutritional_info"; py "ingredients"; py "product_id"; py "sku_code"; py
   "rating"; py "review_count"; py "tags"; py "scraped_timestamp"].

Definition to_row (p : Product) : list str :=
  [product_name p;
   category p;
   subcategory p;
   price_current p;
   price_original p;
   discount_percentage p;
   product_description p;
   product_image_url p;
   product_page_url p;
   availability_status p;
   brand_name p;
   unit_size p;
   packaging_type p;
   nutritional_info p;
   ingredients p;
   product_id p;
   sku_code p;
   rating p;
   review_count p;
   tags p;
   scraped_timestamp p].

(** An [<img>] element: its [src] and [data-src] attributes. *)
Record img : Type := Img { img_src : option str; img_data_src : option str }.

(** An element returned by a CSS selector: tag name, [alt] attribute and
    [get_text()]. *)
Record element : Type := Element {
  el_name : str;
  el_alt : option str;
  el_text : str
}.

(** A parsed page ([BeautifulSoup]), as the queries the scrapers make of it. *)
Record soup : Type := Soup {
  page_text : str;                 (* soup.get_text() *)
  page_title : option str;         (* soup.find('title'), its get_text() *)
  page_h1 : option str;            (* soup.find('h1'), its get_text() *)
  page_imgs : list img;            (* soup.find_all('img') *)
  page_links : list (str * str);   (* soup.find_all('a', href=True):
                                      href and get_text() *)
  page_select : str -> list element;  (* soup.select(selector) *)
  page_raises : bool               (* a query outside the ones above raises *)
}.

(** What one HTTP request comes to: a 2xx response whose body parses, a
    [requests.exceptions.RequestException] (transport error, time-out, or
    [raise_for_status] on a non-2xx status), or an exception of another
    class. *)
Inductive response : Type :=
| Fetched (page : soup)
| RequestFailed
| Crashed.

Inductive exn : Type :=
| KeyboardInterrupt
| RequestException
| OtherException.

(** [except Exception] catches everything but [KeyboardInterrupt]. *)
Definition is_Exception (e : exn) : bool :=
  match e with KeyboardInterrupt => false | _ => true end.

(** A CSV file as written through [csv.DictWriter]: the header row and the
    data rows, cell by cell. *)
Definition table : Type := list (list str).

(** Everything outside the process.  [net n] is the outcome of the [n]-th
    HTTP request of the run; [sent] logs the URLs requested, latest first;
    [ticks] counts the blocking calls made ([time.sleep], [session.get]) and
    [interrupt_at] names the blocking call during which the operator
    interrupts; [clock] and [clock_stamp] are [datetime.now()] through
    [isoformat()] and [strftime("%Y%m%d_%H%M%S")]; [disk] holds
    the files written, latest first, and [disk_ok] says whether [open]
    succeeds. *)
Record world : Type := World {
  net : nat -> response;
  sent : list str;
  ticks : nat;
  interrupt_at : option nat;
  clock : nat -> str;
  clock_stamp : nat -> str;
  disk : list (str * table);
  disk_ok : bool
}.

(** A scraper object: [self.scraped_urls], [self.products], and the world
    it runs in. *)
Record scraper (P : Type) : Type := Scraper {
  scraped_urls : gset str;
  products : list P;
  env : world
}.
Arguments Scraper {P}.
Arguments scraped_urls {P}.
Arguments products {P}.
Arguments env {P}.

Definition new_scraper {P : Type} (w : world) : scraper P := Scraper ∅ [] w.

(** ** A state-and-exception monad for the methods *)

Inductive outcome (A : Type) : Type :=
| Ret (a : A)
| Raise (e : exn).
Arguments Ret {A}.
Arguments Raise {A}.

Definition M (P A : Type) : Type := scraper P -> outcome A * scraper P.

Definition ret {P A} (a : A) : M P A := fun s => (Ret a, s).
Definition raise {P A} (e : exn) : M P A := fun s => (Raise e, s).
Definition bind {P A B} (m : M P A) (k : A -> M P B) : M P B :=
  fun s => match m s with
           | (Ret a, s1) => k a s1
           | (Raise e, s1) => (Raise e, s1)
           end.
(** [try: m  except <handled>: h]. *)
Definition try_except {P A} (m : M P A) (handled : exn -> bool)
    (h : exn -> M P A) : M P A :=
  fun s => match m s with
           | (Raise e, s1) => if handled e then h e s1 else (Raise e, s1)
           | r => r
           end.

Notation "x <- m ;; k" := (bind m (fun x => k))
  (at level 100, m at next level, right associativity).
Notation "m ;;; k" := (bind m (fun _ => k))
  (at level 100, right associativity).

Definition get_state {P} : M P (scraper P) := fun s => (Ret s, s).
Definition update_world {P} (f : world -> world) : M P unit :=
  fun s => (Ret tt, Scraper (scraped_urls s) (products s) (f (env s))).
Definition set_products {P} (l : list P) : M P unit :=
  fun s => (Ret tt, Scraper (scraped_urls s) l (env s)).
Definition add_scraped_url {P} (u : str) : M P unit :=
  fun s => (Ret tt, Scraper ({[u]} ∪ scraped_urls s) (products s) (env s)).
Definition append_product {P} (p : P) : M P unit :=
  fun s => (Ret tt, Scraper (scraped_urls s) (products s ++ [p]) (env s)).

Definition tick (w : world) : world :=
  World (net w) (sent w) (S (ticks w)) (interrupt_at w) (clock w)
        (clock_stamp w) (disk w)
        (disk_ok w).
Definition log_request (u : str) (w : world) : world :=
  World (net w) (u :: sent w) (ticks w) (interrupt_at w) (clock w)
        (clock_stamp w) (disk w)
        (disk_ok w).
Definition write_file (name : str) (t : table) (w : world) : world :=
  World (net w) (sent w) (ticks w) (interrupt_at w) (clock w)
        (clock_stamp w) ((name, t) :: disk w) (disk_ok w).

(** A blocking call: the operator's interrupt, if it falls on this call,
    surfaces here as [KeyboardInterrupt]. *)
Definition blocking {P} : M P unit :=
  s <- get_state ;;
  update_world tick ;;;
  if bool_decide (interrupt_at (env s) = Some (ticks (env s)))
  then raise KeyboardInterrupt else ret tt.

(** [time.sleep(random.uniform(a, b))]. *)
Definition sleep {P} : M P unit := blocking.

(** [self.session.get(url, timeout=30)], [raise_for_status()] and the parse
    of the body. *)
Definition http_get {P} (url : str) : M P soup :=
  blocking ;;;
  s <- get_state ;;
  update_world (log_request url) ;;;
  match net (env s) (length (sent (env s))) with
  | Fetched page => ret page
  | RequestFailed => raise RequestException
  | Crashed => raise OtherException
  end.

(** [datetime.now()] as text. *)
Definition now {P} : M P str :=
  s <- get_state ;; ret (clock (env s) (ticks (env s))).

(** [range(n)]. *)
Definition range (n : Z) : list Z := map Z.of_nat (seq 0 (Z.to_nat n)).

(** ** [safe_request] *)

(** The [for attempt in range(max_retries)] loop; [handled] is the
    exception class of the [except] clause.  One round either returns
    ([inl]) or falls through to the next attempt ([inr]). *)
Fixpoint safe_request_loop {P} (handled : exn -> bool) (url : str)
    (max_retries : Z) (attempts : list Z) : M P (option soup) :=
  match attempts with
  | [] => ret None
  | attempt :: rest =>
      r <- try_except
             (sleep ;;; page <- http_get url ;; ret (inl (Some page)))
             handled
             (fun _ =>
                if (attempt =? max_retries - 1)%Z then ret (inl None)
                else sleep ;;; ret (inr tt)) ;;
      match r with
      | inl result => ret result
      | inr _ => safe_request_loop handled url max_retries rest
      end
  end.

(** [except requests.exceptions.RequestException] *)
Definition is_RequestException (e : exn) : bool :=
  match e with RequestException => true | _ => false end.

(** [safe_request] of the comprehensive, targeted and detailed scrapers. *)
Definition safe_request {P} (url : str) (max_retries : Z)
    : M P (option soup) :=
  safe_request_loop is_RequestException url max_retries (range max_retries).

(** [safe_request] of the PERFECT scraper, whose clause is
    [except Exception]. *)
Definition safe_request_perfect {P} (url : str) (max_retries : Z)
    : M P (option soup) :=
  safe_request_loop is_Exception url max_retries (range max_retries).

(* ===================================================================== *)
(** * 6. Library functions taken as given                                *)
(* ===================================================================== *)

(** [urllib.parse]: [urljoin(base, url)] and [urlparse(url).path]; [None]
    stands for the [ValueError] both can raise on a malformed URL. *)
Class UrlLib : Type := {
  urljoin : str -> str -> option str;
  urlparse_path : str -> option str
}.

(** [list(set(l))]: the elements of [l], each once, in the order in which a
    Python [set] happens to iterate (it depends on the hashes of the
    elements, which for strings change from one process to the next). *)
Class SetOrder : Type := {
  list_of_set : forall {A : Type} `{EqDecision A}, list A -> list A;
  list_of_set_NoDup :
    forall {A : Type} `{EqDecision A} (l : list A), NoDup (list_of_set l);
  list_of_set_elem :
    forall {A : Type} `{EqDecision A} (l : list A) (x : A),
      x ∈ list_of_set l <-> x ∈ l
}.

(* ===================================================================== *)
(** * 7. The comprehensive scraper                                       *)
(* ===================================================================== *)

Module Comprehensive.

Definition base_url : str := py "https://www.hyperpure.com".

Definition quote : N := 34%N.

(** [clean_text] *)
Definition clean_text (text : str) : str :=
  if negb (truthy text) then []
  else
    let cleaned := sub no_flags (Plus true (Cls isspace)) (py " ")
                       (strip text) in
    replace_c quote [quote; quote] cleaned.

Definition spaces0 : regex := Star true (Cls isspace).
(** [\d+(?:\.\d+)?] *)
Definition number_re : regex :=
  Seq digits1 (Opt (Seq (Lit (ch ".")) digits1)).

(** The four [size_patterns] of [extract_unit_size]. *)
Definition size_patterns : list regex :=
  [ Grp (Seqs [number_re; spaces0;
               Words [py "gm"; py "kg"; py "ml"; py "ltr"; py "litre";
                      py "pc"; py "pcs"; py "piece"; py "pieces";
                      py "pack"; py "packs"]]);
    Grp (Seqs [number_re; spaces0;
               Words [py "gram"; py "kilogram"; py "milliliter";
                      py "liter"]]);
    Seqs [Lit (ch "(");
          Grp (Seqs [number_re; spaces0;
                     Words [py "gm"; py "kg"; py "ml"; py "ltr"; py "pc";
                            py "pcs"];
                     Opt (Lit (ch "/")); Star true (Cls isword)]);
          Lit (ch ")")];
    Grp (Seqs [number_re; spaces0;
               Words [py "g"; py "kg"; py "ml"; py "l"]; WordB]) ].

(** [for pattern in patterns: match = re.search(...); if match: return f(match)];
    the first pattern that matches decides. *)
Fixpoint first_search (fl : flags) (patterns : list regex) (text : str)
    : option rmatch :=
  match patterns with
  | [] => None
  | r :: rest =>
      match search fl r text with
      | Some m => Some m
      | None => first_search fl rest text
      end
  end.

(** [extract_unit_size] *)
Definition extract_unit_size (text : str) : str :=
  if negb (truthy text) then []
  else match first_search IGNORECASE size_patterns text with
       | Some m => strip (group1 m)
       | None => []
       end.

(** [path.split('/')[-1]] *)
Definition last_segment (path : str) : str :=
  rev (split_head [ch "/"] (rev path)).

Definition category_map : list (str * str) :=
  [ (py "Menu-Addons", py "Menu Add-ons");
    (py "brownies-cakes-and-lava", py "Brownies, Cakes and Lava");
    (py "chicken-breast-boneless", py "Chicken");
    (py "cheese", py "Cheese");
    (py "curd", py "Curd/Yogurt");
    (py "ghee", py "Ghee");
    (py "milk-milk-powder", py "Milk & Milk Powder");
    (py "butter", py "Butter");
    (py "paneer", py "Paneer");
    (py "cream", py "Cream");
    (py "eggs", py "Eggs");
    (py "tomato-onion-potato", py "Tomato, Onion, Potato");
    (py "edible-oils", py "Edible Oils");
    (py "salts-sugars", py "Salt & Sugar");
    (py "pasta-noodles", py "Pasta & Noodles");
    (py "rice-rice-products", py "Rice & Rice Products");
    (py "atta-maida-sooji", py "Atta, Maida, Sooji");
    (py "corn-flour-besan-others", py "Corn Flour, Besan & Others");
    (py "urad-rajma-other-dal_1", py "Urad, Rajma & Other Dal");
    (py "cashews1", py "Cashews & Dry Fruits");
    (py "tea-and-coffee", py "Tea & Coffee");
    (py "ketchup-puree-pastes", py "Ketchup, Puree & Pastes") ].

Fixpoint dict_get (d : list (str * str)) (key dflt : str) : str :=
  match d with
  | [] => dflt
  | (k, v) :: rest => if str_eqb k key then v else dict_get rest key dflt
  end.

Definition category_urls : list str :=
  [ py "/in/Menu-Addons"; py "/in/brownies-cakes-and-lava";
    py "/in/chicken-breast-boneless"; py "/in/cheese"; py "/in/curd";
    py "/in/ghee"; py "/in/milk-milk-powder"; py "/in/butter";
    py "/in/paneer"; py "/in/cream"; py "/in/eggs";
    py "/in/tomato-onion-potato"; py "/in/edible-oils";
    py "/in/salts-sugars"; py "/in/pasta-noodles";
    py "/in/rice-rice-products"; py "/in/atta-maida-sooji";
    py "/in/corn-flour-besan-others"; py "/in/urad-rajma-other-dal_1";
    py "/in/cashews1"; py "/in/tea-and-coffee";
    py "/in/ketchup-puree-pastes" ].

(** The packaging branch of [extract_products_from_page]: the value
    assigned, or [None] when no branch is taken and the field keeps its
    default. *)
Definition listing_packaging_type (product_name category_name : str)
    : option str :=
  if any_in [py "frozen"; py "freeze"] (lower product_name)
  then Some (py "Frozen")
  else if any_in [py "fresh"; py "dairy"] (lower product_name)
  then Some (py "Fresh")
  else if str_in category_name
            [py "Milk & Milk Powder"; py "Cheese"; py "Butter"; py "Paneer";
             py "Cream"; py "Curd/Yogurt"]
  then Some (py "Chilled")
  else if str_in category_name
            [py "Rice & Rice Products"; py "Atta, Maida, Sooji";
             py "Salt & Sugar"]
  then Some (py "Dry")
  else None.

(** The filter on a link's [href] in [extract_products_from_page]. *)
Definition href_ok (href category_url : str) : bool :=
  startswith (py "/in/") href
  && (3 <=? S (length (filter (fun c => c = ch "/") href)))%nat
  && negb (existsb (fun skip => contains skip href)
             [py "Menu-Addons"; py "categories"; py "search"; py "cart";
              py "login"; py "register"])
  && negb (str_eqb href category_url).

(** The filter on a link's cleaned text. *)
Definition name_ok (product_name : str) : bool :=
  truthy product_name
  && (5 <? length product_name)%nat
  && negb (existsb (fun skip => contains skip (lower product_name))
             [py "home"; py "login"; py "cart"; py "search";
              py "categories"; py "how it works"; py "products";
              py "faqs"])
  && existsb isalpha product_name.

Section WithLibraries.
Context `{!UrlLib} `{!SetOrder}.

(** [get_category_name_from_url]; [None] when [urlparse] raises. *)
Definition get_category_name_from_url (url : str) : option str :=
  path ← urlparse_path url;
  let name := last_segment path in
  Some (dict_get category_map name
          (title (replace_c (ch "-") (py " ") name))).

(** The first loop of [extract_products_from_page]: the (name, URL) pairs
    of the links that pass both filters, in page order; [None] when
    [urljoin] raises. *)
Fixpoint collect_links (links : list (str * str)) (category_url : str)
    : option (list (str * str)) :=
  match links with
  | [] => Some []
  | (href, text) :: rest =>
      if href_ok href category_url then
        full_url ← urljoin base_url href;
        let product_name := clean_text text in
        more ← collect_links rest category_url;
        Some (if name_ok product_name
              then (product_name, full_url) :: more else more)
      else collect_links rest category_url
  end.

(** The body of the second loop: the draft built for one link. *)
Definition listing_product (stamp : str) (page : soup) (category_name : str)
    (link : str * str) : Product :=
  let '(product_name, product_url) := link in
  let product := new_Product in
  let product := set_scraped_timestamp stamp product in
  let product := set_category category_name product in
  let product := set_product_name product_name product in
  let product := set_product_page_url product_url product in
  let product := set_unit_size (extract_unit_size product_name) product in
  let text := page_text page in
  let product :=
    if contains product_name text then
      match find product_name text with
      | Some name_index =>
          let surrounding_text := window text name_index 100 200 in
          let '(c, o, d) := extract_price_info surrounding_text in
          set_discount_percentage d
            (set_price_original o (set_price_current c product))
      | None => product
      end
    else product in
  let product :=
    match listing_packaging_type product_name category_name with
    | Some v => set_packaging_type v product
    | None => product
    end in
  set_availability_status (py "In Stock") product.

(** [extract_products_from_page]; [None] when a library call raises. *)
Definition extract_products_from_page (stamp : str) (page : soup)
    (category_url : str) : option (list Product) :=
  category_name ← get_category_name_from_url category_url;
  product_links ← collect_links (page_links page) category_url;
  let product_links := list_of_set product_links in
  Some (map (listing_product stamp page category_name) product_links).


(** ** [scrape_product_details] *)

Definition not_dot : regex := NCls (fun c => (c =? ch ".")%N).
Definition sentence_end : regex :=
  Cls (fun c => (c =? ch ".")%N || (c =? ch "!")%N).

(** [desc_patterns], searched with [re.IGNORECASE | re.DOTALL]. *)
Definition desc_patterns : list regex :=
  [ Seqs [Cls isupper; Star true not_dot;
          Words [py "premium"; py "quality"; py "ingredients"; py "flavor";
                 py "taste"; py "rich"; py "delicious"; py "fresh";
                 py "organic"; py "natural"];
          Star true not_dot; sentence_end];
    Seqs [Cls isupper; Star true not_dot;
          Words [py "made with"; py "crafted"; py "indulge";
                 py "experience"; py "enjoy"];
          Star true not_dot; sentence_end];
    Seqs [Str (py "Key Features:"); Star true not_dot; sentence_end];
    Seqs [Str (py "Product details"); Star true not_dot; sentence_end] ].

(** [[:\s]+(.*?)(?:\n|\.|\||$)], the tail shared by the three
    [ingredients_patterns]. *)
Definition labelled_tail : regex :=
  Seqs [Plus true (Cls (fun c => (c =? ch ":")%N || isspace c));
        Grp (Star false Dot);
        Alt (Alt (Alt (Lit 10) (Lit (ch "."))) (Lit (ch "|"))) Eos].

(** [ingredients_patterns], searched with [re.IGNORECASE]. *)
Definition ingredients_patterns : list regex :=
  [ Seqs [Str (py "ingredient"); Opt (Lit (ch "s")); labelled_tail];
    Seqs [Str (py "contain"); Opt (Lit (ch "s")); labelled_tail];
    Seqs [Str (py "made with"); labelled_tail] ].

(** [r'/([a-zA-Z0-9\-_]+)(?:\?|$)'] *)
Definition sku_re : regex :=
  Seqs [Lit (ch "/");
        Grp (Plus true
               (Cls (fun c => isalnum c || (c =? ch "-")%N
                              || (c =? ch "_")%N)));
        Alt (Lit (ch "?")) Eos].

Definition feature_keywords : list str :=
  [py "premium"; py "imported"; py "handcrafted"; py "frozen"; py "fresh";
   py "organic"; py "natural"; py "quality"].

(** [max(matches, key=len)]: the first of the longest matches. *)
Definition longest (first : str) (others : list str) : str :=
  fold_left (fun best m => if (length best <? length m)%nat then m else best)
            others first.

(** [a or b] on attribute values. *)
Definition attr_or (a b : option str) : option str :=
  match a with
  | Some v => if truthy v then a else b
  | None => b
  end.

(** The name lines: the title fills an empty name, then a heading whose
    stripped text is longer than the name replaces it. *)
Definition name_step (page : soup) (product : Product) : Product :=
  let product :=
    if negb (truthy (product_name product)) then
      match page_title page with
      | Some title_text =>
          set_product_name
            (clean_text (split_head (py " Wholesalers")
                           (split_head (py "|") title_text)))
            product
      | None => product
      end
    else product in
  match page_h1 page with
  | Some h1_text =>
      if (length (product_name product) <? length (strip h1_text))%nat
      then set_product_name (clean_text h1_text) product
      else product
  | None => product
  end.

(** The description loop: the value to assign, if any pattern yields a
    longest match of acceptable length. *)
Fixpoint description_of (patterns : list regex) (text : str) : option str :=
  match patterns with
  | [] => None
  | r :: rest =>
      match findall IGNORECASE_DOTALL r text with
      | [] => description_of rest text
      | m :: ms =>
          let best_desc := longest m ms in
          if (30 <? length best_desc)%nat && (length best_desc <? 500)%nat
          then Some (clean_text best_desc)
          else description_of rest text
      end
  end.

Definition description_step (page : soup) (product : Product) : Product :=
  match description_of desc_patterns (page_text page) with
  | Some d => set_product_description d product
  | None => product
  end.

Definition price_step (page : soup) (product : Product) : Product :=
  if negb (truthy (price_current product)) then
    let '(c, o, d) := extract_price_info (page_text page) in
    set_discount_percentage d
      (set_price_original o (set_price_current c product))
  else product.

(** The first image whose source names the site and an image extension. *)
Fixpoint image_source (images : list img) : option str :=
  match images with
  | [] => None
  | i :: rest =>
      match attr_or (img_src i) (img_data_src i) with
      | Some src =>
          if truthy src
             && (contains (py "assets.hyperpure.com") src
                 || contains (py "hyperpure.com") src)
             && existsb (fun ext => contains ext src)
                  [py ".jpg"; py ".jpeg"; py ".png"; py ".webp"]
          then Some src
          else image_source rest
      | None => image_source rest
      end
  end.

(** The ingredients loop. *)
Fixpoint ingredients_of (patterns : list regex) (text : str) : option str :=
  match patterns with
  | [] => None
  | r :: rest =>
      match search IGNORECASE r text with
      | Some m =>
          let ingredient_text := clean_text (group1 m) in
          if (10 <? length ingredient_text)%nat
             && (length ingredient_text <? 200)%nat
          then Some ingredient_text
          else ingredients_of rest text
      | None => ingredients_of rest text
      end
  end.

Definition ingredients_step (page : soup) (product : Product) : Product :=
  match ingredients_of ingredients_patterns (page_text page) with
  | Some v => set_ingredients v product
  | None => product
  end.

(** The keywords found in the page, title-cased, in the order of
    [feature_keywords]. *)
Definition detected_tags (text : str) : list str :=
  let page_lower := lower text in
  map title (filter (fun keyword => contains keyword page_lower)
               feature_keywords).

Definition tags_step (page : soup) (product : Product) : Product :=
  match detected_tags (page_text page) with
  | [] => product
  | tags => set_tags (join (py ";") (list_of_set tags)) product
  end.

Definition unit_size_step (page : soup) (product : Product) : Product :=
  if negb (truthy (unit_size product))
  then set_unit_size (extract_unit_size (page_text page)) product
  else product.

(** The [try] block of [scrape_product_details].  [urljoin] and [urlparse]
    can raise; the [except Exception] clause then logs, and the product is
    returned with the fields assigned so far. *)
Definition detail_body (page : soup) (product : Product) : Product :=
  let product := name_step page product in
  let product := description_step page product in
  let product := price_step page product in
  let imaged :=
    match image_source (page_imgs page) with
    | Some src =>
        match urljoin base_url src with
        | Some u => Some (set_product_image_url u product)
        | None => None
        end
    | None => Some product
    end in
  match imaged with
  | None => product
  | Some product1 =>
      let product2 := tags_step page (ingredients_step page product1) in
      match urlparse_path (product_page_url product2) with
      | None => product2
      | Some url_path =>
          let product3 :=
            match search no_flags sku_re url_path with
            | Some sku_match => set_sku_code (group1 sku_match) product2
            | None => product2
            end in
          unit_size_step page product3
      end
  end.

(** [scrape_product_details] *)
Definition scrape_product_details (product : Product)
    : M Product Product :=
  s <- get_state ;;
  if negb (truthy (product_page_url product))
     || bool_decide (product_page_url product ∈ scraped_urls s)
  then ret product
  else
    fetched <- safe_request (product_page_url product) 3 ;;
    match fetched with
    | None => ret product
    | Some page =>
        add_scraped_url (product_page_url product) ;;;
        ret (detail_body page product)
    end.

(** ** [scrape_all_products], [save_to_csv], [main] *)

(** The loop over [category_products[:max_details]].  The local list
    [all_products] is threaded through; the flag tells whether the loop ran
    to its end or an [Exception] left the category's [try] block (the
    products appended before it stay in the list). *)
Fixpoint details_loop (ps : list Product) (all_products : list Product)
    : M Product (list Product * bool) :=
  match ps with
  | [] => ret (all_products, true)
  | product :: rest =>
      r <- try_except
             (d <- scrape_product_details product ;; ret (Some d))
             is_Exception (fun _ => ret None) ;;
      match r with
      | None => ret (all_products, false)
      | Some detailed_product =>
          sleep ;;;
          details_loop rest (all_products ++ [detailed_product])
      end
  end.

(** The body of the loop over [self.category_urls], with its
    [except Exception: continue]. *)
Definition category_body (category_url : str) (all_products : list Product)
    : M Product (list Product) :=
  match urljoin base_url category_url with
  | None => ret all_products
  | Some full_url =>
      fetched <- try_except (safe_request full_url 3)
                   is_Exception (fun _ => ret None) ;;
      match fetched with
      | None => ret all_products
      | Some page =>
          stamp <- now ;;
          match extract_products_from_page stamp page category_url with
          | None => ret all_products
          | Some category_products =>
              let max_details := Nat.min 5 (length category_products) in
              r <- details_loop (take max_details category_products)
                     all_products ;;
              let '(all_products1, finished) := r in
              if finished
              then ret (all_products1 ++ drop max_details category_products)
              else ret all_products1
          end
      end
  end.

Fixpoint categories_loop (urls : list str) (all_products : list Product)
    : M Product (list Product) :=
  match urls with
  | [] => ret all_products
  | category_url :: rest =>
      all_products1 <- category_body category_url all_products ;;
      categories_loop rest all_products1
  end.

(** [scrape_all_products]: [self.products] is assigned once, after the
    loop over the categories. *)
Definition scrape_all_products_from (urls : list str)
    : M Product (list Product) :=
  all_products <- categories_loop urls [] ;;
  set_products all_products ;;;
  s <- get_state ;;
  ret (products s).

Definition scrape_all_products : M Product (list Product) :=
  scrape_all_products_from category_urls.

(** [save_to_csv] *)
Definition save_to_csv (filename : str) : M Product unit :=
  s <- get_state ;;
  match products s with
  | [] => ret tt                                    (* "No products to save" *)
  | _ :: _ =>
      if disk_ok (env s)
      then update_world
             (write_file filename (fieldnames :: map to_row (products s)))
      else ret tt                                   (* except Exception *)
  end.

(** [datetime.now().strftime("%Y%m%d_%H%M%S")] *)
Definition timestamp {P} : M P str :=
  s <- get_state ;; ret (clock_stamp (env s) (ticks (env s))).

(** The [try] of [main] with its two [except] clauses, as run over the
    category list [urls]. *)
Definition main_from (urls : list str) : M Product unit :=
  try_except
    (products <- scrape_all_products_from urls ;;
     match products with
     | [] => ret tt
     | _ :: _ =>
         stamp <- timestamp ;;
         save_to_csv (py "hyperpure_products_comprehensive_" ++ stamp
                      ++ py ".csv")
     end)
    (fun _ => true)
    (fun e =>
       match e with
       | KeyboardInterrupt =>
           s <- get_state ;;
           match products s with
           | [] => ret tt
           | _ :: _ =>
               stamp <- timestamp ;;
               save_to_csv (py "hyperpure_products_comprehensive_partial_"
                            ++ stamp ++ py ".csv")
           end
       | _ => ret tt
       end).

Definition main : M Product unit := main_from category_urls.

End WithLibraries.

End Comprehensive.

(* ===================================================================== *)
(** * 8. The PERFECT scraper                                             *)
(* ===================================================================== *)

Module Perfect.

Definition base_url : str := py "https://www.hyperpure.com".

(** The currency glyph as [hyperpure_PERFECT_scraper.py] spells it: the
    three code points U+00E2 U+201A U+00B9 (the bytes of the rupee sign read
    through a one-byte code page), not U+20B9. *)
Definition glyph : str := [226%N; 8218%N; 185%N].

(** The characters the third substitution of [clean_text] keeps:
    [[\w\s.,;:()\-â‚¹%/\[\]]]. *)
Definition kept (c : N) : bool :=
  isword c || isspace c
  || existsb (N.eqb c)
       ([ch "."; ch ","; ch ";"; ch ":"; ch "("; ch ")"; ch "-"; ch "%";
         ch "/"; ch "["; ch "]"] ++ glyph).

(** [clean_text] *)
Definition clean_text (text : str) : str :=
  if negb (truthy text) then []
  else
    let cleaned := sub no_flags (Plus true (Cls isspace)) (py " ")
                       (strip text) in
    let cleaned := replace_c 34 [34%N; 34%N] cleaned in
    sub no_flags (Plus true (NCls kept)) [] cleaned.

(** The three [price_patterns]. *)
Definition price_patterns : list regex :=
  [ Seq (Str glyph) (Grp amount_re);
    Seqs [Grp digits1; Star true (Cls isspace); Str glyph];
    Seqs [Str (py "Rs"); Opt (Lit (ch ".")); Star true (Cls isspace);
          Grp amount_re] ].

(** [all_prices]: for each pattern in turn, its matches with the commas
    removed and the glyph put in front. *)
Definition all_prices (product_text : str) : list str :=
  flat_map (fun pattern =>
              map (fun m => glyph ++ replace_c (ch ",") [] m)
                  (findall_group no_flags pattern product_text))
           price_patterns.

(** "Remove duplicates while preserving order". *)
Fixpoint unique_from (seen : gset str) (l : list str) : list str :=
  match l with
  | [] => []
  | price :: rest =>
      if bool_decide (price ∈ seen) then unique_from seen rest
      else price :: unique_from ({[price]} ∪ seen) rest
  end.

(** [re.sub(r'[â‚¹,]', '', price)] and [float] *)
Definition amount (price : str) : option float :=
  float_of_str
    (sub no_flags
       (Cls (fun c => existsb (N.eqb c) (glyph ++ [ch ","]))) [] price).

Definition discount_text (current_price original_price : str) : str :=
  match amount current_price with
  | None => []
  | Some current_val =>
      match amount original_price with
      | None => []
      | Some original_val =>
          if PrimFloat.ltb current_val original_val then
            match py_div (original_val - current_val)%float original_val with
            | None => []
            | Some q => format_1f (q * 100)%float ++ py "%"
            end
          else []
      end
  end.

(** [extract_perfect_price_info] (its [soup] argument is not used). *)
Definition extract_perfect_price_info (product_text : str)
    : str * str * str :=
  let unique_prices := unique_from ∅ (all_prices product_text) in
  match unique_prices with
  | [] => ([], [], [])
  | current_price :: more =>
      match more with
      | [] => (current_price, [], [])
      | original_price :: _ =>
          (current_price, original_price,
           discount_text current_price original_price)
      end
  end.

(** The fields of [PerfectProduct] that the steps below write.  The other
    fields of the dataclass (description, image, the thirteen specification
    fields, unit size, SKU, category) are filled by steps 2, 4, 5, 6, 8 and
    9 of [extract_perfect_product_details]; none of the steps kept here
    reads them.  Whether one of those steps raises is the page's
    [page_raises]. *)
Record PerfectProduct : Type := mkPerfect {
  product_name : str;
  price_current : str;
  price_original : str;
  discount_percentage : str;
  product_page_url : str;
  packaging_type : str;
  tags : str;
  scraped_timestamp : str
}.

(** [r'\s+Wholesalers.*$'] *)
Definition wholesalers_re : regex :=
  Seqs [Plus true (Cls isspace); Str (py "Wholesalers"); Star true Dot; Eos].

(** Step 1: the heading, else the title without its suffix. *)
Definition name_of (page : soup) : str :=
  let name :=
    match page_h1 page with
    | Some h1_text => clean_text h1_text
    | None => []
    end in
  if negb (truthy name) then
    match page_title page with
    | Some title_text =>
        clean_text (sub no_flags wholesalers_re [] title_text)
    | None => name
    end
  else name.

(** Step 7: [packaging_keywords], in the insertion order of the dict. *)
Definition packaging_keywords : list (str * str) :=
  [ (py "frozen", py "Frozen");
    (py "fresh", py "Fresh");
    (py "chilled", py "Chilled");
    (py "ambient", py "Ambient");
    (py "dry", py "Dry") ].

(** The loop over the table: the class of the first keyword that occurs in
    the text; the empty default when none does. *)
Fixpoint first_keyword (table : list (str * str)) (lower_text : str) : str :=
  match table with
  | [] => []
  | (keyword, packaging_type) :: rest =>
      if contains keyword lower_text then packaging_type
      else first_keyword rest lower_text
  end.

Definition packaging_of (full_text : str) : str :=
  first_keyword packaging_keywords (lower full_text).

(** Step 10. *)
Definition quoted (s : str) : str := [34%N] ++ s ++ [34%N].
Definition badge_selectors : list str :=
  [ py "img[alt*=" ++ quoted (py "dietary") ++ py "]";
    py "[class*=" ++ quoted (py "badge") ++ py "]";
    py "[class*=" ++ quoted (py "tag") ++ py "]";
    py "[class*=" ++ quoted (py "label") ++ py "]" ].

Definition tag_text_of (elem : element) : str :=
  if str_eqb (el_name elem) (py "img") then default [] (el_alt elem)
  else clean_text (el_text elem).

(** The texts of the badge elements, selector by selector, as met. *)
Definition badge_texts (page : soup) : list str :=
  flat_map (fun selector => map tag_text_of (page_select page selector))
           badge_selectors.

(** The inner loop: a text is appended when it is longer than two
    characters and not yet in the list. *)
Definition add_badge (tags : list str) (tag_text : str) : list str :=
  if truthy tag_text && (2 <? length tag_text)%nat
     && negb (str_in tag_text tags)
  then tags ++ [tag_text] else tags.

Definition badge_tags (page : soup) : list str :=
  fold_left add_badge (badge_texts page) [].

(** "Add tags based on content analysis". *)
Definition content_tags (full_text packaging_type : str) : list str :=
  let t := lower full_text in
  (if contains (py "premium") t then [py "Premium"] else [])
  ++ (if contains (py "handcrafted") t || contains (py "hand-crafted") t
      then [py "Handcrafted"] else [])
  ++ (if contains (py "imported") t then [py "Imported"] else [])
  ++ (if truthy packaging_type then [packaging_type] else []).

(** The list [tags] as it stands when it is joined. *)
Definition tag_list (page : soup) (packaging_type : str) : list str :=
  let tags := badge_tags page in
  tags ++ filter (fun tag => negb (str_in tag tags))
            (content_tags (page_text page) packaging_type).

(** The [try] block of [extract_perfect_product_details] on a fetched page:
    the product, or [None] when a step raised ([except Exception: return
    None]). *)
Definition details_of_page (stamp product_url : str) (page : soup)
    : option PerfectProduct :=
  if page_raises page then None
  else
    let full_text := page_text page in
    let '(c, o, d) := extract_perfect_price_info full_text in
    let packaging_type := packaging_of full_text in
    Some (mkPerfect (name_of page) c o d product_url packaging_type
            (join (py ";") (tag_list page packaging_type)) stamp).

(** [extract_perfect_product_details] *)
Definition extract_perfect_product_details (product_url : str)
    : M PerfectProduct (option PerfectProduct) :=
  fetched <- safe_request_perfect product_url 3 ;;
  match fetched with
  | None => ret None
  | Some page =>
      stamp <- now ;;
      ret (details_of_page stamp product_url page)
  end.

(** The loop of [scrape_all_perfect_products]: a product is appended to
    [self.products] only when it is there and has a name. *)
Fixpoint products_loop (product_urls : list str) : M PerfectProduct unit :=
  match product_urls with
  | [] => ret tt
  | product_url :: rest =>
      try_except
        (perfect_product <- extract_perfect_product_details product_url ;;
         match perfect_product with
         | Some p =>
             if truthy (product_name p) then append_product p else ret tt
         | None => ret tt
         end)
        is_Exception (fun _ => ret tt) ;;;
      products_loop rest
  end.

Definition starting_urls : list str :=
  map (fun path => base_url ++ path)
    [ py "/in/Menu-Addons"; py "/in/brownies-cakes-and-lava";
      py "/in/chicken-breast-boneless"; py "/in/cheese"; py "/in/curd";
      py "/in/ghee"; py "/in/milk-milk-powder"; py "/in/butter";
      py "/in/paneer"; py "/in/cream"; py "/in/eggs" ].

(** The filter of [get_all_product_urls] on an [href]. *)
Definition product_href (href : str) : bool :=
  contains (py "/in/") href
  && negb (existsb (fun skip => contains skip href)
             [py "Menu-Addons"; py "category"; py "#"; py "javascript"])
  && existsb (fun indicator => contains indicator href)
       [py "frozen"; py "brownie"; py "chicken"; py "burger"; py "chutney";
        py "paneer"; py "cheese"; py "ghee"; py "butter"; py "cream";
        py "milk"; py "egg"; py "curd"].

Section WithLibraries.
Context `{!UrlLib} `{!SetOrder}.

(** The product links of one start page, resolved; [None] when [urljoin]
    raises. *)
Fixpoint resolve_links (links : list (str * str)) : option (list str) :=
  match links with
  | [] => Some []
  | (href, _) :: rest =>
      if product_href href then
        full_url ← urljoin base_url href;
        more ← resolve_links rest;
        Some (full_url :: more)
      else resolve_links rest
  end.

(** [get_all_product_urls] *)
Fixpoint collect_urls (starts : list str) (all_product_urls : list str)
    : M PerfectProduct (list str) :=
  match starts with
  | [] => ret (list_of_set all_product_urls)
  | start_url :: rest =>
      fetched <- safe_request_perfect start_url 3 ;;
      match fetched with
      | None => collect_urls rest all_product_urls
      | Some page =>
          match resolve_links (page_links page) with
          | Some urls => collect_urls rest (all_product_urls ++ urls)
          | None => raise OtherException
          end
      end
  end.

Definition get_all_product_urls : M PerfectProduct (list str) :=
  collect_urls starting_urls [].

(** [scrape_all_perfect_products] *)
Definition scrape_all_perfect_products
    : M PerfectProduct (list PerfectProduct) :=
  product_urls <- get_all_product_urls ;;
  match product_urls with
  | [] => ret []
  | _ :: _ =>
      products_loop product_urls ;;;
      s <- get_state ;;
      ret (products s)
  end.

End WithLibraries.

End Perfect.

(* ===================================================================== *)
(** * 9. The detailed scraper: which records are kept                    *)
(* ===================================================================== *)

Module Detailed.

Definition base_url : str := py "https://www.hyperpure.com".

(** [clean_text] *)
Definition clean_text (text : str) : str :=
  if negb (truthy text) then []
  else
    let cleaned := sub no_flags (Plus true (Cls isspace)) (py " ")
                       (strip text) in
    replace_c 34 [34%N; 34%N] cleaned.

(** The fields of [DetailedProduct] that decide whether a record is kept.
    The name is the first thing the [try] block of
    [scrape_detailed_product_info] writes; the later steps (description,
    specifications, packaging, SKU, unit size) write other fields, and when
    one of them raises the [except] clause returns the product with the
    name it has by then. *)
Record DetailedProduct : Type := mkDetailed {
  product_name : str;
  product_page_url : str;
  scraped_timestamp : str
}.

(** [r'\s+Wholesalers.*$'] *)
Definition wholesalers_re : regex :=
  Seqs [Plus true (Cls isspace); Str (py "Wholesalers"); Star true Dot; Eos].

(** The heading replaces the name; without a name, the title without its
    suffix is taken. *)
Definition name_step (page : soup) (product : DetailedProduct)
    : DetailedProduct :=
  let product :=
    match page_h1 page with
    | Some h1_text =>
        mkDetailed (clean_text h1_text) (product_page_url product)
                   (scraped_timestamp product)
    | None => product
    end in
  if negb (truthy (product_name product)) then
    match page_title page with
    | Some title_text =>
        mkDetailed (clean_text (sub no_flags wholesalers_re [] title_text))
                   (product_page_url product) (scraped_timestamp product)
    | None => product
    end
  else product.

(** [scrape_detailed_product_info] *)
Definition scrape_detailed_product_info (product : DetailedProduct)
    : M DetailedProduct DetailedProduct :=
  s <- get_state ;;
  if negb (truthy (product_page_url product))
     || bool_decide (product_page_url product ∈ scraped_urls s)
  then ret product
  else
    fetched <- safe_request (product_page_url product) 3 ;;
    match fetched with
    | None => ret product
    | Some page =>
        add_scraped_url (product_page_url product) ;;;
        ret (name_step page product)
    end.

(** The filter of [get_product_links_from_main_page] on an [href]. *)
Definition product_href (href : str) : bool :=
  contains (py "/in/") href
  && existsb (fun keyword => contains keyword href)
       [py "frozen"; py "brownie"; py "chicken"; py "burger"; py "chutney"].

(** The loop of [scrape_all_detailed_products]: the record of a product
    page is appended to [self.products] only when it has a name. *)
Fixpoint products_loop (product_links : list str)
    : M DetailedProduct unit :=
  match product_links with
  | [] => ret tt
  | product_url :: rest =>
      try_except
        (stamp <- now ;;
         detailed_product <-
           scrape_detailed_product_info (mkDetailed [] product_url stamp) ;;
         if truthy (product_name detailed_product)
         then append_product detailed_product else ret tt)
        is_Exception (fun _ => ret tt) ;;;
      products_loop rest
  end.

Section WithLibraries.
Context `{!UrlLib}.

(** The links of the main page that pass the filter, resolved, each once
    and in page order; [None] when [urljoin] raises. *)
Fixpoint resolve_links (links : list (str * str)) (product_links : list str)
    : option (list str) :=
  match links with
  | [] => Some product_links
  | (href, _) :: rest =>
      if product_href href then
        full_url ← urljoin base_url href;
        resolve_links rest
          (if bool_decide (full_url ∈ product_links) then product_links
           else product_links ++ [full_url])
      else resolve_links rest product_links
  end.

(** [get_product_links_from_main_page] *)
Definition get_product_links_from_main_page
    : M DetailedProduct (list str) :=
  fetched <- safe_request (base_url ++ py "/in/Menu-Addons") 3 ;;
  match fetched with
  | None => ret []
  | Some page =>
      match resolve_links (page_links page) [] with
      | Some product_links => ret product_links
      | None => raise OtherException
      end
  end.

(** [scrape_all_detailed_products] *)
Definition scrape_all_detailed_products
    : M DetailedProduct (list DetailedProduct) :=
  product_links <- get_product_links_from_main_page ;;
  match product_links with
  | [] => ret []
  | _ :: _ =>
      products_loop product_links ;;;
      s <- get_state ;;
      ret (products s)
  end.

End WithLibraries.

End Detailed.

(* ===================================================================== *)
(** * 10. Instances used to run the model                                *)
(* ===================================================================== *)

(** A plain [urllib]: a reference that starts with a scheme is kept, any
    other is appended to the base; the path of a URL is what follows the
    host, up to the query or fragment. *)
Definition plain_urljoin (base url : str) : option str :=
  if startswith (py "http://") url || startswith (py "https://") url
  then Some url else Some (base ++ url).

Fixpoint until_query (s : str) : str :=
  match s with
  | [] => []
  | c :: t =>
      if (c =? ch "?")%N || (c =? ch "#")%N then [] else c :: until_query t
  end.

Definition plain_path (url : str) : option str :=
  let rest :=
    match find (py "://") url with
    | Some i =>
        let after := drop (i + 3) url in
        match find (py "/") after with
        | Some j => drop j after
        | None => []
        end
    | None => url
    end in
  Some (until_query rest).

Definition plain_urls : UrlLib := Build_UrlLib plain_urljoin plain_path.

(** Two iteration orders for a set.  On a list without repetitions the
    first is the order of the list, the second its reverse. *)
Definition as_listed : SetOrder :=
  Build_SetOrder
    (fun A _ l => remove_dups l)
    (fun A _ l => NoDup_remove_dups l)
    (fun A _ l x => elem_of_remove_dups l x).

Definition reversed : SetOrder :=
  Build_SetOrder
    (fun A _ l => remove_dups (reverse l))
    (fun A _ l => NoDup_remove_dups (reverse l))
    (fun A _ l x =>
       iff_trans (elem_of_remove_dups (reverse l) x) (elem_of_reverse x l)).

(* ===================================================================== *)
(** * 11. Notions used in the statements                                 *)
(* ===================================================================== *)

(** The state after a blocking call, and after a request for [url]. *)
Definition ticked {P} (s : scraper P) : scraper P :=
  Scraper (scraped_urls s) (products s) (tick (env s)).
Definition requested {P} (url : str) (s : scraper P) : scraper P :=
  Scraper (scraped_urls s) (products s) (log_request url (tick (env s))).

(** No operator interrupt is pending. *)
Definition quiet {P} (s : scraper P) : Prop := interrupt_at (env s) = None.
(** The number of HTTP requests made so far. *)
Definition requests {P} (s : scraper P) : nat := length (sent (env s)).

(** [s'] differs from [s] by [n] more requests, all for [url], and by the
    time that passed. *)
Definition sends {P} (n : nat) (url : str) (s s' : scraper P) : Prop :=
  scraped_urls s' = scraped_urls s
  /\ products s' = products s
  /\ net (env s') = net (env s)
  /\ interrupt_at (env s') = interrupt_at (env s)
  /\ disk (env s') = disk (env s)
  /\ sent (env s') = replicate n url ++ sent (env s).

(** ** Sample data *)

(** A page with nothing on it. *)
Definition blank_page : soup := Soup [] None None [] [] (fun _ => []) false.

(** A world in which the first [n] requests fail and every later one
    returns [page]; no interrupt, a working disk. *)
Definition flaky_world (n : nat) (page : soup) : world :=
  World (fun i => if (i <? n)%nat then RequestFailed else Fetched page)
        [] 0 None (fun _ => py "2025-09-03T10:00:00")
        (fun _ => py "20250903_100000") [] true.

(** ** Relations between the state before and after a method *)

(** A computation keeps the relation [R] between the state it starts from
    and the state it ends in, whether it returns or raises. *)
Definition preserves {P A} (R : relation (scraper P)) (m : M P A) : Prop :=
  forall s, R s (m s).2.

(** The visited set only grows. *)
Definition grows {P} : relation (scraper P) :=
  fun s s' => scraped_urls s ⊆ scraped_urls s'.
(** The product list and the disk are untouched. *)
Definition keeps {P} : relation (scraper P) :=
  fun s s' => products s' = products s /\ disk (env s') = disk (env s).
(** Only the world changes (time passes, requests are sent). *)
Definition frames {P} : relation (scraper P) :=
  fun s s' => scraped_urls s' = scraped_urls s /\ products s' = products s
              /\ disk (env s') = disk (env s)
              /\ interrupt_at (env s') = interrupt_at (env s).
(** Requests are never unsent. *)
Definition sends_more {P} : relation (scraper P) :=
  fun s s' => (requests s <= requests s')%nat.

(** A draft as the listing stage leaves it for a product page. *)
Definition sample_url : str :=
  py "https://www.hyperpure.com/in/walnut-brownie-80-gm".
Definition sample_draft : Product :=
  set_product_page_url sample_url
    (set_product_name (py "Walnut Brownie 80 gm") new_Product).

(** A product with a name; a scraper all of whose products have one. *)
Definition named (p : Perfect.PerfectProduct) : Prop :=
  Perfect.product_name p <> [].
Definition named_only : relation (scraper Perfect.PerfectProduct) :=
  fun s s' => Forall named (products s) -> Forall named (products s').
Definition detailed_named (p : Detailed.DetailedProduct) : Prop :=
  Detailed.product_name p <> [].
Definition detailed_named_only
    : relation (scraper Detailed.DetailedProduct) :=
  fun s s' => Forall detailed_named (products s)
              -> Forall detailed_named (products s').

(** A world that answers the requests of a run from a script, and fails
    every request beyond it. *)
Definition scripted_world (script : list response) (interrupt : option nat)
    : world :=
  World (fun i => default RequestFailed (script !! i))
        [] 0 interrupt (fun _ => py "2025-09-03T10:00:00")
        (fun _ => py "20250903_100000") [] true.

(** A page that shows a heading and some text, and one that links to two
    product pages. *)
Definition heading_page (h1 text : str) : soup :=
  Soup text None (Some h1) [] [] (fun _ => []) false.
Definition untitled_page (text : str) : soup :=
  Soup text None None [] [] (fun _ => []) false.
Definition listing_page : soup :=
  Soup (py "Walnut Brownie 80 gm Cheese Slice 200 gm") None None []
       [ (py "/in/walnut-brownie-80-gm", py "Walnut Brownie 80 gm");
         (py "/in/cheese-slice-200-gm", py "Cheese Slice 200 gm") ]
       (fun _ => []) false.

(** The PERFECT run on it: the start page lists two products, the ten other
    start pages are blank; the first product page has a heading, the second
    has neither heading nor title. *)
Definition perfect_script : list response :=
  Fetched listing_page :: replicate 10 (Fetched blank_page)
  ++ [ Fetched (heading_page (py "Walnut Brownie") (py "Frozen. Rs. 199"));
       Fetched (untitled_page (py "Rs. 249")) ].

(** The detailed run: the main page lists two products; the first product
    page has a heading, the second has neither heading nor title. *)
Definition addons_page : soup :=
  Soup [] None None []
       [ (py "/in/walnut-brownie-80-gm", py "Walnut Brownie 80 gm");
         (py "/in/chicken-burger-patty", py "Chicken Burger Patty") ]
       (fun _ => []) false.
Definition detailed_script : list response :=
  [ Fetched addons_page;
    Fetched (heading_page (py "Walnut Brownie") (py "Frozen. Rs. 199"));
    Fetched (untitled_page (py "Rs. 249")) ].

(** The comprehensive run on one category: the category page lists two
    products, whose pages follow.  The blocking calls of that run are, in
    order: the sleep and the request for the category page (0, 1), the sleep
    and the request for the first product page (2, 3), the pause after the
    first product has been appended to [all_products] (4), the sleep and the
    request for the second product page (5, 6), the pause after it (7). *)
Definition comprehensive_script : list response :=
  [ Fetched listing_page;
    Fetched (heading_page (py "Walnut Brownie 80 gm Pack of 9")
                          (py "Premium frozen brownie"));
    Fetched (untitled_page (py "Fresh cheese slices")) ].

Definition one_category : list str := [py "/in/brownies-cakes-and-lava"].

(** Following the specification's words ("no duplicate string twice, but
    preserve the order of first detection"): of a sequence of detections,
    each string once, at the place where it was first met. *)
Fixpoint first_occurrences (l : list str) : list str :=
  match l with
  | [] => []
  | x :: t => x :: filter (fun y => y <> x) (first_occurrences t)
  end.




(** ** The merge of the detail stage into a listing-stage draft *)



(** What the listing stage guarantees of a draft: it has a name, and a
    draft without a current price has neither an original price nor a
    discount. *)
Definition listing_draft (d : Product) : Prop :=
  product_name d <> []
  /\ (price_current d = [] ->
      price_original d = [] /\ discount_percentage d = []).


(** A pattern without a capturing group. *)
Fixpoint nogrp (r : regex) : bool :=
  match r with
  | Grp _ => false
  | Seq a b | Alt a b => nogrp a && nogrp b
  | Star _ a | Ahead a => nogrp a
  | _ => true
  end.


(** Every match of [r] reads at least one character. *)
Definition consuming (fl : flags) (r : regex) : Prop :=
  forall (st : mstate) (k : mstate -> option mstate) (x : mstate),
    m_re fl r st k = Some x ->
    exists st', k st' = Some x
                /\ (length (m_rest st') < length (m_rest st))%nat.

(** The words a pattern can read, whatever the order in which the matcher
    tries them.  A look-ahead, [$] and [\b] read nothing. *)
Fixpoint lang (fl : flags) (r : regex) (w : str) : Prop :=
  match r with
  | Eps | Ahead _ | Eos | WordB => w = []
  | Lit c => exists x, w = [x] /\ lit_ok fl c x = true
  | Cls p => exists x, w = [x] /\ cls_ok fl p x = true
  | NCls p => exists x, w = [x] /\ cls_ok fl p x = false
  | Dot => exists x, w = [x] /\ dot_ok fl x = true
  | Seq a b => exists u v, w = u ++ v /\ lang fl a u /\ lang fl b v
  | Alt a b => lang fl a w \/ lang fl b w
  | Star _ a => exists ws, w = concat ws /\ Forall (lang fl a) ws
  | Grp a => lang fl a w
  end.

(** The characters that [re.sub(r'[₹,]', '', price)] leaves. *)
Definition keep_amount (c : N) : bool :=
  negb ((c =? rupee)%N || (c =? ch ",")%N).

(** A float that is a number. *)
Definition number_sf (x : spec_float) : Prop :=
  match x with S754_nan => False | _ => True end.

(** Sign of a float: not negative (or not a number). *)
Definition nonneg_sf (x : spec_float) : Prop :=
  match x with
  | S754_zero s | S754_infinity s | S754_finite s _ _ => s = false
  | S754_nan => True
  end.

(* ===================================================================== *)
(** * 12. Notions used in the further properties                         *)
(* ===================================================================== *)

(** ** Runs of characters *)

(** The longest prefix of characters that satisfy [ok], and what follows
    it. *)
Fixpoint run_of (ok : N -> bool) (s : str) : str :=
  match s with
  | c :: t => if ok c then c :: run_of ok t else []
  | [] => []
  end.
Fixpoint after_run (ok : N -> bool) (s : str) : str :=
  match s with
  | c :: t => if ok c then after_run ok t else s
  | [] => []
  end.

(** Every maximal run of characters that satisfy [ok] replaced by [repl];
    [in_run] tells whether the character before belonged to such a run. *)
Fixpoint squeeze (ok : N -> bool) (repl : str) (in_run : bool) (s : str)
    : str :=
  match s with
  | [] => []
  | c :: t =>
      if ok c then (if in_run then [] else repl) ++ squeeze ok repl true t
      else c :: squeeze ok repl false t
  end.

(** The rounds of a greedy star, as [m_re] runs them. *)
Definition star_rounds (fl : flags) (a : regex)
    (k : mstate -> option mstate) : nat -> mstate -> option mstate :=
  fix rounds (n : nat) (st : mstate) {struct n} : option mstate :=
    match n with
    | O => k st
    | S n' =>
        match m_re fl a st (fun st1 =>
                if (length (m_rest st1) <? length (m_rest st))%nat
                then rounds n' st1 else None) with
        | Some x => Some x
        | None => k st
        end
    end.

(** A pattern that reads exactly one character, one that satisfies [ok]. *)
Definition one_char (fl : flags) (a : regex) (ok : N -> bool) : Prop :=
  forall (st : mstate) (k : mstate -> option mstate),
    m_re fl a st k = step_char ok st k.

(** The last character read, after [prev]. *)
Definition last_read (prev : option N) (w : str) : option N :=
  match last w with Some c => Some c | None => prev end.

(** ** Tidy text *)

(** White space occurs only as single spaces between other characters;
    [after_space] tells whether the character before was a space (or the
    text starts here). *)
Fixpoint tidy_from (after_space : bool) (s : str) : bool :=
  match s with
  | [] => negb after_space
  | c :: t =>
      if isspace c
      then (c =? 32)%N && negb after_space && tidy_from true t
      else tidy_from false t
  end.
Definition tidy (s : str) : bool :=
  match s with [] => true | _ => tidy_from true s end.

(** ** What a group can capture *)

(** The texts that the group of a pattern can hold after a match: the words
    of the sub-pattern it encloses.  (A group inside a look-ahead is not
    kept by the matcher.) *)
Fixpoint caps (fl : flags) (r : regex) (w : str) : Prop :=
  match r with
  | Grp a => lang fl a w
  | Seq a b | Alt a b => caps fl a w \/ caps fl b w
  | Star _ a => caps fl a w
  | _ => False
  end.

(** ** Fields *)

(** The fields of a [Product] that only the listing stage writes. *)
Definition listing_fields : list (Product -> str) :=
  [ category; subcategory; product_page_url; availability_status;
    brand_name; packaging_type; nutritional_info; product_id; rating;
    review_count; scraped_timestamp ].

(** The characters of an SKU: [[a-zA-Z0-9\-_]]. *)
Definition sku_char (c : N) : bool :=
  isalnum c || (c =? ch "-")%N || (c =? ch "_")%N.

(** ** Budgets and outcomes of a method *)

(** The method sends at most [n] requests. *)
Definition within {P A} (n : nat) (m : M P A) : Prop :=
  forall s, (requests (m s).2 <= requests s + n)%nat.

(** The only exception the method lets out is the operator's interrupt. *)
Definition interrupt_only {P A} (m : M P A) : Prop :=
  forall s, match (m s).1 with
            | Raise e => e = KeyboardInterrupt
            | Ret _ => True
            end.

(** With no interrupt pending, the method raises at most an [Exception]
    (and no interrupt becomes pending); or it returns. *)
Definition contained {P A} (m : M P A) : Prop :=
  forall s, quiet s ->
    quiet (m s).2
    /\ match (m s).1 with
       | Raise e => is_Exception e = true
       | Ret _ => True
       end.
Definition completes {P A} (m : M P A) : Prop :=
  forall s, quiet s -> quiet (m s).2 /\ exists a, (m s).1 = Ret a.

(** ** [to_dict] and [csv.DictWriter] *)

(** [Product.to_dict], as the dict literal lists its items. *)
Definition to_dict (p : Product) : list (str * str) :=
  [ (py "product_name", product_name p);
    (py "category", category p);
    (py "subcategory", subcategory p);
    (py "price_current", price_current p);
    (py "price_original", price_original p);
    (py "discount_percentage", discount_percentage p);
    (py "product_description", product_description p);
    (py "product_image_url", product_image_url p);
    (py "product_page_url", product_page_url p);
    (py "availability_status", availability_status p);
    (py "brand_name", brand_name p);
    (py "unit_size", unit_size p);
    (py "packaging_type", packaging_type p);
    (py "nutritional_info", nutritional_info p);
    (py "ingredients", ingredients p);
    (py "product_id", product_id p);
    (py "sku_code", sku_code p);
    (py "rating", rating p);
    (py "review_count", review_count p);
    (py "tags", tags p);
    (py "scraped_timestamp", scraped_timestamp p) ].

(** [csv.DictWriter(f, fieldnames).writerow(row)] with the defaults
    [extrasaction='raise'] and [restval='']: a key of the row that is no
    field name raises [ValueError] ([None]); a field name that the row
    lacks gives an empty cell. *)
Definition writerow (fieldnames : list str) (row : list (str * str))
    : option (list str) :=
  if forallb (fun item : str * str => str_in item.1 fieldnames) row
  then Some (map (fun f => Comprehensive.dict_get row f []) fieldnames)
  else None.

(** ** More sample data *)


(* ===================================================================== *)
(** * 13. The targeted scraper                                           *)
(* ===================================================================== *)

(** [s.replace(old, new)] for a non-empty [old]: the occurrences of [old]
    are replaced from left to right, without overlap. *)
Fixpoint replace_from (fuel : nat) (old new s : str) : str :=
  match fuel with
  | O => s
  | S fuel' =>
      match s with
      | [] => []
      | c :: t =>
          if startswith old s
          then new ++ replace_from fuel' old new (drop (length old) s)
          else c :: replace_from fuel' old new t
      end
  end.
Definition replace (old new s : str) : str :=
  replace_from (S (length s)) old new s.

(** Tree navigation of [BeautifulSoup], taken as given: for an [href]
    value, [soup.find('a', href=...)] and, when it finds a link, the strings
    of [parent.parent.find_all(string=True)], each followed by a space;
    [None] when the page has no such link. *)
Class PageNav : Type := {
  around_link : soup -> str -> option str
}.

Module Targeted.

Definition base_url : str := py "https://www.hyperpure.com".

(** [clean_text] *)
Definition clean_text (text : str) : str :=
  if negb (truthy text) then []
  else
    let cleaned := sub no_flags (Plus true (Cls isspace)) (py " ")
                       (strip text) in
    replace_c 34 [34%N; 34%N] cleaned.

(** [extract_unit_size]: the four patterns of the comprehensive scraper,
    searched in the same way. *)
Definition extract_unit_size (text : str) : str :=
  if negb (truthy text) then []
  else match Comprehensive.first_search IGNORECASE
               Comprehensive.size_patterns text with
       | Some m => strip (group1 m)
       | None => []
       end.

(** The filter of [extract_products_from_main_page] on an [href]. *)
Definition href_ok (href : str) : bool :=
  startswith (py "/in/") href
  && any_in [py "frozen"; py "pack"; py "gm"; py "kg"; py "pc"] (lower href)
  && (2 <? length (filter (fun c => c = ch "-") href))%nat.

(** [desc_patterns], searched with [re.IGNORECASE | re.DOTALL]. *)
Definition desc_patterns : list regex :=
  [ Seqs [Str (py "premium"); Plus true (Cls isspace);
          Plus true Comprehensive.not_dot; Comprehensive.sentence_end];
    Seqs [Cls isupper; Plus true Comprehensive.not_dot;
          Alt (Alt (Alt (Alt (Seq (Str (py "brownie")) (Opt (Lit (ch "s"))))
                             (Str (py "patty")))
                        (Str (py "sauce")))
                   (Str (py "kebab")))
              (Str (py "wings"));
          Star true Comprehensive.not_dot; Comprehensive.sentence_end];
    Seqs [Str (py "indulge"); Plus true (Cls isspace);
          Plus true Comprehensive.not_dot; Comprehensive.sentence_end];
    Seqs [Str (py "crafted"); Plus true (Cls isspace);
          Plus true Comprehensive.not_dot; Comprehensive.sentence_end] ].

(** [r'ingredients?[:\s]+(.*?)(?:\n|\.|\||$)'] *)
Definition ingredients_re : regex :=
  Seqs [Str (py "ingredient"); Opt (Lit (ch "s"));
        Comprehensive.labelled_tail].

Definition feature_keywords : list str :=
  [py "premium"; py "imported"; py "handcrafted"; py "frozen"; py "fresh";
   py "organic"; py "natural"].

(** The name lines: the title fills an empty name; the heading is used
    only when the name is still empty. *)
Definition name_step (page : soup) (product : Product) : Product :=
  let product :=
    if negb (truthy (product_name product)) then
      match page_title page with
      | Some title_text =>
          set_product_name (clean_text (split_head (py "|") title_text))
                           product
      | None => product
      end
    else product in
  match page_h1 page with
  | Some h1_text =>
      if negb (truthy (product_name product))
      then set_product_name (clean_text h1_text) product
      else product
  | None => product
  end.

(** The description loop: the cleaned text of the first pattern whose
    match is longer than fifty characters once cleaned. *)
Fixpoint description_of (patterns : list regex) (text : str) : option str :=
  match patterns with
  | [] => None
  | r :: rest =>
      match search IGNORECASE_DOTALL r text with
      | Some m =>
          let desc := clean_text (mt_text m) in
          if (50 <? length desc)%nat then Some desc
          else description_of rest text
      | None => description_of rest text
      end
  end.

Definition description_step (page : soup) (product : Product) : Product :=
  match description_of desc_patterns (page_text page) with
  | Some d => set_product_description d product
  | None => product
  end.

Definition price_step (page : soup) (product : Product) : Product :=
  if negb (truthy (price_current product)) then
    let '(c, o, d) := extract_price_info (page_text page) in
    set_discount_percentage d
      (set_price_original o (set_price_current c product))
  else product.

(** The first image served from the assets host under [products]. *)
Fixpoint image_source (images : list img) : option str :=
  match images with
  | [] => None
  | i :: rest =>
      match Comprehensive.attr_or (img_src i) (img_data_src i) with
      | Some src =>
          if truthy src
             && contains (py "assets.hyperpure.com") src
             && contains (py "products") src
          then Some src
          else image_source rest
      | None => image_source rest
      end
  end.

Definition ingredients_step (page : soup) (product : Product) : Product :=
  if contains (py "ingredients") (lower (page_text page)) then
    match search IGNORECASE ingredients_re (page_text page) with
    | Some ingredients_match =>
        set_ingredients (clean_text (group1 ingredients_match)) product
    | None => product
    end
  else product.

(** The keywords found in the page, title-cased, in the order of
    [feature_keywords]. *)
Definition detected_tags (text : str) : list str :=
  map title (filter (fun keyword => contains (lower keyword) (lower text))
               feature_keywords).

Definition tags_step (page : soup) (product : Product) : Product :=
  match detected_tags (page_text page) with
  | [] => product
  | tags => set_tags (join (py ";") tags) product
  end.

Definition unit_size_step (page : soup) (product : Product) : Product :=
  if negb (truthy (unit_size product))
  then set_unit_size (extract_unit_size (page_text page)) product
  else product.

Section WithLibraries.
Context {urls : UrlLib} {order : SetOrder} {nav : PageNav}.

(** The first loop of [extract_products_from_main_page]; [None] when
    [urljoin] raises. *)
Fixpoint collect_links (links : list (str * str))
    : option (list (str * str)) :=
  match links with
  | [] => Some []
  | (href, text) :: rest =>
      if href_ok href then
        full_url ← urljoin base_url href;
        let product_name := clean_text text in
        more ← collect_links rest;
        Some (if truthy product_name && (5 <? length product_name)%nat
              then (product_name, full_url) :: more else more)
      else collect_links rest
  end.

(** The body of the second loop. *)
Definition listing_product (stamp : str) (page : soup) (link : str * str)
    : Product :=
  let '(product_name, product_url) := link in
  let product := new_Product in
  let product := set_scraped_timestamp stamp product in
  let product := set_category (py "Menu Add-ons") product in
  let product := set_product_name product_name product in
  let product := set_product_page_url product_url product in
  let product := set_unit_size (extract_unit_size product_name) product in
  let product :=
    match around_link page (replace base_url [] product_url) with
    | Some surrounding_text =>
        let '(c, o, d) := extract_price_info surrounding_text in
        set_discount_percentage d
          (set_price_original o (set_price_current c product))
    | None => product
    end in
  let product :=
    if contains (py "frozen") (lower product_name)
    then set_packaging_type (py "Frozen") product
    else if contains (py "fresh") (lower product_name)
    then set_packaging_type (py "Fresh") product
    else product in
  set_availability_status (py "In Stock") product.

(** [extract_products_from_main_page]; [None] when [urljoin] raises. *)
Definition extract_products_from_main_page (stamp : str) (page : soup)
    : option (list Product) :=
  product_links ← collect_links (page_links page);
  let product_links := list_of_set product_links in
  Some (map (listing_product stamp page) product_links).

(** The [try] block of [scrape_product_details]; when [urljoin] or
    [urlparse] raises, the [except Exception] clause logs and the product
    is returned with the fields assigned so far. *)
Definition detail_body (page : soup) (product : Product) : Product :=
  let product := name_step page product in
  let product := description_step page product in
  let product := price_step page product in
  let imaged :=
    match image_source (page_imgs page) with
    | Some src =>
        match urljoin base_url src with
        | Some u => Some (set_product_image_url u product)
        | None => None
        end
    | None => Some product
    end in
  match imaged with
  | None => product
  | Some product1 =>
      let product2 := tags_step page (ingredients_step page product1) in
      match urlparse_path (product_page_url product2) with
      | None => product2
      | Some url_path =>
          let product3 :=
            match search no_flags Comprehensive.sku_re url_path with
            | Some sku_match => set_sku_code (group1 sku_match) product2
            | None => product2
            end in
          unit_size_step page product3
      end
  end.

(** [scrape_product_details] *)
Definition scrape_product_details (product : Product)
    : M Product Product :=
  s <- get_state ;;
  if negb (truthy (product_page_url product))
     || bool_decide (product_page_url product ∈ scraped_urls s)
  then ret product
  else
    fetched <- safe_request (product_page_url product) 3 ;;
    match fetched with
    | None => ret product
    | Some page =>
        add_scraped_url (product_page_url product) ;;;
        ret (detail_body page product)
    end.

(** The loop of [scrape_all_products]: every product is appended to
    [self.products] as soon as its details are in. *)
Fixpoint products_loop (main_products : list Product) : M Product unit :=
  match main_products with
  | [] => ret tt
  | product :: rest =>
      detailed_product <- scrape_product_details product ;;
      append_product detailed_product ;;;
      sleep ;;;
      products_loop rest
  end.

(** [scrape_all_products] *)
Definition scrape_all_products : M Product (list Product) :=
  fetched <- safe_request (base_url ++ py "/in/Menu-Addons") 3 ;;
  match fetched with
  | None => ret []
  | Some page =>
      stamp <- now ;;
      match extract_products_from_main_page stamp page with
      | None => raise OtherException
      | Some main_products =>
          products_loop main_products ;;;
          s <- get_state ;;
          ret (products s)
      end
  end.

(** [save_to_csv] *)
Definition save_to_csv (filename : str) : M Product unit :=
  s <- get_state ;;
  match products s with
  | [] => ret tt                                    (* "No products to save" *)
  | _ :: _ =>
      if disk_ok (env s)
      then update_world
             (write_file filename (fieldnames :: map to_row (products s)))
      else ret tt                                   (* except Exception *)
  end.

(** [main] *)
Definition main : M Product unit :=
  try_except
    (products <- scrape_all_products ;;
     match products with
     | [] => ret tt
     | _ :: _ =>
         stamp <- Comprehensive.timestamp ;;
         save_to_csv (py "hyperpure_products_targeted_" ++ stamp
                      ++ py ".csv")
     end)
    (fun _ => true)
    (fun e =>
       match e with
       | KeyboardInterrupt =>
           s <- get_state ;;
           match products s with
           | [] => ret tt
           | _ :: _ =>
               stamp <- Comprehensive.timestamp ;;
               save_to_csv (py "hyperpure_products_targeted_partial_"
                            ++ stamp ++ py ".csv")
           end
       | _ => ret tt
       end).

End WithLibraries.

End Targeted.

(** A page navigation in which the text around a link is the link's own
    text. *)
Definition link_text_nav : PageNav :=
  Build_PageNav
    (fun page href =>
       snd <$> List.find (fun link => str_eqb link.1 href) (page_links page)).

(** The main page of the targeted run, with two product links, and the
    run on it: the product pages follow the main page.  The
    blocking calls are, in order: the sleep and the request for the main
    page (0, 1), the sleep and the request for the first product page
    (2, 3), the pause after the first product has been appended (4), the
    sleep and the request for the second product page (5, 6), the pause
    after it (7). *)
Definition targeted_page : soup :=
  Soup (py "Walnut Brownie 80 gm Pack of 9 Frozen") None None []
       [ (py "/in/walnut-brownie-80-gm-pack-of-9-frozen",
          py "Walnut Brownie 80 gm ₹199 ₹249");
         (py "/in/chicken-seekh-kebab-1-kg-frozen",
          py "Chicken Seekh Kebab 1 kg") ]
       (fun _ => []) false.
Definition targeted_script : list response :=
  [ Fetched targeted_page;
    Fetched (heading_page (py "Walnut Brownie 80 gm Pack of 9")
                          (py "Premium frozen brownie, imported cocoa"));
    Fetched (untitled_page (py "Fresh from the grill")) ].

(** The disk, and what a save depends on, are as they were. *)
Definition same_disk {P} : relation (scraper P) :=
  fun s s' => disk (env s') = disk (env s)
              /\ disk_ok (env s') = disk_ok (env s)
              /\ clock_stamp (env s') = clock_stamp (env s).

(** Requests are paced: between [s] and [s'] at least two blocking calls
    were made for every request sent (the request itself and a pause). *)
Definition paced {P} : relation (scraper P) :=
  fun s s' => (ticks (env s) <= ticks (env s'))%nat
              /\ (requests s <= requests s')%nat
              /\ (2 * (requests s' - requests s)
                  <= ticks (env s') - ticks (env s))%nat.

(* ===================================================================== *)
(** * Part II. Properties                                                *)
(* ===================================================================== *)

(** ** Prices (C1, C2) *)

Lemma findall_group_nil (fl : flags) (r : regex) :
  findall_group fl r [] = [] \/ exists m, findall_group fl r [] = [m].
Proof.
  unfold findall_group, finditer. simpl.
  destruct (match_at fl r None [] 0) as [m|]; [|by left].
  right. destruct (mt_text m), (m_rest (mt_end m)); simpl; eauto.
Qed.

(** When two or more tokens are found, the first two are the current and
    the original price, and the discount is what the [try] block makes of
    them. *)
Lemma extract_price_info_two (text A B : str) (rest : list str) :
  findall_group no_flags price_re text = A :: B :: rest ->
  extract_price_info text
  = (rupee :: A, rupee :: B, discount_text (rupee :: A) (rupee :: B)).
Proof.
  intros Hfind. unfold extract_price_info.
  destruct text as [|c t].
  - destruct (findall_group_nil no_flags price_re) as [H|[m H]];
      rewrite H in Hfind; discriminate.
  - simpl negb. cbv iota. rewrite Hfind. reflexivity.
Qed.

(** [>] and [<=] on floats exclude each other. *)
Lemma float_leb_not_ltb (a b : float) :
  PrimFloat.leb b a = true -> PrimFloat.ltb a b = false.
Proof.
  rewrite FloatAxioms.leb_spec, FloatAxioms.ltb_spec. unfold SFleb, SFltb.
  destruct (Prim2SF a) as [sa|sa| |sa ma ea], (Prim2SF b) as [sb|sb| |sb mb eb];
    simpl; try destruct sa; try destruct sb; try (intros; congruence).
  - rewrite (Z.compare_antisym eb ea).
    change (PosDef.Pos.compare_cont Eq mb ma) with (Pos.compare mb ma).
    change (PosDef.Pos.compare_cont Eq ma mb) with (Pos.compare ma mb).
    rewrite (Pos.compare_antisym mb ma).
    destruct (eb ?= ea)%Z; simpl; try congruence.
    destruct (mb ?= ma)%positive; simpl; congruence.
  - rewrite (Z.compare_antisym eb ea).
    change (PosDef.Pos.compare_cont Eq mb ma) with (Pos.compare mb ma).
    change (PosDef.Pos.compare_cont Eq ma mb) with (Pos.compare ma mb).
    rewrite (Pos.compare_antisym mb ma).
    destruct (eb ?= ea)%Z; simpl; try congruence.
    destruct (mb ?= ma)%positive; simpl; congruence.
Qed.

Lemma round_aux_nonneg (mx ex : Z) (lx : location) :
  nonneg_sf (binary_round_aux prec emax false mx ex lx).
Proof.
  unfold binary_round_aux.
  destruct (shr_fexp prec emax mx ex lx) as [mrs1 e1].
  destruct (shr_fexp prec emax _ e1 loc_Exact) as [mrs2 e2].
  destruct (shr_m mrs2); simpl; auto.
  destruct (e2 <=? emax - prec)%Z; simpl; auto.
Qed.

Lemma round_nonneg (m : positive) (e : Z) :
  nonneg_sf (binary_round prec emax false m e).
Proof.
  unfold binary_round. destruct (shl_align _ _ _) as [mz ez].
  apply round_aux_nonneg.
Qed.

Lemma SF2Prim_nonneg (x : spec_float) :
  nonneg_sf x -> nonneg_sf (Prim2SF (SF2Prim x)).
Proof.
  destruct x as [s|s| |s m e]; simpl; intros Hs; subst; try exact eq_refl.
  - exact I.
  - rewrite Z_ldexp_spec, of_uint63_spec. unfold binary_normalize.
    pose proof (Uint63.to_Z_bounded (Uint63Axioms.of_pos m)) as Hb.
    destruct (Uint63Axioms.to_Z (Uint63Axioms.of_pos m)) as [|p|p];
      simpl.
    + reflexivity.
    + pose proof (round_nonneg p 0) as Hr.
      destruct (binary_round prec emax false p 0) as [s1|s1| |s1 m1 e1];
        simpl in *; auto.
      subst. apply round_nonneg.
    + lia.
Qed.

Lemma float_of_str_nonneg (s : str) (a : float) :
  float_of_str s = Some a -> nonneg_sf (Prim2SF a).
Proof.
  unfold float_of_str. destruct (parse_decimal s) as [[m k]|]; [|discriminate].
  intros [= <-]. unfold nearest_float. destruct m.
  - exact eq_refl.
  - destruct (SFdiv_core_binary _ _ _ _ _ _) as [[q e] l].
    apply SF2Prim_nonneg, round_aux_nonneg.
  - destruct (SFdiv_core_binary _ _ _ _ _ _) as [[q e] l].
    apply SF2Prim_nonneg, round_aux_nonneg.
Qed.

(** What exceeds a number that is not negative is not zero. *)
Lemma float_above_nonneg_nonzero (a b : float) :
  nonneg_sf (Prim2SF a) -> PrimFloat.ltb a b = true ->
  PrimFloat.eqb b PrimFloat.zero = false.
Proof.
  intros Hs Hlt. rewrite FloatAxioms.ltb_spec in Hlt. rewrite FloatAxioms.eqb_spec.
  change (Prim2SF PrimFloat.zero) with (S754_zero false).
  unfold SFltb in Hlt. unfold SFeqb.
  destruct (Prim2SF a) as [sa|sa| |sa ma ea], (Prim2SF b) as [sb|sb| |sb mb eb];
    simpl in *; subst; try destruct sb; congruence.
Qed.

Lemma discount_text_greater (p q : str) (a b : float) :
  amount p = Some a -> amount q = Some b -> PrimFloat.ltb a b = true ->
  discount_text p q = format_1f ((b - a) / b * 100)%float ++ py "%".
Proof.
  intros Ha Hb Hlt. unfold discount_text. rewrite Ha, Hb, Hlt.
  unfold py_div.
  rewrite (float_above_nonneg_nonzero a b); [reflexivity| |exact Hlt].
  exact (float_of_str_nonneg _ _ Ha).
Qed.

Lemma discount_text_not_greater (p q : str) (a b : float) :
  amount p = Some a -> amount q = Some b -> PrimFloat.leb b a = true ->
  discount_text p q = [].
Proof.
  intros Ha Hb Hle. unfold discount_text.
  rewrite Ha, Hb, (float_leb_not_ltb a b Hle). reflexivity.
Qed.



(** C2 as stated fails: with 249 before 199 the original price is not left
    empty, it is the second token. *)
Lemma price_second_not_greater_counterexample :
  ~ (forall (text A B : str) (rest : list str) (a b : float),
       findall_group no_flags price_re text = A :: B :: rest ->
       amount (rupee :: A) = Some a ->
       amount (rupee :: B) = Some b ->
       PrimFloat.leb b a = true ->
       extract_price_info text = (rupee :: A, [], [])).
Proof.
  intros H.
  specialize (H (py "₹249 ... ₹199") (py "249") (py "199") [] 249 199)%float.
  assert (E : extract_price_info (py "₹249 ... ₹199")
              = (py "₹249", py "₹199", [])) by (vm_compute; reflexivity).
  rewrite E in H.
  assert (F : (py "₹249", py "₹199", @nil N) = (rupee :: py "249", [], []))
    by (apply H; vm_compute; reflexivity).
  vm_compute in F. discriminate F.
Qed.

(** C2, amended. When the second token does not exceed the first, the
    first token is the current price, the second token is still recorded as
    the original price, and the discount is left empty. *)
Theorem price_second_not_greater
    (text A B : str) (rest : list str) (a b : float) :
  findall_group no_flags price_re text = A :: B :: rest ->
  amount (rupee :: A) = Some a ->
  amount (rupee :: B) = Some b ->
  PrimFloat.leb b a = true ->
  extract_price_info text = (rupee :: A, rupee :: B, []).
Proof.
  intros Hfind Ha Hb Hle.
  rewrite (extract_price_info_two text A B rest Hfind).
  rewrite (discount_text_not_greater _ _ a b Ha Hb Hle). reflexivity.
Qed.

Lemma price_second_not_greater_witness :
  extract_price_info (py "₹249 ... ₹199") = (py "₹249", py "₹199", []).
Proof.
  apply (price_second_not_greater
           (py "₹249 ... ₹199") (py "249") (py "199") [] 249 199);
    vm_compute; reflexivity.
Defined.

(** The function of the PERFECT scraper follows the same rule on the two
    first distinct prices it collects: the second is recorded as the original
    price in both cases, and the discount is computed only when it is the
    greater one. *)
Lemma perfect_price_rule
    (text p q : str) (rest : list str) (a b : float) :
  Perfect.unique_from ∅ (Perfect.all_prices text) = p :: q :: rest ->
  Perfect.amount p = Some a ->
  Perfect.amount q = Some b ->
  (PrimFloat.ltb a b = true ->
   Perfect.extract_perfect_price_info text
   = (p, q, format_1f ((b - a) / b * 100)%float ++ py "%"))
  /\ (PrimFloat.leb b a = true ->
      Perfect.extract_perfect_price_info text = (p, q, [])).
Proof.
  intros Hu Ha Hb. unfold Perfect.extract_perfect_price_info.
  rewrite Hu. unfold Perfect.discount_text. rewrite Ha, Hb. split.
  - intros Hlt. rewrite Hlt. unfold py_div.
    rewrite (float_above_nonneg_nonzero a b); [reflexivity| |exact Hlt].
    exact (float_of_str_nonneg _ _ Ha).
  - intros Hle. rewrite (float_leb_not_ltb a b Hle). reflexivity.
Qed.

(** What the PERFECT scraper takes for a price: an amount after [Rs], or
    next to the glyph in the spelling of its own source file.  A text that
    writes the rupee sign U+20B9 holds no price for it. *)
Lemma perfect_price_spellings :
  Perfect.extract_perfect_price_info (py "Rs. 199 ... Rs. 249")
  = (Perfect.glyph ++ py "199", Perfect.glyph ++ py "249", py "20.1%")
  /\ Perfect.extract_perfect_price_info
       (Perfect.glyph ++ py "199 ... " ++ Perfect.glyph ++ py "249")
     = (Perfect.glyph ++ py "199", Perfect.glyph ++ py "249", py "20.1%")
  /\ Perfect.extract_perfect_price_info (py "₹199 ... ₹249") = ([], [], []).
Proof. vm_compute. repeat split. Qed.

(** ** The two cases cover every text with two prices *)

(** What the matcher reads is a word of the pattern. *)
Lemma m_re_lang (fl : flags) (r : regex) :
  forall (st : mstate) (k : mstate -> option mstate) (x : mstate),
    m_re fl r st k = Some x ->
    exists st' w, k st' = Some x
                  /\ m_rest st = w ++ m_rest st' /\ lang fl r w.
Proof.
  induction r as [|c|p|p| |a IHa b IHb|a IHa b IHb|g a IHa|a IHa|a IHa| |];
    intros st k x H; simpl in H.
  - exists st, []. repeat split; assumption.
  - unfold step_char in H. destruct (m_rest st) as [|y t] eqn:E; [discriminate|].
    destruct (lit_ok fl c y) eqn:Hy; [|discriminate].
    exists (advance y t st), [y]. repeat split; simpl; eauto.
  - unfold step_char in H. destruct (m_rest st) as [|y t] eqn:E; [discriminate|].
    destruct (cls_ok fl p y) eqn:Hy; [|discriminate].
    exists (advance y t st), [y]. repeat split; simpl; eauto.
  - unfold step_char in H. destruct (m_rest st) as [|y t] eqn:E; [discriminate|].
    destruct (cls_ok fl p y) eqn:Hy; [discriminate|].
    exists (advance y t st), [y]. repeat split; simpl; eauto.
  - unfold step_char in H. destruct (m_rest st) as [|y t] eqn:E; [discriminate|].
    destruct (dot_ok fl y) eqn:Hy; [|discriminate].
    exists (advance y t st), [y]. repeat split; simpl; eauto.
  - destruct (IHa _ _ _ H) as (st1 & u & H1 & E1 & L1).
    destruct (IHb _ _ _ H1) as (st2 & v & H2 & E2 & L2).
    exists st2, (u ++ v). split; [exact H2|]. split.
    + rewrite E1, E2, app_assoc. reflexivity.
    + simpl. eauto.
  - destruct (m_re fl a st k) as [y|] eqn:E.
    + injection H as ->. destruct (IHa _ _ _ E) as (st1 & u & H1 & E1 & L1).
      exists st1, u. repeat split; simpl; auto.
    + destruct (IHb _ _ _ H) as (st1 & u & H1 & E1 & L1).
      exists st1, u. repeat split; simpl; auto.
  - revert H. generalize (length (m_rest st)) at 1. intros n. revert st.
    induction n as [|n IHn]; intros st H.
    + exists st, []. split; [exact H|]. split; [reflexivity|].
      exists []. split; [reflexivity|constructor].
    + destruct g.
      * destruct (m_re fl a st _) as [y|] eqn:E.
        -- injection H as ->.
           destruct (IHa _ _ _ E) as (st1 & u & H1 & E1 & L1).
           destruct (length (m_rest st1) <? length (m_rest st))%nat;
             [|discriminate].
           destruct (IHn _ H1) as (st2 & v & H2 & E2 & ws & -> & Hws).
           exists st2, (u ++ concat ws). split; [exact H2|]. split.
           ++ rewrite E1, E2, app_assoc. reflexivity.
           ++ exists (u :: ws). split; [reflexivity|constructor; assumption].
        -- exists st, []. split; [exact H|]. split; [reflexivity|].
           exists []. split; [reflexivity|constructor].
      * destruct (k st) as [y|] eqn:E.
        -- injection H as ->. exists st, [].
           split; [exact E|]. split; [reflexivity|].
           exists []. split; [reflexivity|constructor].
        -- destruct (IHa _ _ _ H) as (st1 & u & H1 & E1 & L1).
           destruct (length (m_rest st1) <? length (m_rest st))%nat;
             [|discriminate].
           destruct (IHn _ H1) as (st2 & v & H2 & E2 & ws & -> & Hws).
           exists st2, (u ++ concat ws). split; [exact H2|]. split.
           ++ rewrite E1, E2, app_assoc. reflexivity.
           ++ exists (u :: ws). split; [reflexivity|constructor; assumption].
  - destruct (IHa _ _ _ H) as (st1 & u & H1 & E1 & L1).
    exists (close_group st st1), u. repeat split; simpl; auto.
  - destruct (m_re fl a st Some); [|discriminate].
    exists st, []. repeat split; assumption.
  - destruct (at_eos st); [|discriminate]. exists st, []. repeat split; assumption.
  - destruct (at_wordb st); [|discriminate]. exists st, []. repeat split; assumption.
Qed.

(** Matches found by a scan are matches of the pattern at some position. *)
Lemma search_from_match_at (fl : flags) (r : regex) :
  forall (s : str) (prev : option N) (i : nat) (m : rmatch),
    search_from fl r prev s i = Some m ->
    exists prev' s' i', match_at fl r prev' s' i' = Some m.
Proof.
  induction s as [|c t IH]; intros prev i m H; simpl in H.
  - destruct (match_at fl r prev [] i) eqn:E; [|discriminate].
    injection H as ->. eauto.
  - destruct (match_at fl r prev (c :: t) i) eqn:E.
    + injection H as ->. eauto.
    + eapply IH. exact H.
Qed.

Lemma matches_from_match_at (fl : flags) (r : regex) :
  forall (n : nat) (prev : option N) (s : str) (m : rmatch),
    m ∈ matches_from n fl r prev s ->
    exists prev' s' i', match_at fl r prev' s' i' = Some m.
Proof.
  induction n as [|n IH]; intros prev s m H; simpl in H.
  - apply elem_of_nil in H. contradiction.
  - destruct (search_from fl r prev s 0) as [m0|] eqn:E;
      [|apply elem_of_nil in H; contradiction].
    apply elem_of_cons in H. destruct H as [->|H].
    + eapply search_from_match_at. exact E.
    + destruct (mt_text m0), (m_rest (mt_end m0));
        try (apply elem_of_nil in H; contradiction);
        eapply IH; exact H.
Qed.

Lemma consumed_app (prev prev' : option N) (w rest : str) (c c' : option str) :
  consumed (MState prev (w ++ rest) c) (MState prev' rest c') = w.
Proof.
  unfold consumed. simpl. rewrite length_app.
  replace (length w + length rest - length rest)%nat with (length w) by lia.
  apply take_app_length.
Qed.

(** The text of the group of [c(...)] is a word of the group's pattern. *)
Lemma prefixed_group_capture (fl : flags) (c : N) (a : regex)
    (prev : option N) (s : str) (i : nat) (m : rmatch) :
  match_at fl (Seq (Lit c) (Grp a)) prev s i = Some m ->
  exists w, mt_group1 m = Some w /\ lang fl a w.
Proof.
  unfold match_at. simpl. unfold step_char. simpl.
  destruct s as [|x t]; [discriminate|].
  destruct (lit_ok fl c x); [|discriminate].
  destruct (m_re fl a _ _) as [st1|] eqn:E; [|discriminate].
  intros [= <-]. simpl.
  destruct (m_re_lang fl a _ _ _ E) as (st' & w & [= <-] & Hrest & Hw).
  exists w. split; [|exact Hw]. simpl. f_equal.
  simpl in Hrest. destruct st' as [p' r' c']. simpl in *. subst t.
  apply consumed_app.
Qed.

Lemma findall_group_lang (fl : flags) (c : N) (a : regex) (s A : str) :
  A ∈ findall_group fl (Seq (Lit c) (Grp a)) s -> lang fl a A.
Proof.
  unfold findall_group, finditer. intros H.
  apply list_elem_of_In, in_map_iff in H. destruct H as (m & <- & Hm).
  apply list_elem_of_In in Hm.
  apply matches_from_match_at in Hm. destruct Hm as (prev' & s' & i' & Hm).
  apply prefixed_group_capture in Hm. destruct Hm as (w & Hg & Hw).
  unfold group1. rewrite Hg. exact Hw.
Qed.

(** ** Deleting the characters of a class *)

Lemma search_from_class_nil (fl : flags) (p : N -> bool) prev i :
  search_from fl (Cls p) prev [] i = None.
Proof. reflexivity. Qed.

Lemma search_from_class_cons (fl : flags) (p : N -> bool) prev x t i :
  search_from fl (Cls p) prev (x :: t) i
  = if cls_ok fl p x
    then Some (RMatch i [x] None (MState (Some x) t None))
    else search_from fl (Cls p) (Some x) t (S i).
Proof.
  simpl. unfold match_at. simpl. unfold step_char. simpl.
  destruct (cls_ok fl p x); [|reflexivity].
  unfold advance. simpl. do 2 f_equal.
  exact (consumed_app prev (Some x) [x] t None None).
Qed.

Lemma search_from_class (fl : flags) (p : N -> bool) :
  forall (s : str) (prev : option N) (i : nat),
    match search_from fl (Cls p) prev s i with
    | None => List.filter (fun c => negb (cls_ok fl p c)) s = s
    | Some m =>
        exists pre x t,
          s = pre ++ x :: t
          /\ List.filter (fun c => negb (cls_ok fl p c)) pre = pre
          /\ cls_ok fl p x = true
          /\ m = RMatch (i + length pre) [x] None (MState (Some x) t None)
    end.
Proof.
  induction s as [|x t IH]; intros prev i.
  - reflexivity.
  - rewrite search_from_class_cons.
    destruct (cls_ok fl p x) eqn:Hx.
    + exists [], x, t. simpl. rewrite Nat.add_0_r. auto.
    + specialize (IH (Some x) (S i)).
      destruct (search_from fl (Cls p) (Some x) t (S i)) as [m|].
      * destruct IH as (pre & y & t' & -> & Hpre & Hy & ->).
        exists (x :: pre), y, t'. simpl. rewrite Hx. simpl. rewrite Hpre.
        repeat split; auto. do 2 f_equal. lia.
      * simpl. rewrite Hx. simpl. rewrite IH. reflexivity.
Qed.

Lemma sub_from_class (fl : flags) (p : N -> bool) :
  forall (n : nat) (s : str) (prev : option N),
    (length s < n)%nat ->
    sub_from n fl (Cls p) [] prev s
    = List.filter (fun c => negb (cls_ok fl p c)) s.
Proof.
  induction n as [|n IH]; intros s prev Hn; [lia|].
  simpl. pose proof (search_from_class fl p s prev 0) as H.
  destruct (search_from fl (Cls p) prev s 0) as [m|].
  - destruct H as (pre & x & t & -> & Hpre & Hx & ->). simpl.
    rewrite take_app_length. rewrite List.filter_app. simpl.
    rewrite Hx. simpl. rewrite Hpre. f_equal.
    apply IH. rewrite length_app in Hn. simpl in Hn. lia.
  - symmetry. exact H.
Qed.

(** [re.sub('[...]', '', s)] deletes the characters of the class. *)
Lemma sub_class (p : N -> bool) (s : str) :
  sub no_flags (Cls p) [] s = List.filter (fun c => negb (p c)) s.
Proof.
  unfold sub. rewrite sub_from_class; [|lia].
  apply List.filter_ext. intros c. unfold cls_ok. simpl.
  rewrite orb_false_r. reflexivity.
Qed.

(** ** The price tokens are numerals *)

Lemma keep_amount_digit (c : N) : isdigit c = true -> keep_amount c = true.
Proof.
  unfold isdigit, in_range, keep_amount, rupee.
  change (ch ",") with 44%N.
  intros [H1 H2]%andb_true_iff. apply N.leb_le in H1, H2.
  apply negb_true_iff, orb_false_iff.
  split; apply N.eqb_neq; lia.
Qed.

Lemma filter_digits (w : str) :
  forallb isdigit w = true -> List.filter keep_amount w = w.
Proof.
  induction w as [|c t IH]; [reflexivity|]. simpl.
  intros [Hc Ht]%andb_true_iff.
  rewrite (keep_amount_digit c Hc), (IH Ht). reflexivity.
Qed.

Lemma lang_digits1 (w : str) :
  lang no_flags digits1 w -> w <> [] /\ forallb isdigit w = true.
Proof.
  simpl. intros (u & v & -> & (x & -> & Hx) & ws & -> & Hws).
  unfold cls_ok in Hx. simpl in Hx. rewrite orb_false_r in Hx.
  split; [discriminate|]. simpl. rewrite Hx. simpl.
  induction Hws as [|w ws Hw _ IH]; [reflexivity|].
  destruct Hw as (y & -> & Hy).
  unfold cls_ok in Hy. simpl in Hy. rewrite orb_false_r in Hy.
  simpl. rewrite Hy. exact IH.
Qed.

Lemma lit_ok_plain (c x : N) : lit_ok no_flags c x = true -> x = c.
Proof.
  unfold lit_ok. simpl. rewrite orb_false_r. apply N.eqb_eq.
Qed.

Lemma lang_comma_groups (w : str) :
  lang no_flags (Star true (Seq (Lit (ch ",")) digits1)) w ->
  forallb isdigit (List.filter keep_amount w) = true.
Proof.
  intros (ws & -> & Hws).
  induction Hws as [|w ws Hw _ IH]; [reflexivity|].
  destruct Hw as (u & v & -> & (x & -> & Hx) & Hv).
  apply lit_ok_plain in Hx. subst x.
  apply lang_digits1 in Hv. destruct Hv as [_ Hv].
  change (concat (([ch ","] ++ v) :: ws))
    with ([ch ","] ++ (v ++ concat ws)).
  rewrite !List.filter_app.
  change (List.filter keep_amount [ch ","]) with (@nil N).
  rewrite app_nil_l, forallb_app, IH, andb_true_r.
  rewrite (filter_digits v Hv). exact Hv.
Qed.

Lemma lang_fraction (f : str) :
  lang no_flags (Opt (Seq (Lit (ch ".")) digits1)) f ->
  f = [] \/ exists fp, f = 46%N :: fp /\ forallb isdigit fp = true.
Proof.
  intros [(u & v & -> & (x & -> & Hx) & Hv)| ->]; [right|left; reflexivity].
  apply lit_ok_plain in Hx. subst x.
  apply lang_digits1 in Hv. destruct Hv as [_ Hv].
  exists v. split; [reflexivity|exact Hv].
Qed.

Lemma takewhile_digit_app (D f : str) :
  forallb isdigit D = true ->
  (f = [] \/ exists fp, f = 46%N :: fp) ->
  takewhile_digit (D ++ f) = D.
Proof.
  intros HD Hf. induction D as [|c t IH]; simpl.
  - destruct Hf as [->|(fp & ->)]; reflexivity.
  - simpl in HD. apply andb_true_iff in HD. destruct HD as [Hc Ht].
    rewrite Hc, (IH Ht). reflexivity.
Qed.

(** A numeral made of digits, with or without a fraction, is read by
    [float]. *)
Lemma float_of_str_numeral (D f : str) :
  D <> [] -> forallb isdigit D = true ->
  (f = [] \/ exists fp, f = 46%N :: fp /\ forallb isdigit fp = true) ->
  is_Some (float_of_str (D ++ f)).
Proof.
  intros Hne HD Hf. unfold float_of_str, parse_decimal.
  rewrite takewhile_digit_app;
    [|exact HD|destruct Hf as [->|(fp & -> & _)]; eauto].
  rewrite drop_app_length.
  assert (HT : truthy D = true) by (destruct D; [contradiction|reflexivity]).
  destruct Hf as [->|(fp & -> & Hfp)].
  - rewrite HT. eauto.
  - rewrite Hfp, HT. simpl. eauto.
Qed.

(** What is left of a price once the rupee sign and the commas are
    removed. *)
Lemma strip_currency_amount (A : str) :
  lang no_flags amount_re A ->
  exists D f,
    strip_currency (rupee :: A) = D ++ f
    /\ D <> [] /\ forallb isdigit D = true
    /\ (f = [] \/ exists fp, f = 46%N :: fp /\ forallb isdigit fp = true).
Proof.
  intros (d & rest & -> & Hd & cs & f & -> & Hcs & Hf).
  apply lang_digits1 in Hd. destruct Hd as [Hne Hd].
  pose proof (lang_comma_groups cs Hcs) as Hcs'.
  apply lang_fraction in Hf.
  exists (d ++ List.filter keep_amount cs), f.
  split; [|split; [|split]].
  - unfold strip_currency. rewrite sub_class.
    change (fun c : N => negb ((c =? rupee)%N || (c =? ch ",")%N))
      with keep_amount.
    change (List.filter keep_amount (rupee :: d ++ cs ++ f))
      with (List.filter keep_amount (d ++ cs ++ f)).
    rewrite !List.filter_app, (filter_digits d Hd), <- app_assoc.
    do 2 f_equal.
    destruct Hf as [->|(fp & -> & Hfp)]; [reflexivity|].
    change (List.filter keep_amount (46%N :: fp))
      with (46%N :: List.filter keep_amount fp).
    rewrite (filter_digits fp Hfp). reflexivity.
  - destruct d; [contradiction|discriminate].
  - rewrite forallb_app, Hd, Hcs'. reflexivity.
  - exact Hf.
Qed.

(** Every token that [price_pattern] finds in a text is a numeral that
    [float] reads: the [ValueError] branch of the [try] block is never
    taken for the prices of [extract_price_info]. *)
Lemma price_tokens_have_amounts (text A : str) :
  A ∈ findall_group no_flags price_re text ->
  is_Some (amount (rupee :: A)).
Proof.
  intros H. apply findall_group_lang in H.
  destruct (strip_currency_amount A H) as (D & f & E & Hne & HD & Hf).
  unfold amount. rewrite E. apply float_of_str_numeral; assumption.
Qed.

(** ** The amounts are ordered *)

Lemma shr_1_nonneg (mrs : shr_record) :
  (0 <= shr_m mrs)%Z -> (0 <= shr_m (shr_1 mrs))%Z.
Proof.
  destruct mrs as [m r s]. simpl. intros H.
  destruct m as [|p|p]; [simpl; lia| |lia].
  destruct p; simpl; lia.
Qed.

Lemma iter_shr_1_nonneg (p : positive) (mrs : shr_record) :
  (0 <= shr_m mrs)%Z -> (0 <= shr_m (SpecFloat.iter_pos shr_1 p mrs))%Z.
Proof.
  revert mrs. induction p as [p IH|p IH|]; intros mrs H; simpl.
  - apply IH, IH, shr_1_nonneg, H.
  - apply IH, IH, H.
  - apply shr_1_nonneg, H.
Qed.

Lemma shr_fexp_nonneg (m e : Z) (l : location) :
  (0 <= m)%Z -> (0 <= shr_m (shr_fexp prec emax m e l).1)%Z.
Proof.
  intros H. unfold shr_fexp, shr.
  assert (H0 : (0 <= shr_m (shr_record_of_loc m l))%Z).
  { unfold shr_record_of_loc. destruct l as [|[| |]]; exact H. }
  destruct (_ - e)%Z; simpl; auto using iter_shr_1_nonneg.
Qed.

Lemma round_nearest_even_nonneg (m : Z) (l : location) :
  (0 <= m)%Z -> (0 <= round_nearest_even m l)%Z.
Proof.
  intros H. unfold round_nearest_even.
  destruct l as [|[| |]]; try destruct (Z.even m); lia.
Qed.

Lemma round_aux_number (mx ex : Z) (lx : location) :
  (0 <= mx)%Z -> number_sf (binary_round_aux prec emax false mx ex lx).
Proof.
  intros H. unfold binary_round_aux.
  pose proof (shr_fexp_nonneg mx ex lx H) as H1.
  destruct (shr_fexp prec emax mx ex lx) as [mrs1 e1]. simpl in H1.
  pose proof (shr_fexp_nonneg _ e1 loc_Exact
                (round_nearest_even_nonneg _ (loc_of_shr_record mrs1) H1))
    as H2.
  destruct (shr_fexp prec emax _ e1 loc_Exact) as [mrs2 e2]. simpl in H2.
  destruct (shr_m mrs2); [exact I| |lia].
  destruct (e2 <=? emax - prec)%Z; exact I.
Qed.

Lemma round_number (m : positive) (e : Z) :
  number_sf (binary_round prec emax false m e).
Proof.
  unfold binary_round. destruct (shl_align _ _ _) as [mz ez].
  apply round_aux_number. lia.
Qed.

Lemma SF2Prim_number (x : spec_float) :
  nonneg_sf x -> number_sf x -> number_sf (Prim2SF (SF2Prim x)).
Proof.
  destruct x as [s|s| |s m e]; simpl; intros Hs Hn; subst; try exact I.
  - contradiction.
  - rewrite Z_ldexp_spec, of_uint63_spec. unfold binary_normalize.
    pose proof (Uint63.to_Z_bounded (Uint63Axioms.of_pos m)) as Hb.
    destruct (Uint63Axioms.to_Z (Uint63Axioms.of_pos m)) as [|p|p];
      simpl.
    + exact I.
    + pose proof (round_nonneg p 0) as Hr.
      pose proof (round_number p 0) as Hr'.
      destruct (binary_round prec emax false p 0) as [s1|s1| |s1 m1 e1];
        simpl in *; auto.
      subst. apply round_number.
    + lia.
Qed.

Lemma digits_val_nonneg (ds : str) :
  forallb isdigit ds = true -> (0 <= digits_val ds)%Z.
Proof.
  unfold digits_val. intros H.
  assert (G : forall acc, (0 <= acc)%Z ->
              (0 <= fold_left (fun acc c => 10 * acc + digit_val c) ds acc)%Z).
  { induction ds as [|c t IH]; intros acc Hacc; simpl; [exact Hacc|].
    simpl in H. apply andb_true_iff in H. destruct H as [Hc Ht].
    apply (IH Ht). unfold isdigit, in_range in Hc.
    apply andb_true_iff in Hc. destruct Hc as [H1 H2].
    apply N.leb_le in H1. unfold digit_val. lia. }
  apply G. lia.
Qed.

Lemma takewhile_digit_digits (s : str) :
  forallb isdigit (takewhile_digit s) = true.
Proof.
  induction s as [|c t IH]; [reflexivity|]. simpl.
  destruct (isdigit c) eqn:E; [|reflexivity]. simpl. rewrite E. exact IH.
Qed.

Lemma parse_decimal_nonneg (s : str) (m : Z) (k : nat) :
  parse_decimal s = Some (m, k) -> (0 <= m)%Z.
Proof.
  unfold parse_decimal.
  pose proof (takewhile_digit_digits s) as Hip.
  destruct (drop _ s) as [|c fp].
  - destruct (truthy _); [|discriminate]. intros [= <- _].
    apply digits_val_nonneg, Hip.
  - destruct (c =? 46)%N; [|discriminate].
    destruct (forallb isdigit fp) eqn:Hfp; [|discriminate].
    destruct (_ || _); [|discriminate]. intros [= <- _].
    apply digits_val_nonneg. rewrite forallb_app, Hip, Hfp. reflexivity.
Qed.

Lemma nearest_float_number (m : Z) (k : nat) :
  (0 <= m)%Z -> number_sf (Prim2SF (nearest_float m k)).
Proof.
  intros Hm. unfold nearest_float. destruct m as [|p|p]; [exact I| |lia].
  unfold SFdiv_core_binary.
  set (e' := Z.min _ _). set (m' := match (0 - 0 - e')%Z with
                                   | Z0 => Z.pos p
                                   | Z.pos _ => Z.shiftl (Z.pos p) (0 - 0 - e')
                                   | Z.neg _ => 0%Z end).
  assert (Hm' : (0 <= m')%Z).
  { subst m'. destruct (0 - 0 - e')%Z eqn:E; try lia.
    apply Z.shiftl_nonneg. lia. }
  assert (Hq : (0 <= m' / 10 ^ Z.of_nat k)%Z)
    by (apply Z.div_pos; [exact Hm'|apply Z.pow_pos_nonneg; lia]).
  unfold Z.div in Hq.
  destruct (Z.div_eucl m' (10 ^ Z.of_nat k)) as [q r].
  apply SF2Prim_number; [apply round_aux_nonneg|apply round_aux_number, Hq].
Qed.

Lemma float_of_str_number (s : str) (a : float) :
  float_of_str s = Some a -> number_sf (Prim2SF a).
Proof.
  unfold float_of_str. destruct (parse_decimal s) as [[m k]|] eqn:E;
    [|discriminate].
  intros [= <-]. apply nearest_float_number.
  exact (parse_decimal_nonneg s m k E).
Qed.

(** Two numbers compare one way or the other. *)
Lemma float_ltb_or_leb (a b : float) :
  number_sf (Prim2SF a) -> number_sf (Prim2SF b) ->
  PrimFloat.ltb a b = true \/ PrimFloat.leb b a = true.
Proof.
  rewrite FloatAxioms.leb_spec, FloatAxioms.ltb_spec. unfold SFleb, SFltb.
  destruct (Prim2SF a) as [sa|sa| |sa ma ea], (Prim2SF b) as [sb|sb| |sb mb eb];
    simpl; try contradiction; intros _ _;
    try destruct sa; try destruct sb; auto.
  all: try (rewrite (Z.compare_antisym eb ea);
            change (PosDef.Pos.compare_cont Eq mb ma) with (Pos.compare mb ma);
            change (PosDef.Pos.compare_cont Eq ma mb) with (Pos.compare ma mb);
            rewrite (Pos.compare_antisym mb ma);
            destruct (eb ?= ea)%Z; simpl;
            destruct (mb ?= ma)%positive; simpl; auto).
Qed.

(** The first two price tokens of a text always stand for two numbers, and
    the second either exceeds the first or does not: one of the two cases
    above applies. *)
Lemma two_prices_cases (text A B : str) (rest : list str) :
  findall_group no_flags price_re text = A :: B :: rest ->
  exists a b,
    amount (rupee :: A) = Some a /\ amount (rupee :: B) = Some b
    /\ (PrimFloat.ltb a b = true \/ PrimFloat.leb b a = true).
Proof.
  intros Hfind.
  destruct (price_tokens_have_amounts text A) as [a Ha];
    [rewrite Hfind; apply list_elem_of_here|].
  destruct (price_tokens_have_amounts text B) as [b Hb];
    [rewrite Hfind; apply list_elem_of_further, list_elem_of_here|].
  exists a, b. split; [exact Ha|]. split; [exact Hb|].
  apply float_ltb_or_leb; eapply float_of_str_number; eassumption.
Qed.

(** ** The fetch with retries (C3) *)

Section Fetch.
Context {P : Type}.
Implicit Types (s : scraper P) (url : str).

Lemma sleep_quiet s : quiet s -> sleep s = (Ret tt, ticked s).
Proof.
  unfold quiet, sleep, blocking, bind, get_state, update_world, ret, raise.
  simpl. intros ->. rewrite bool_decide_eq_false_2; [reflexivity|discriminate].
Qed.

Lemma http_get_quiet url s :
  quiet s ->
  http_get url s
  = (match net (env s) (requests s) with
     | Fetched page => Ret page
     | RequestFailed => Raise RequestException
     | Crashed => Raise OtherException
     end, requested url s).
Proof.
  unfold quiet, http_get, blocking, bind, get_state, update_world, ret, raise,
    requests, requested.
  simpl. intros ->. rewrite bool_decide_eq_false_2 by discriminate. simpl.
  destruct (net (env s) (length (sent (env s)))); reflexivity.
Qed.

Lemma quiet_ticked s : quiet s -> quiet (ticked s).
Proof. exact id. Qed.
Lemma quiet_requested url s : quiet s -> quiet (requested url s).
Proof. exact id. Qed.

(** A blocking call sends nothing; a request sends at most once. *)
Lemma blocking_requests s : requests (blocking s).2 = requests s.
Proof.
  unfold blocking, bind, get_state, update_world, ret, raise, requests. simpl.
  destruct (bool_decide _); reflexivity.
Qed.

Lemma http_get_requests url s :
  (requests (http_get url s).2 <= S (requests s))%nat.
Proof.
  unfold http_get, blocking, bind, get_state, update_world, ret, raise,
    requests. simpl.
  destruct (bool_decide _); simpl; [lia|].
  destruct (net _ _); simpl; lia.
Qed.

(** One round of the loop sends at most one request. *)
Lemma attempt_requests (handled : exn -> bool) url (last : bool) s :
  (requests
     (try_except
        (sleep ;;; page <- http_get url ;; ret (inl (Some page)))
        handled
        (fun _ => if last then ret (inl None)
                  else sleep ;;; ret (@inr (option soup) unit tt)) s).2
   <= S (requests s))%nat.
Proof.
  unfold try_except, bind at 1, sleep.
  pose proof (blocking_requests s) as Hb.
  destruct (blocking s) as [[[]|e] s1]; simpl in *.
  - unfold bind at 1. pose proof (http_get_requests url s1) as Hg.
    destruct (http_get url s1) as [[page|e] s2]; simpl in *.
    + lia.
    + destruct (handled e); simpl; [|lia].
      destruct last; simpl; [lia|].
      unfold bind. pose proof (blocking_requests s2) as Hb2.
      destruct (blocking s2) as [[[]|e2] s3]; simpl in *; lia.
  - destruct (handled e); simpl; [|lia].
    destruct last; simpl; [lia|].
    unfold bind. pose proof (blocking_requests s1) as Hb2.
    destruct (blocking s1) as [[[]|e2] s3]; simpl in *; lia.
Qed.

Lemma safe_request_loop_bound (handled : exn -> bool) url (max_retries : Z)
    (attempts : list Z) s :
  (requests (safe_request_loop handled url max_retries attempts s).2
   <= requests s + length attempts)%nat.
Proof.
  revert s. induction attempts as [|attempt rest IH]; intros s; simpl.
  - lia.
  - unfold bind at 1.
    pose proof (attempt_requests handled url (attempt =? max_retries - 1)%Z s)
      as Ha.
    destruct (try_except _ _ _ s) as [[[result|[]]|e] s1]; simpl in *.
    + lia.
    + specialize (IH s1). lia.
    + lia.
Qed.

Lemma sends_refl url s : sends 0 url s s.
Proof. repeat split. Qed.

Lemma sends_trans url (n m : nat) s s1 s2 :
  sends n url s s1 -> sends m url s1 s2 -> sends (n + m) url s s2.
Proof.
  intros (A1 & A2 & A3 & A4 & A5 & A6) (B1 & B2 & B3 & B4 & B5 & B6).
  repeat split; try congruence.
  rewrite B6, A6, Nat.add_comm, replicate_add, <- app_assoc. reflexivity.
Qed.

Lemma sends_quiet url n s s' : sends n url s s' -> quiet s -> quiet s'.
Proof. intros (_ & _ & _ & A4 & _) Hq. unfold quiet in *. congruence. Qed.

Lemma sends_requests url n s s' :
  sends n url s s' -> requests s' = (n + requests s)%nat.
Proof.
  intros (_ & _ & _ & _ & _ & A6). unfold requests.
  rewrite A6, length_app, length_replicate. reflexivity.
Qed.

Lemma sends_net url n s s' :
  sends n url s s' -> net (env s') = net (env s).
Proof. intros (_ & _ & A3 & _). exact A3. Qed.

(** A round whose request succeeds returns the page. *)
Lemma attempt_fetched (handled : exn -> bool) url (last : bool) s page :
  quiet s -> net (env s) (requests s) = Fetched page ->
  try_except
    (sleep ;;; page <- http_get url ;; ret (inl (Some page)))
    handled
    (fun _ => if last then ret (inl None)
              else sleep ;;; ret (@inr (option soup) unit tt)) s
  = (Ret (inl (Some page)), requested url (ticked s))
  /\ sends 1 url s (requested url (ticked s)).
Proof.
  intros Hq Hnet. split; [|repeat split].
  unfold try_except, bind. rewrite (sleep_quiet s Hq).
  rewrite (http_get_quiet url (ticked s) (quiet_ticked s Hq)).
  change (requests (ticked s)) with (requests s).
  change (net (env (ticked s))) with (net (env s)). rewrite Hnet. reflexivity.
Qed.

(** A round whose request fails with a handled exception: the last round
    returns [None], any other sleeps and goes on. *)
Lemma attempt_failed (handled : exn -> bool) url (last : bool) s :
  quiet s -> net (env s) (requests s) = RequestFailed ->
  handled RequestException = true ->
  exists s1,
    try_except
      (sleep ;;; page <- http_get url ;; ret (inl (Some page)))
      handled
      (fun _ => if last then ret (inl None)
                else sleep ;;; ret (@inr (option soup) unit tt)) s
    = (Ret (if last then inl None else inr tt), s1)
    /\ sends 1 url s s1.
Proof.
  intros Hq Hnet Hh.
  exists (if last then requested url (ticked s)
          else ticked (requested url (ticked s))).
  split; [|destruct last; repeat split].
  unfold try_except, bind. rewrite (sleep_quiet s Hq).
  rewrite (http_get_quiet url (ticked s) (quiet_ticked s Hq)).
  change (requests (ticked s)) with (requests s).
  change (net (env (ticked s))) with (net (env s)). rewrite Hnet, Hh.
  destruct last; [reflexivity|].
  rewrite sleep_quiet by exact Hq. reflexivity.
Qed.

(** Attempt [k] (counted from 0) is the first to succeed. *)
Lemma safe_request_loop_success (handled : exn -> bool) url (mx : nat) page :
  handled RequestException = true ->
  forall (k n i : nat) s,
    (k < n)%nat -> (i + n = mx)%nat -> quiet s ->
    (forall j, (j < k)%nat -> net (env s) (requests s + j) = RequestFailed) ->
    net (env s) (requests s + k) = Fetched page ->
    exists s',
      safe_request_loop handled url (Z.of_nat mx)
        (map Z.of_nat (seq i n)) s = (Ret (Some page), s')
      /\ sends (S k) url s s'.
Proof.
  intros Hh. induction k as [|k IH]; intros n i s Hk Hmx Hq Hfail Hok.
  - destruct n as [|n]; [lia|]. simpl.
    rewrite Nat.add_0_r in Hok.
    destruct (attempt_fetched handled url (Z.of_nat i =? Z.of_nat mx - 1)%Z
                s page Hq Hok) as [E Hs].
    exists (requested url (ticked s)). split; [|exact Hs].
    unfold bind at 1. rewrite E. reflexivity.
  - destruct n as [|n]; [lia|]. simpl.
    assert (Hlast : (Z.of_nat i =? Z.of_nat mx - 1)%Z = false)
      by (apply Z.eqb_neq; lia).
    assert (H0 : net (env s) (requests s) = RequestFailed)
      by (rewrite <- (Nat.add_0_r (requests s)); apply Hfail; lia).
    destruct (attempt_failed handled url (Z.of_nat i =? Z.of_nat mx - 1)%Z
                s Hq H0 Hh) as (s1 & E & Hs1).
    rewrite Hlast in E |- *.
    destruct (IH n (S i) s1) as (s' & E' & Hs'); try lia.
    + exact (sends_quiet _ _ _ _ Hs1 Hq).
    + intros j Hj. rewrite (sends_net _ _ _ _ Hs1), (sends_requests _ _ _ _ Hs1).
      replace (1 + requests s + j)%nat with (requests s + S j)%nat by lia.
      apply Hfail. lia.
    + rewrite (sends_net _ _ _ _ Hs1), (sends_requests _ _ _ _ Hs1).
      replace (1 + requests s + k)%nat with (requests s + S k)%nat by lia.
      exact Hok.
    + exists s'. split.
      * unfold bind at 1. rewrite E. exact E'.
      * exact (sends_trans url 1 (S k) s s1 s' Hs1 Hs').
Qed.

(** Every attempt fails: the last round returns [None]. *)
Lemma safe_request_loop_exhausted (handled : exn -> bool) url (mx : nat) :
  handled RequestException = true ->
  forall (n i : nat) s,
    (0 < n)%nat -> (i + n = mx)%nat -> quiet s ->
    (forall j, (j < n)%nat -> net (env s) (requests s + j) = RequestFailed) ->
    exists s',
      safe_request_loop handled url (Z.of_nat mx)
        (map Z.of_nat (seq i n)) s = (Ret None, s')
      /\ sends n url s s'.
Proof.
  intros Hh. induction n as [|n IH]; intros i s Hn Hmx Hq Hfail; [lia|].
  simpl.
  assert (H0 : net (env s) (requests s) = RequestFailed)
    by (rewrite <- (Nat.add_0_r (requests s)); apply Hfail; lia).
  destruct (attempt_failed handled url (Z.of_nat i =? Z.of_nat mx - 1)%Z
              s Hq H0 Hh) as (s1 & E & Hs1).
  destruct n as [|n].
  - assert (Hlast : (Z.of_nat i =? Z.of_nat mx - 1)%Z = true)
      by (apply Z.eqb_eq; lia).
    rewrite Hlast in E |- *. exists s1. split; [|exact Hs1].
    unfold bind at 1. rewrite E. reflexivity.
  - assert (Hlast : (Z.of_nat i =? Z.of_nat mx - 1)%Z = false)
      by (apply Z.eqb_neq; lia).
    rewrite Hlast in E |- *.
    destruct (IH (S i) s1) as (s' & E' & Hs'); try lia.
    + exact (sends_quiet _ _ _ _ Hs1 Hq).
    + intros j Hj. rewrite (sends_net _ _ _ _ Hs1), (sends_requests _ _ _ _ Hs1).
      replace (1 + requests s + j)%nat with (requests s + S j)%nat by lia.
      apply Hfail. lia.
    + exists s'. split.
      * unfold bind at 1. rewrite E. exact E'.
      * exact (sends_trans url 1 (S n) s s1 s' Hs1 Hs').
Qed.

(** With no interrupt pending, a round sends its request. *)
Lemma attempt_sends_one (handled : exn -> bool) url (last : bool) s :
  quiet s ->
  (requests s
   < requests
       (try_except
          (sleep ;;; page <- http_get url ;; ret (inl (Some page)))
          handled
          (fun _ => if last then ret (inl None)
                    else sleep ;;; ret (@inr (option soup) unit tt)) s).2)%nat.
Proof.
  intros Hq. unfold try_except, bind at 1. rewrite (sleep_quiet s Hq).
  unfold bind at 1.
  rewrite (http_get_quiet url (ticked s) (quiet_ticked s Hq)).
  change (requests (ticked s)) with (requests s).
  change (net (env (ticked s))) with (net (env s)).
  assert (H2 : requests (requested url (ticked s)) = S (requests s))
    by reflexivity.
  destruct (net (env s) (requests s)); simpl.
  - lia.
  - destruct (handled RequestException); simpl; [|lia].
    destruct last; simpl; [lia|].
    unfold bind. rewrite sleep_quiet by exact Hq. simpl.
    change (requests (ticked (requested url (ticked s))))
      with (S (requests s)). lia.
  - destruct (handled OtherException); simpl; [|lia].
    destruct last; simpl; [lia|].
    unfold bind. rewrite sleep_quiet by exact Hq. simpl.
    change (requests (ticked (requested url (ticked s))))
      with (S (requests s)). lia.
Qed.

End Fetch.

Lemma retry_contract {P} (handled : exn -> bool) (url : str)
    (max_retries : Z) (s : scraper P) :
  handled RequestException = true ->
  (1 <= max_retries)%Z ->
  let run := safe_request_loop handled url max_retries (range max_retries) in
  (requests (run s).2 <= requests s + Z.to_nat max_retries)%nat
  /\ (forall (k : nat) (page : soup),
        quiet s -> (Z.of_nat k < max_retries)%Z ->
        (forall j, (j < k)%nat ->
                   net (env s) (requests s + j) = RequestFailed) ->
        net (env s) (requests s + k) = Fetched page ->
        exists s', run s = (Ret (Some page), s') /\ sends (S k) url s s')
  /\ (quiet s ->
      (forall j, (j < Z.to_nat max_retries)%nat ->
                 net (env s) (requests s + j) = RequestFailed) ->
      exists s', run s = (Ret None, s')
                 /\ sends (Z.to_nat max_retries) url s s').
Proof.
  intros Hh Hmax run. subst run. unfold range.
  assert (Hmx : max_retries = Z.of_nat (Z.to_nat max_retries)) by lia.
  revert Hmx. generalize (Z.to_nat max_retries). intros mx ->.
  split; [|split].
  - etransitivity; [apply safe_request_loop_bound|].
    rewrite length_map, length_seq. lia.
  - intros k page Hq Hk Hfail Hok.
    apply (safe_request_loop_success handled url mx page Hh k mx 0 s);
      auto; lia.
  - intros Hq Hfail.
    apply (safe_request_loop_exhausted handled url mx Hh mx 0 s); auto; lia.
Qed.

(** C3. For every URL and every [max_retries >= 1], [safe_request] makes at
    most [max_retries] requests; if attempt [k + 1 <= max_retries] is the
    first to succeed it returns that attempt's page after exactly [k + 1]
    requests for the URL; if all [max_retries] attempts fail it returns
    [None] (a value, no exception) after exactly [max_retries] requests. *)
Theorem safe_request_retries {P} (url : str) (max_retries : Z)
    (s : scraper P) :
  (1 <= max_retries)%Z ->
  (requests (safe_request url max_retries s).2
   <= requests s + Z.to_nat max_retries)%nat
  /\ (forall (k : nat) (page : soup),
        quiet s -> (Z.of_nat k < max_retries)%Z ->
        (forall j, (j < k)%nat ->
                   net (env s) (requests s + j) = RequestFailed) ->
        net (env s) (requests s + k) = Fetched page ->
        exists s', safe_request url max_retries s = (Ret (Some page), s')
                   /\ sends (S k) url s s')
  /\ (quiet s ->
      (forall j, (j < Z.to_nat max_retries)%nat ->
                 net (env s) (requests s + j) = RequestFailed) ->
      exists s', safe_request url max_retries s = (Ret None, s')
                 /\ sends (Z.to_nat max_retries) url s s').
Proof.
  intros Hmax.
  exact (retry_contract is_RequestException url max_retries s eq_refl Hmax).
Qed.

(** The same for the PERFECT scraper's [safe_request]. *)
Lemma safe_request_perfect_retries {P} (url : str) (max_retries : Z)
    (s : scraper P) :
  (1 <= max_retries)%Z ->
  (requests (safe_request_perfect url max_retries s).2
   <= requests s + Z.to_nat max_retries)%nat
  /\ (forall (k : nat) (page : soup),
        quiet s -> (Z.of_nat k < max_retries)%Z ->
        (forall j, (j < k)%nat ->
                   net (env s) (requests s + j) = RequestFailed) ->
        net (env s) (requests s + k) = Fetched page ->
        exists s', safe_request_perfect url max_retries s
                   = (Ret (Some page), s')
                   /\ sends (S k) url s s')
  /\ (quiet s ->
      (forall j, (j < Z.to_nat max_retries)%nat ->
                 net (env s) (requests s + j) = RequestFailed) ->
      exists s', safe_request_perfect url max_retries s = (Ret None, s')
                 /\ sends (Z.to_nat max_retries) url s s').
Proof.
  intros Hmax.
  exact (retry_contract is_Exception url max_retries s eq_refl Hmax).
Qed.

(** Two failures, then a page: the third attempt's page is returned after
    three requests. *)
Lemma safe_request_retries_witness :
  (safe_request (py "https://www.hyperpure.com/in/cheese") 3
     (new_scraper (P := Product) (flaky_world 2 blank_page))).1
  = Ret (Some blank_page)
  /\ requests
       (safe_request (py "https://www.hyperpure.com/in/cheese") 3
          (new_scraper (P := Product) (flaky_world 2 blank_page))).2 = 3%nat.
Proof.
  destruct (safe_request_retries (py "https://www.hyperpure.com/in/cheese") 3
              (new_scraper (P := Product) (flaky_world 2 blank_page))
              ltac:(lia)) as (_ & Hsucc & _).
  destruct (Hsucc 2%nat blank_page) as (s' & E & Hs).
  - reflexivity.
  - lia.
  - intros [|[|j]] Hj; [reflexivity|reflexivity|lia].
  - reflexivity.
  - rewrite E. simpl. split; [reflexivity|].
    rewrite (sends_requests _ _ _ _ Hs). reflexivity.
Defined.

(** ** How the methods move the state *)

Section Preservation.
Context {P : Type} (R : relation (scraper P)) `{!PreOrder R}.

Lemma preserves_ret {A} (a : A) : preserves R (ret a).
Proof. intros s. reflexivity. Qed.

Lemma preserves_raise {A} (e : exn) : preserves R (raise (A := A) e).
Proof. intros s. reflexivity. Qed.

Lemma preserves_get_state : preserves R get_state.
Proof. intros s. reflexivity. Qed.

Lemma preserves_bind {A B} (m : M P A) (k : A -> M P B) :
  preserves R m -> (forall a, preserves R (k a)) -> preserves R (bind m k).
Proof.
  intros Hm Hk s. unfold bind. specialize (Hm s).
  destruct (m s) as [[a|e] s1]; simpl in *; [|exact Hm].
  etransitivity; [exact Hm|apply Hk].
Qed.

Lemma preserves_try_except {A} (m : M P A) (handled : exn -> bool)
    (h : exn -> M P A) :
  preserves R m -> (forall e, preserves R (h e)) ->
  preserves R (try_except m handled h).
Proof.
  intros Hm Hh s. unfold try_except. specialize (Hm s).
  destruct (m s) as [[a|e] s1]; simpl in *; [exact Hm|].
  destruct (handled e); simpl; [|exact Hm].
  etransitivity; [exact Hm|apply Hh].
Qed.

Lemma preserves_update_world (f : world -> world) :
  (forall s, R s (Scraper (scraped_urls s) (products s) (f (env s)))) ->
  preserves R (update_world f).
Proof. intros H s. apply H. Qed.

Lemma preserves_now : preserves R now.
Proof. apply preserves_bind; [apply preserves_get_state|intros; apply preserves_ret]. Qed.

Lemma preserves_timestamp : preserves R Comprehensive.timestamp.
Proof. apply preserves_bind; [apply preserves_get_state|intros; apply preserves_ret]. Qed.

(** Whatever only lets time pass and sends requests. *)
Hypothesis R_tick : forall s, R s (ticked s).
Hypothesis R_log : forall url s,
  R s (Scraper (scraped_urls s) (products s) (log_request url (env s))).

Lemma preserves_blocking : preserves R blocking.
Proof.
  unfold blocking.
  apply preserves_bind; [apply preserves_get_state|intros s0].
  apply preserves_bind; [apply preserves_update_world, R_tick|intros _].
  destruct (bool_decide _); [apply preserves_raise|apply preserves_ret].
Qed.

Lemma preserves_http_get url : preserves R (http_get url).
Proof.
  unfold http_get.
  apply preserves_bind; [apply preserves_blocking|intros _].
  apply preserves_bind; [apply preserves_get_state|intros s0].
  apply preserves_bind; [apply preserves_update_world, R_log|intros _].
  destruct (net _ _); [apply preserves_ret|apply preserves_raise..].
Qed.

Lemma preserves_safe_request_loop (handled : exn -> bool) url
    (max_retries : Z) (attempts : list Z) :
  preserves R (safe_request_loop handled url max_retries attempts).
Proof.
  induction attempts as [|attempt rest IH]; simpl; [apply preserves_ret|].
  apply preserves_bind.
  - apply preserves_try_except.
    + apply preserves_bind; [apply preserves_blocking|intros _].
      apply preserves_bind; [apply preserves_http_get|intros; apply preserves_ret].
    + intros _. destruct (_ =? _)%Z; [apply preserves_ret|].
      apply preserves_bind; [apply preserves_blocking|intros; apply preserves_ret].
  - intros [result|[]]; [apply preserves_ret|exact IH].
Qed.

Lemma preserves_safe_request url (max_retries : Z) :
  preserves R (safe_request url max_retries).
Proof. apply preserves_safe_request_loop. Qed.

Lemma preserves_safe_request_perfect url (max_retries : Z) :
  preserves R (safe_request_perfect url max_retries).
Proof. apply preserves_safe_request_loop. Qed.

End Preservation.

Global Instance grows_preorder {P} : PreOrder (@grows P).
Proof.
  split; [intros s|intros a b c]; unfold grows; set_solver.
Qed.

Global Instance keeps_preorder {P} : PreOrder (@keeps P).
Proof.
  split; [intros s; split; reflexivity|].
  intros a b c [A1 A2] [B1 B2]. split; congruence.
Qed.

Global Instance frames_preorder {P} : PreOrder (@frames P).
Proof.
  split; [intros s; repeat split; reflexivity|].
  intros a b c (A1 & A2 & A3 & A4) (B1 & B2 & B3 & B4). repeat split; congruence.
Qed.

Global Instance sends_more_preorder {P} : PreOrder (@sends_more P).
Proof. split; [intros s|intros a b c]; unfold sends_more; lia. Qed.

Lemma frames_grows {P} (s s' : scraper P) : frames s s' -> grows s s'.
Proof. intros (A & _). unfold grows. rewrite A. reflexivity. Qed.

Lemma frames_keeps {P} (s s' : scraper P) : frames s s' -> keeps s s'.
Proof. intros (_ & A & B & _). split; assumption. Qed.

(** [safe_request] changes nothing of the scraper but the world's clock
    and request log. *)
Lemma safe_request_frames {P} (url : str) (max_retries : Z) :
  preserves (@frames P) (safe_request url max_retries).
Proof. apply preserves_safe_request; try exact _; intros; repeat split. Qed.

Lemma safe_request_perfect_frames {P} (url : str) (max_retries : Z) :
  preserves (@frames P) (safe_request_perfect url max_retries).
Proof.
  apply preserves_safe_request_perfect; try exact _; intros; repeat split.
Qed.

(** With no interrupt pending and at least one attempt allowed,
    [safe_request] sends a request. *)
Lemma safe_request_sends_one {P} (url : str) (max_retries : Z)
    (s : scraper P) :
  (1 <= max_retries)%Z -> quiet s ->
  (requests s < requests (safe_request url max_retries s).2)%nat.
Proof.
  intros Hmax Hq. unfold safe_request, range.
  destruct (Z.to_nat max_retries) as [|n] eqn:E; [lia|]. simpl.
  unfold bind at 1.
  pose proof (attempt_sends_one is_RequestException url
                (0 =? max_retries - 1)%Z s Hq) as H1.
  destruct (try_except _ _ _ s) as [[[result|[]]|e] s1]; simpl in *;
    try exact H1.
  pose proof (preserves_safe_request_loop sends_more
                ltac:(intros; unfold sends_more, requests; simpl; lia)
                ltac:(intros; unfold sends_more, requests; simpl; lia)
                is_RequestException url max_retries
                (map Z.of_nat (seq 1 n)) s1) as Hm.
  unfold sends_more in Hm. lia.
Qed.

Lemma safe_request_sends_more {P} (url : str) (max_retries : Z) :
  preserves (@sends_more P) (safe_request url max_retries).
Proof.
  apply preserves_safe_request; try exact _; intros;
    unfold sends_more, requests; simpl; lia.
Qed.

(** ** The visited set and the detail stage (C4, C10) *)

Section Visited.
Context `{!UrlLib} `{!SetOrder}.
Import Comprehensive.

Implicit Types (s : scraper Product) (product : Product).

Lemma grows_ticked s : grows s (ticked s).
Proof. unfold grows. reflexivity. Qed.

Lemma add_scraped_url_grows (u : str) :
  preserves (@grows Product) (add_scraped_url u).
Proof. intros s. unfold grows. simpl. set_solver. Qed.

Lemma set_products_grows (l : list Product) :
  preserves (@grows Product) (set_products l).
Proof. intros s. unfold grows. reflexivity. Qed.

Lemma scrape_product_details_grows product :
  preserves grows (scrape_product_details product).
Proof.
  unfold scrape_product_details.
  apply preserves_bind; [exact _|apply preserves_get_state; exact _|intros s0].
  destruct (_ || _); [apply preserves_ret; exact _|].
  apply preserves_bind; [exact _| |intros [page|]].
  - apply preserves_safe_request; try exact _; intros; apply grows_ticked.
  - apply preserves_bind; [exact _|apply add_scraped_url_grows|].
    intros _. apply preserves_ret; exact _.
  - apply preserves_ret; exact _.
Qed.

Lemma details_loop_grows (ps all_products : list Product) :
  preserves grows (details_loop ps all_products).
Proof.
  revert all_products.
  induction ps as [|p rest IH]; intros all_products; simpl.
  - apply preserves_ret; exact _.
  - apply preserves_bind; [exact _| |intros [d|]].
    + apply preserves_try_except; [exact _| |intros; apply preserves_ret; exact _].
      apply preserves_bind; [exact _|apply scrape_product_details_grows|].
      intros; apply preserves_ret; exact _.
    + apply preserves_bind; [exact _| |intros _; apply IH].
      apply preserves_blocking; [exact _|intros; apply grows_ticked].
    + apply preserves_ret; exact _.
Qed.

Lemma category_body_grows (category_url : str) (all_products : list Product) :
  preserves grows (category_body category_url all_products).
Proof.
  unfold category_body.
  destruct (urljoin _ _); [|apply preserves_ret; exact _].
  apply preserves_bind; [exact _| |intros [page|]].
  - apply preserves_try_except; [exact _| |intros; apply preserves_ret; exact _].
    apply preserves_safe_request; try exact _; intros; apply grows_ticked.
  - apply preserves_bind; [exact _|apply preserves_now; exact _|intros stamp].
    destruct (extract_products_from_page _ _ _); [|apply preserves_ret; exact _].
    apply preserves_bind; [exact _|apply details_loop_grows|].
    intros [all1 []]; apply preserves_ret; exact _.
  - apply preserves_ret; exact _.
Qed.

Lemma categories_loop_grows (urls : list str) (all_products : list Product) :
  preserves grows (categories_loop urls all_products).
Proof.
  revert all_products.
  induction urls as [|u rest IH]; intros all_products; simpl.
  - apply preserves_ret; exact _.
  - apply preserves_bind; [exact _|apply category_body_grows|].
    intros all1. apply IH.
Qed.

Lemma save_to_csv_grows (filename : str) :
  preserves grows (save_to_csv filename).
Proof.
  unfold save_to_csv.
  apply preserves_bind; [exact _|apply preserves_get_state; exact _|intros s0].
  destruct (products s0); [apply preserves_ret; exact _|].
  destruct (disk_ok _); [|apply preserves_ret; exact _].
  intros s. unfold grows. reflexivity.
Qed.

Lemma scrape_all_products_from_grows (urls : list str) :
  preserves grows (scrape_all_products_from urls).
Proof.
  unfold scrape_all_products_from.
  apply preserves_bind; [exact _|apply categories_loop_grows|intros all].
  apply preserves_bind; [exact _|apply set_products_grows|intros _].
  apply preserves_bind; [exact _|apply preserves_get_state; exact _|].
  intros; apply preserves_ret; exact _.
Qed.

Lemma main_from_grows (urls : list str) : preserves grows (main_from urls).
Proof.
  unfold main_from. apply preserves_try_except; [exact _| |].
  - apply preserves_bind; [exact _|apply scrape_all_products_from_grows|].
    intros [|p l]; [apply preserves_ret; exact _|].
    apply preserves_bind; [exact _|apply preserves_timestamp; exact _|].
    intros; apply save_to_csv_grows.
  - intros [| |]; try (apply preserves_ret; exact _).
    apply preserves_bind; [exact _|apply preserves_get_state; exact _|].
    intros s0. destruct (products s0); [apply preserves_ret; exact _|].
    apply preserves_bind; [exact _|apply preserves_timestamp; exact _|].
    intros; apply save_to_csv_grows.
Qed.

(** A URL already visited: the call returns the record and touches
    nothing. *)
Lemma scrape_product_details_visited s product :
  product_page_url product ∈ scraped_urls s ->
  scrape_product_details product s = (Ret product, s).
Proof.
  intros Hin. unfold scrape_product_details, bind, get_state. simpl.
  rewrite (bool_decide_eq_true_2 _ Hin), orb_true_r. reflexivity.
Qed.

(** A URL not yet visited: the outcome of the fetch decides. *)
Lemma scrape_product_details_fresh s product :
  truthy (product_page_url product) = true ->
  (product_page_url product ∉ scraped_urls s) ->
  scrape_product_details product s
  = match safe_request (product_page_url product) 3 s with
    | (Ret (Some page), s1) =>
        (Ret (detail_body page product),
         Scraper ({[product_page_url product]} ∪ scraped_urls s1)
                 (products s1) (env s1))
    | (Ret None, s1) => (Ret product, s1)
    | (Raise e, s1) => (Raise e, s1)
    end.
Proof.
  intros Ht Hnin. unfold scrape_product_details, bind, get_state. simpl.
  rewrite Ht, (bool_decide_eq_false_2 _ Hnin). simpl.
  destruct (safe_request _ 3 s) as [[[page|]|e] s1]; reflexivity.
Qed.

(** C4. The visited set grows monotonically, over one call of
    [scrape_product_details] and over a whole run; a call whose URL is
    already visited returns at once, leaving the state (and so the request
    log) as it was; and once a call has fetched and processed a URL, any
    later call for the same URL is such a call. *)
Theorem visited_urls_once s product :
  grows s (scrape_product_details product s).2
  /\ (forall urls, grows s (main_from urls s).2)
  /\ (product_page_url product ∈ scraped_urls s ->
      scrape_product_details product s = (Ret product, s))
  /\ (forall page s1 later,
        truthy (product_page_url product) = true ->
        (product_page_url product ∉ scraped_urls s) ->
        safe_request (product_page_url product) 3 s = (Ret (Some page), s1) ->
        product_page_url later = product_page_url product ->
        let s2 := (scrape_product_details product s).2 in
        scrape_product_details product s = (Ret (detail_body page product), s2)
        /\ scrape_product_details later s2 = (Ret later, s2)).
Proof.
  split; [apply scrape_product_details_grows|].
  split; [intros urls; apply main_from_grows|].
  split; [apply scrape_product_details_visited|].
  intros page s1 later Ht Hnin Hfetch Hsame s2. subst s2.
  rewrite (scrape_product_details_fresh s product Ht Hnin), Hfetch. simpl.
  split; [reflexivity|].
  apply scrape_product_details_visited. simpl. rewrite Hsame. set_solver.
Qed.

(** C10. When the fetch of the detail page returns [None], the call returns
    the record as it was given, the visited set is what it was (the URL is
    not in it), and a later call for the same URL sends a request again. *)
Theorem failed_fetch_changes_nothing s product s1 :
  truthy (product_page_url product) = true ->
  (product_page_url product ∉ scraped_urls s) ->
  safe_request (product_page_url product) 3 s = (Ret None, s1) ->
  scrape_product_details product s = (Ret product, s1)
  /\ scraped_urls s1 = scraped_urls s
  /\ (product_page_url product ∉ scraped_urls s1)
  /\ (quiet s1 ->
      (requests s1 < requests (scrape_product_details product s1).2)%nat).
Proof.
  intros Ht Hnin Hfetch.
  pose proof (safe_request_frames (product_page_url product) 3 s) as Hf.
  rewrite Hfetch in Hf. simpl in Hf. destruct Hf as (Hu & _).
  split; [|split; [exact Hu|split; [rewrite Hu; exact Hnin|]]].
  - rewrite (scrape_product_details_fresh s product Ht Hnin), Hfetch.
    reflexivity.
  - intros Hq.
    rewrite (scrape_product_details_fresh s1 product Ht)
      by (rewrite Hu; exact Hnin).
    pose proof (safe_request_sends_one (product_page_url product) 3 s1
                  ltac:(lia) Hq) as Hone.
    destruct (safe_request _ 3 s1) as [[[page|]|e] s3]; simpl in *; exact Hone.
Qed.
End Visited.

(** A visited URL is skipped: nothing is fetched, nothing changes. *)
Lemma visited_urls_once_witness :
  @Comprehensive.scrape_product_details plain_urls as_listed sample_draft
    (Scraper {[sample_url]} [] (flaky_world 0 blank_page))
  = (Ret sample_draft, Scraper {[sample_url]} [] (flaky_world 0 blank_page)).
Proof.
  apply (@visited_urls_once plain_urls as_listed
           (Scraper {[sample_url]} [] (flaky_world 0 blank_page))
           sample_draft).
  apply elem_of_singleton. vm_compute. reflexivity.
Defined.

(** Three failed attempts: the draft comes back as it was and its URL is
    still unvisited. *)
Lemma failed_fetch_changes_nothing_witness :
  exists s1 : scraper Product,
    @Comprehensive.scrape_product_details plain_urls as_listed sample_draft
      (new_scraper (flaky_world 3 blank_page))
    = (Ret sample_draft, s1)
    /\ (product_page_url sample_draft ∉ scraped_urls s1)
    /\ requests s1 = 3%nat.
Proof.
  destruct (retry_contract is_RequestException sample_url 3
              (new_scraper (P := Product) (flaky_world 3 blank_page))
              eq_refl ltac:(lia)) as (_ & _ & Hfail).
  destruct Hfail as (s1 & E & Hs).
  - reflexivity.
  - intros [|[|[|j]]] Hj; [reflexivity..|simpl in Hj; lia].
  - destruct (@failed_fetch_changes_nothing plain_urls as_listed
                (new_scraper (flaky_world 3 blank_page)) sample_draft s1)
      as (E1 & _ & Hnin & _).
    + reflexivity.
    + apply not_elem_of_empty.
    + exact E.
    + exists s1. split; [exact E1|]. split; [exact Hnin|].
      rewrite (sends_requests _ _ _ _ Hs). reflexivity.
Defined.

(** ** Nameless records are not kept (C9) *)

Lemma preserves_weaken {P A} (R1 R2 : relation (scraper P)) (m : M P A) :
  (forall s s', R1 s s' -> R2 s s') -> preserves R1 m -> preserves R2 m.
Proof. intros HR Hm s. apply HR, Hm. Qed.

Global Instance named_only_preorder : PreOrder named_only.
Proof.
  split; [intros s H; exact H|].
  intros a b c Hab Hbc H. exact (Hbc (Hab H)).
Qed.

Lemma frames_named_only (s s' : scraper Perfect.PerfectProduct) :
  frames s s' -> named_only s s'.
Proof. intros (_ & A & _) H. rewrite A. exact H. Qed.

Global Instance detailed_named_only_preorder : PreOrder detailed_named_only.
Proof.
  split; [intros s H; exact H|].
  intros a b c Hab Hbc H. exact (Hbc (Hab H)).
Qed.

Lemma keeps_detailed_named_only (s s' : scraper Detailed.DetailedProduct) :
  keeps s s' -> detailed_named_only s s'.
Proof. intros (A & _) H. rewrite A. exact H. Qed.

Section Named.
Context `{!UrlLib} `{!SetOrder}.
Import Perfect.

Lemma scrape_detailed_product_info_keeps (product : Detailed.DetailedProduct) :
  preserves keeps (Detailed.scrape_detailed_product_info product).
Proof.
  unfold Detailed.scrape_detailed_product_info.
  apply preserves_bind; [exact _|apply preserves_get_state; exact _|intros s0].
  destruct (_ || _); [apply preserves_ret; exact _|].
  apply preserves_bind; [exact _| |intros [page|]].
  - apply (preserves_weaken frames); [apply frames_keeps|].
    apply safe_request_frames.
  - apply preserves_bind; [exact _| |intros _; apply preserves_ret; exact _].
    intros s. split; reflexivity.
  - apply preserves_ret; exact _.
Qed.

Lemma append_detailed_named (p : Detailed.DetailedProduct) :
  truthy (Detailed.product_name p) = true ->
  preserves detailed_named_only (append_product p).
Proof.
  intros Hp s Hall. simpl. apply Forall_app. split; [exact Hall|].
  constructor; [|constructor]. unfold detailed_named.
  destruct (Detailed.product_name p); [discriminate|discriminate].
Qed.

Lemma detailed_products_loop_named (product_links : list str) :
  preserves detailed_named_only (Detailed.products_loop product_links).
Proof.
  induction product_links as [|u rest IH]; simpl.
  - apply preserves_ret; exact _.
  - apply preserves_bind; [exact _| |intros _; exact IH].
    apply preserves_try_except; [exact _| |intros; apply preserves_ret; exact _].
    apply preserves_bind; [exact _|apply preserves_now; exact _|intros stamp].
    apply preserves_bind; [exact _| |].
    + apply (preserves_weaken keeps); [apply keeps_detailed_named_only|].
      apply scrape_detailed_product_info_keeps.
    + intros p.
      destruct (truthy (Detailed.product_name p)) eqn:Hp;
        [apply append_detailed_named; exact Hp|apply preserves_ret; exact _].
Qed.

Lemma scrape_all_detailed_products_named :
  preserves detailed_named_only Detailed.scrape_all_detailed_products.
Proof.
  unfold Detailed.scrape_all_detailed_products.
  apply preserves_bind; [exact _| |].
  - unfold Detailed.get_product_links_from_main_page.
    apply preserves_bind; [exact _| |].
    + apply (preserves_weaken frames);
        [intros a b Hab; apply keeps_detailed_named_only, frames_keeps, Hab|].
      apply safe_request_frames.
    + intros [page|]; [|apply preserves_ret; exact _].
      destruct (Detailed.resolve_links _ _);
        [apply preserves_ret; exact _|apply preserves_raise; exact _].
  - intros [|u l]; [apply preserves_ret; exact _|].
    apply preserves_bind;
      [exact _|apply detailed_products_loop_named|intros _].
    apply preserves_bind; [exact _|apply preserves_get_state; exact _|].
    intros; apply preserves_ret; exact _.
Qed.

Lemma extract_perfect_product_details_frames (product_url : str) :
  preserves frames (extract_perfect_product_details product_url).
Proof.
  unfold extract_perfect_product_details.
  apply preserves_bind; [exact _|apply safe_request_perfect_frames|].
  intros [page|]; [|apply preserves_ret; exact _].
  apply preserves_bind; [exact _|apply preserves_now; exact _|].
  intros; apply preserves_ret; exact _.
Qed.

Lemma append_named (p : PerfectProduct) :
  truthy (product_name p) = true -> preserves named_only (append_product p).
Proof.
  intros Hp s Hall. simpl. apply Forall_app. split; [exact Hall|].
  constructor; [|constructor]. unfold named.
  destruct (product_name p); [discriminate|discriminate].
Qed.

Lemma products_loop_named (product_urls : list str) :
  preserves named_only (products_loop product_urls).
Proof.
  induction product_urls as [|u rest IH]; simpl.
  - apply preserves_ret; exact _.
  - apply preserves_bind; [exact _| |intros _; exact IH].
    apply preserves_try_except; [exact _| |intros; apply preserves_ret; exact _].
    apply preserves_bind; [exact _| |].
    + apply (preserves_weaken frames); [apply frames_named_only|].
      apply extract_perfect_product_details_frames.
    + intros [p|]; [|apply preserves_ret; exact _].
      destruct (truthy (product_name p)) eqn:Hp;
        [apply append_named; exact Hp|apply preserves_ret; exact _].
Qed.

Lemma collect_urls_frames (starts all_product_urls : list str) :
  preserves frames (collect_urls starts all_product_urls).
Proof.
  revert all_product_urls.
  induction starts as [|u rest IH]; intros acc; simpl.
  - apply preserves_ret; exact _.
  - apply preserves_bind; [exact _|apply safe_request_perfect_frames|].
    intros [page|]; [|apply IH].
    destruct (resolve_links _); [apply IH|apply preserves_raise; exact _].
Qed.

Lemma scrape_all_perfect_products_named :
  preserves named_only scrape_all_perfect_products.
Proof.
  unfold scrape_all_perfect_products.
  apply preserves_bind; [exact _| |].
  - apply (preserves_weaken frames); [apply frames_named_only|].
    apply collect_urls_frames.
  - intros [|u l]; [apply preserves_ret; exact _|].
    apply preserves_bind; [exact _|apply products_loop_named|intros _].
    apply preserves_bind; [exact _|apply preserves_get_state; exact _|].
    intros; apply preserves_ret; exact _.
Qed.

(** C9. Every record that [scrape_all_perfect_products], and likewise
    [scrape_all_detailed_products], leaves in [self.products], the
    collection handed to the CSV writer, has a non-empty product name: a
    record whose name came out empty is never appended. *)
Theorem nameless_records_not_kept
    (s : scraper PerfectProduct) (sd : scraper Detailed.DetailedProduct) :
  Forall named (products s) ->
  Forall detailed_named (products sd) ->
  Forall named (products (scrape_all_perfect_products s).2)
  /\ Forall detailed_named
       (products (Detailed.scrape_all_detailed_products sd).2)
  /\ (forall product_url,
        let s1 := (products_loop [product_url] s).2 in
        products s1 = products s
        \/ exists p, products s1 = products s ++ [p]
                     /\ product_name p <> []).
Proof.
  intros Hall Halld.
  split; [exact (scrape_all_perfect_products_named s Hall)|].
  split; [exact (scrape_all_detailed_products_named sd Halld)|].
  intros product_url s1. subst s1.
  unfold products_loop, bind, try_except.
  pose proof (extract_perfect_product_details_frames product_url s)
    as (_ & Hp & _).
  destruct (extract_perfect_product_details product_url s)
    as [[[p|]|e] s1]; simpl in Hp.
  - destruct (truthy (product_name p)) eqn:Hn; simpl.
    + right. exists p. rewrite Hp. split; [reflexivity|].
      destruct (product_name p); discriminate.
    + left. exact Hp.
  - left. exact Hp.
  - destruct (is_Exception e); simpl; left; exact Hp.
Qed.

End Named.

(** Runs in which the second product page yields no name: only the first
    product is kept. *)
Lemma nameless_records_not_kept_witness :
  Forall named
    (products
       (@Perfect.scrape_all_perfect_products plain_urls as_listed
          (new_scraper (scripted_world perfect_script None))).2)
  /\ Forall detailed_named
       (products
          (@Detailed.scrape_all_detailed_products plain_urls
             (new_scraper (scripted_world detailed_script None))).2)
  /\ map Perfect.product_name
       (products
          (@Perfect.scrape_all_perfect_products plain_urls as_listed
             (new_scraper (scripted_world perfect_script None))).2)
     = [py "Walnut Brownie"]
  /\ map Detailed.product_name
       (products
          (@Detailed.scrape_all_detailed_products plain_urls
             (new_scraper (scripted_world detailed_script None))).2)
     = [py "Walnut Brownie"]
  /\ length
       (sent (env (@Detailed.scrape_all_detailed_products plain_urls
                     (new_scraper (scripted_world detailed_script None))).2))
     = 3%nat.
Proof.
  destruct (@nameless_records_not_kept plain_urls as_listed
              (new_scraper (scripted_world perfect_script None))
              (new_scraper (scripted_world detailed_script None)))
    as (Hp & Hd & _); [constructor|constructor|].
  split; [exact Hp|]. split; [exact Hd|].
  vm_compute. repeat split.
Defined.

(** ** Packaging classification (C6) *)







(** ** An interrupted run (C8) *)

Section Interrupted.
Context `{!UrlLib} `{!SetOrder}.
Import Comprehensive.

Lemma keeps_ticked (s : scraper Product) : keeps s (ticked s).
Proof. split; reflexivity. Qed.

Lemma scrape_product_details_keeps (product : Product) :
  preserves keeps (scrape_product_details product).
Proof.
  unfold scrape_product_details.
  apply preserves_bind; [exact _|apply preserves_get_state; exact _|intros s0].
  destruct (_ || _); [apply preserves_ret; exact _|].
  apply preserves_bind; [exact _| |intros [page|]].
  - apply (preserves_weaken frames); [apply frames_keeps|].
    apply safe_request_frames.
  - apply preserves_bind; [exact _| |intros _; apply preserves_ret; exact _].
    intros s. split; reflexivity.
  - apply preserves_ret; exact _.
Qed.

Lemma details_loop_keeps (ps all_products : list Product) :
  preserves keeps (details_loop ps all_products).
Proof.
  revert all_products.
  induction ps as [|p rest IH]; intros all_products; simpl.
  - apply preserves_ret; exact _.
  - apply preserves_bind; [exact _| |intros [d|]].
    + apply preserves_try_except; [exact _| |intros; apply preserves_ret; exact _].
      apply preserves_bind; [exact _|apply scrape_product_details_keeps|].
      intros; apply preserves_ret; exact _.
    + apply preserves_bind; [exact _| |intros _; apply IH].
      apply preserves_blocking; [exact _|intros; split; reflexivity].
    + apply preserves_ret; exact _.
Qed.

Lemma category_body_keeps (category_url : str) (all_products : list Product) :
  preserves keeps (category_body category_url all_products).
Proof.
  unfold category_body.
  destruct (urljoin _ _); [|apply preserves_ret; exact _].
  apply preserves_bind; [exact _| |intros [page|]].
  - apply preserves_try_except; [exact _| |intros; apply preserves_ret; exact _].
    apply (preserves_weaken frames); [apply frames_keeps|].
    apply safe_request_frames.
  - apply preserves_bind; [exact _|apply preserves_now; exact _|intros stamp].
    destruct (extract_products_from_page _ _ _); [|apply preserves_ret; exact _].
    apply preserves_bind; [exact _|apply details_loop_keeps|].
    intros [all1 []]; apply preserves_ret; exact _.
  - apply preserves_ret; exact _.
Qed.

(** While the categories are being scraped, [self.products] is not
    touched: the entries assembled so far live in the local list only. *)
Lemma categories_loop_keeps (urls : list str) (all_products : list Product) :
  preserves keeps (categories_loop urls all_products).
Proof.
  revert all_products.
  induction urls as [|u rest IH]; intros all_products; simpl.
  - apply preserves_ret; exact _.
  - apply preserves_bind; [exact _|apply category_body_keeps|].
    intros all1. apply IH.
Qed.

(** However many entries had been assembled, a run that is interrupted
    leaves [self.products] as it was, and [main] writes no file. *)
Lemma interrupted_run_saves_nothing (urls : list str) (w : world) :
  (scrape_all_products_from urls (new_scraper w)).1 = Raise KeyboardInterrupt ->
  products (main_from urls (new_scraper w)).2 = []
  /\ disk (env (main_from urls (new_scraper w)).2) = disk w.
Proof.
  pose proof (categories_loop_keeps urls [] (new_scraper w)) as [Hp Hd].
  unfold main_from, try_except, scrape_all_products_from.
  unfold bind, set_products, get_state, ret. cbv beta iota zeta.
  destruct (categories_loop urls [] (new_scraper w)) as [[all|e] s1].
  - intros Habs. discriminate Habs.
  - cbn [fst snd]. intros [= ->]. cbn [snd] in Hp, Hd. rewrite Hp.
    cbn [snd]. split; [exact Hp|exact Hd].
Qed.

End Interrupted.

(** C8, on the comprehensive scraper.  The operator interrupts during the
    pause that follows the first of two products: both the category page
    and the first product page have been fetched and the first entry
    assembled, yet nothing is on the disk and [self.products] is empty.  The
    same holds when the interrupt falls on the pause after the second
    product, with both entries assembled.  Left alone, the same run writes
    the header row and two rows. *)
Lemma interrupted_after_one_entry :
  let run interrupt :=
    (@Comprehensive.main_from plain_urls as_listed one_category
       (new_scraper (scripted_world comprehensive_script interrupt))).2 in
  disk (env (run (Some 4%nat))) = []
  /\ products (run (Some 4%nat)) = []
  /\ sent (env (run (Some 4%nat)))
     = [py "https://www.hyperpure.com/in/walnut-brownie-80-gm";
        py "https://www.hyperpure.com/in/brownies-cakes-and-lava"]
  /\ disk (env (run (Some 7%nat))) = []
  /\ length (sent (env (run (Some 7%nat)))) = 3%nat
  /\ map (fun f => (f.1, length f.2)) (disk (env (run None)))
     = [(py "hyperpure_products_comprehensive_20250903_100000.csv", 3%nat)].
Proof. vm_compute. repeat split. Qed.

(** The PERFECT and the detailed scraper append each entry to
    [self.products] as soon as it is assembled: interrupted while the second
    product page is awaited, they hold the first entry, which is what the
    handler of their [main] finds and saves. *)
Lemma siblings_hold_entries_when_interrupted :
  let perfect :=
    @Perfect.scrape_all_perfect_products plain_urls as_listed
      (new_scraper (scripted_world perfect_script (Some 24%nat))) in
  let detailed :=
    @Detailed.scrape_all_detailed_products plain_urls
      (new_scraper (scripted_world detailed_script (Some 4%nat))) in
  perfect.1 = Raise KeyboardInterrupt
  /\ map Perfect.product_name (products perfect.2) = [py "Walnut Brownie"]
  /\ detailed.1 = Raise KeyboardInterrupt
  /\ map Detailed.product_name (products detailed.2) = [py "Walnut Brownie"].
Proof. vm_compute. repeat split. Qed.

(** ** Tags (C7) *)


Lemma elem_of_first_occurrences (l : list str) (x : str) :
  x ∈ first_occurrences l <-> x ∈ l.
Proof.
  induction l as [|y t IH]; simpl; [reflexivity|].
  rewrite !elem_of_cons, list_elem_of_filter, IH.
  destruct (decide (x = y)); intuition congruence.
Qed.

Lemma NoDup_first_occurrences (l : list str) : NoDup (first_occurrences l).
Proof.
  induction l as [|y t IH]; simpl; constructor.
  - rewrite list_elem_of_filter. intros [Hy _]. exact (Hy eq_refl).
  - apply NoDup_filter, IH.
Qed.


Lemma filter_all {A} (P : A -> Prop) `{!forall x, Decision (P x)}
    (l : list A) :
  (forall x, x ∈ l -> P x) -> filter P l = l.
Proof.
  induction l as [|y t IH]; intros Hall; [reflexivity|].
  rewrite filter_cons_True by (apply Hall; left).
  f_equal. apply IH. intros x Hx. apply Hall. right. exact Hx.
Qed.








(** In the comprehensive scraper the tags are joined in the iteration order
    of a set: the emitted list holds no string twice and holds exactly the
    detected tags, in an order the code does not fix. *)
Lemma comprehensive_tags_unordered `{!SetOrder} (page : soup)
    (product : Product) :
  Comprehensive.detected_tags (page_text page) <> [] ->
  exists l : list str,
    tags (Comprehensive.tags_step page product) = join (py ";") l
    /\ NoDup l
    /\ forall x, x ∈ l <-> x ∈ Comprehensive.detected_tags (page_text page).
Proof.
  intros Hne. unfold Comprehensive.tags_step.
  destruct (Comprehensive.detected_tags (page_text page)) as [|t ts];
    [contradiction|].
  exists (list_of_set (t :: ts)).
  split; [reflexivity|]. split; [apply list_of_set_NoDup|].
  apply list_of_set_elem.
Qed.

(** C7, on the comprehensive scraper.  A page that mentions "premium" and
    "fresh": the scan detects Premium, then Fresh; under a set order that
    lists Fresh first the record carries "Fresh;Premium", not the tags in
    the order of their detection. *)
Lemma tags_order_lost :
  let page := untitled_page (py "Premium paneer, fresh every day") in
  Comprehensive.detected_tags (page_text page) = [py "Premium"; py "Fresh"]
  /\ tags (@Comprehensive.detail_body plain_urls reversed page sample_draft)
     = py "Fresh;Premium"
  /\ tags (@Comprehensive.detail_body plain_urls as_listed page sample_draft)
     = py "Premium;Fresh".
Proof. vm_compute. repeat split. Qed.

(** ** What a match of the regular-expression matcher looks like *)

(** The matcher only moves forward: whatever it hands to its continuation
    is a position no further from the end of the text than where it
    started; and a pattern without a group leaves the captured text as it
    was. *)
Lemma m_re_forward_cap (fl : flags) (r : regex) :
  forall (st : mstate) (k : mstate -> option mstate) (x : mstate),
    m_re fl r st k = Some x ->
    exists st', k st' = Some x
                /\ (length (m_rest st') <= length (m_rest st))%nat
                /\ (nogrp r = true -> m_cap st' = m_cap st).
Proof.
  induction r as [|c|p|p| |a IHa b IHb|a IHa b IHb|g a IHa|a IHa|a IHa| |];
    intros st k x H; simpl in H.
  - exists st. split; [exact H|split; [lia|reflexivity]].
  - unfold step_char in H. destruct (m_rest st) as [|y t] eqn:E; [discriminate|].
    destruct (lit_ok fl c y); [|discriminate].
    exists (advance y t st). split; [exact H|split; [simpl; lia|reflexivity]].
  - unfold step_char in H. destruct (m_rest st) as [|y t] eqn:E; [discriminate|].
    destruct (cls_ok fl p y); [|discriminate].
    exists (advance y t st). split; [exact H|split; [simpl; lia|reflexivity]].
  - unfold step_char in H. destruct (m_rest st) as [|y t] eqn:E; [discriminate|].
    destruct (negb (cls_ok fl p y)); [|discriminate].
    exists (advance y t st). split; [exact H|split; [simpl; lia|reflexivity]].
  - unfold step_char in H. destruct (m_rest st) as [|y t] eqn:E; [discriminate|].
    destruct (dot_ok fl y); [|discriminate].
    exists (advance y t st). split; [exact H|split; [simpl; lia|reflexivity]].
  - destruct (IHa _ _ _ H) as (st1 & H1 & L1 & C1).
    destruct (IHb _ _ _ H1) as (st2 & H2 & L2 & C2).
    exists st2. split; [exact H2|split; [lia|]].
    simpl. intros [Ha Hb]%andb_true_iff. rewrite C2, C1; auto.
  - destruct (m_re fl a st k) as [y|] eqn:E.
    + injection H as ->. destruct (IHa _ _ _ E) as (st1 & H1 & L1 & C1).
      exists st1. split; [exact H1|split; [lia|]].
      simpl. intros [Ha Hb]%andb_true_iff. auto.
    + destruct (IHb _ _ _ H) as (st1 & H1 & L1 & C1).
      exists st1. split; [exact H1|split; [lia|]].
      simpl. intros [Ha Hb]%andb_true_iff. auto.
  - revert H. generalize (length (m_rest st)) at 1. intros n. revert st.
    induction n as [|n IHn]; intros st H.
    + exists st. split; [exact H|split; [lia|reflexivity]].
    + destruct g.
      * destruct (m_re fl a st _) as [y|] eqn:E.
        -- injection H as ->.
           destruct (IHa _ _ _ E) as (st1 & H1 & L1 & C1).
           destruct (length (m_rest st1) <? length (m_rest st))%nat;
             [|discriminate].
           destruct (IHn _ H1) as (st2 & H2 & L2 & C2).
           exists st2. split; [exact H2|split; [lia|]].
           simpl. intros Ha. rewrite C2, C1; auto.
        -- exists st. split; [exact H|split; [lia|reflexivity]].
      * destruct (k st) as [y|] eqn:E.
        -- injection H as ->. exists st.
           split; [exact E|split; [lia|reflexivity]].
        -- destruct (IHa _ _ _ H) as (st1 & H1 & L1 & C1).
           destruct (length (m_rest st1) <? length (m_rest st))%nat;
             [|discriminate].
           destruct (IHn _ H1) as (st2 & H2 & L2 & C2).
           exists st2. split; [exact H2|split; [lia|]].
           simpl. intros Ha. rewrite C2, C1; auto.
  - destruct (IHa _ _ _ H) as (st1 & H1 & L1 & C1).
    exists (close_group st st1).
    split; [exact H1|split; [exact L1|discriminate]].
  - destruct (m_re fl a st Some); [|discriminate].
    exists st. split; [exact H|split; [lia|reflexivity]].
  - destruct (at_eos st); [|discriminate].
    exists st. split; [exact H|split; [lia|reflexivity]].
  - destruct (at_wordb st); [|discriminate].
    exists st. split; [exact H|split; [lia|reflexivity]].
Qed.

Lemma m_re_forward (fl : flags) (r : regex) :
  forall (st : mstate) (k : mstate -> option mstate) (x : mstate),
    m_re fl r st k = Some x ->
    exists st', k st' = Some x
                /\ (length (m_rest st') <= length (m_rest st))%nat.
Proof.
  intros st k x H.
  destruct (m_re_forward_cap fl r st k x H) as (st' & H1 & L & _). eauto.
Qed.








(** A match object carries the text between its two positions. *)
Lemma match_at_inv (fl : flags) (r : regex) (prev : option N) (s : str)
    (i : nat) (m : rmatch) :
  match_at fl r prev s i = Some m ->
  exists st1, m_re fl r (MState prev s None) Some = Some st1
              /\ mt_text m = consumed (MState prev s None) st1
              /\ mt_group1 m = m_cap st1.
Proof.
  unfold match_at. destruct (m_re fl r _ Some) as [st1|]; [|discriminate].
  intros [= <-]. exists st1. repeat split.
Qed.

Lemma search_from_inv (fl : flags) (r : regex) (s : str) :
  forall (prev : option N) (i : nat) (m : rmatch),
    search_from fl r prev s i = Some m ->
    exists prev' s' i', match_at fl r prev' s' i' = Some m.
Proof.
  induction s as [|c t IH]; intros prev i m; simpl.
  - destruct (match_at fl r prev [] i) as [m'|] eqn:E; [|discriminate].
    intros [= <-]. eauto.
  - destruct (match_at fl r prev (c :: t) i) as [m'|] eqn:E.
    + intros [= <-]. eauto.
    + apply IH.
Qed.









(** ** Values that the detail stage assigns are not empty *)









(** One or more characters of a class: at least one is read. *)
Lemma consuming_plus (fl : flags) (g : bool) (p : N -> bool) :
  consuming fl (Plus g (Cls p)).
Proof.
  intros st k x H. unfold Plus in H. cbn [m_re] in H.
  unfold step_char at 1 in H.
  destruct (m_rest st) as [|c t] eqn:E; [discriminate|].
  destruct (cls_ok fl p c); [|discriminate].
  destruct (m_re_forward fl (Star g (Cls p)) _ _ _ H) as (st' & H1 & L).
  exists st'. split; [exact H1|simpl in L; simpl; lia].
Qed.

(** In a pattern [pre (g) post] whose group always reads something and
    whose tail has no group, the text of the group is not empty. *)
Lemma group_capture_nonempty (fl : flags) (pre g post : regex)
    (st x : mstate) :
  nogrp post = true -> consuming fl g ->
  m_re fl (Seq pre (Seq (Grp g) post)) st Some = Some x ->
  exists w, m_cap x = Some w /\ w <> [].
Proof.
  intros Hpost Hg H. cbn [m_re] in H.
  destruct (m_re_forward fl pre _ _ _ H) as (st1 & H1 & _).
  destruct (Hg _ _ _ H1) as (st2 & H2 & L2).
  destruct (m_re_forward_cap fl post _ _ _ H2) as (st3 & [= ->] & _ & C3).
  exists (consumed st1 st2). split; [rewrite (C3 Hpost); reflexivity|].
  unfold consumed. destruct (m_rest st1) as [|c t]; [simpl in L2; lia|].
  replace (length (c :: t) - length (m_rest st2))%nat
    with (S (length t - length (m_rest st2)))%nat by (simpl in *; lia).
  discriminate.
Qed.

(** The group of the SKU pattern reads at least one character. *)
Lemma sku_group_nonempty (path : str) (m : rmatch) :
  search no_flags Comprehensive.sku_re path = Some m -> group1 m <> [].
Proof.
  intros Hs. unfold search in Hs.
  destruct (search_from_inv _ _ _ _ _ _ Hs) as (prev & s & i & Hm).
  destruct (match_at_inv _ _ _ _ _ _ Hm) as (st1 & H & _ & Hg).
  unfold group1. rewrite Hg.
  unfold Comprehensive.sku_re in H. cbn [Seqs] in H.
  destruct (group_capture_nonempty no_flags _ _ (Alt (Lit (ch "?")) Eos)
              _ _ eq_refl (consuming_plus _ _ _) H) as (w & -> & Hw).
  exact Hw.
Qed.

(** ** The merge of the detail stage into a draft (C5) *)








Section Merge.
Context {urls : UrlLib} {order : SetOrder}.
Import Comprehensive.



Lemma extract_price_info_shape (text c o d : str) :
  extract_price_info text = (c, o, d) -> c = [] -> o = [] /\ d = [].
Proof.
  unfold extract_price_info.
  destruct (negb (truthy text)); [intros [= <- <- <-]; auto|].
  destruct (findall_group no_flags price_re text) as [|m0 [|m1 rest]];
    intros [= <- <- <-]; auto; discriminate.
Qed.







(** [urljoin] on the site's base never returns the empty string. *)
Hypothesis urljoin_base_nonempty :
  forall u r, urljoin base_url u = Some r -> r <> [].



End Merge.

(** The listing stage produces drafts of the expected kind. *)
Lemma listing_product_draft `{!UrlLib} (stamp : str) (page : soup)
    (category_name : str) (link : str * str) :
  Comprehensive.name_ok link.1 = true ->
  listing_draft
    (Comprehensive.listing_product stamp page category_name link).
Proof.
  destruct link as [product_name product_url]. simpl fst. intros Hok.
  assert (Hname : product_name <> []).
  { unfold Comprehensive.name_ok in Hok.
    destruct product_name; [discriminate|discriminate]. }
  unfold Comprehensive.listing_product.
  destruct (contains product_name (page_text page)).
  - destruct (find product_name (page_text page)) as [i|].
    + destruct (extract_price_info _) as [[c o] d] eqn:E.
      pose proof (extract_price_info_shape _ _ _ _ E) as Hshape.
      destruct (Comprehensive.listing_packaging_type _ _);
        (split; [exact Hname|exact Hshape]).
    + destruct (Comprehensive.listing_packaging_type _ _);
        (split; [exact Hname|intros _; split; reflexivity]).
  - destruct (Comprehensive.listing_packaging_type _ _);
      (split; [exact Hname|intros _; split; reflexivity]).
Qed.

Lemma collect_links_ok `{!UrlLib} (links : list (str * str))
    (category_url : str) (found : list (str * str)) :
  Comprehensive.collect_links links category_url = Some found ->
  Forall (fun link => Comprehensive.name_ok link.1 = true) found.
Proof.
  revert found. induction links as [|[href text] rest IH]; intros found; simpl.
  - intros [= <-]. constructor.
  - destruct (Comprehensive.href_ok href category_url); [|apply IH].
    destruct (urljoin _ href) as [full_url|]; [|discriminate]. simpl.
    destruct (Comprehensive.collect_links rest category_url) as [more|];
      [|discriminate]. simpl.
    destruct (Comprehensive.name_ok (Comprehensive.clean_text text)) eqn:E;
      intros [= <-]; [constructor; [exact E|]|]; apply IH; reflexivity.
Qed.

(** Every product that [extract_products_from_page] returns has a name,
    and has no original price or discount without a current price. *)
Lemma listing_stage_drafts `{!UrlLib} `{!SetOrder} (stamp : str)
    (page : soup) (category_url : str) (drafts : list Product) :
  Comprehensive.extract_products_from_page stamp page category_url
    = Some drafts ->
  Forall listing_draft drafts.
Proof.
  unfold Comprehensive.extract_products_from_page.
  destruct (Comprehensive.get_category_name_from_url category_url)
    as [category_name|]; [|discriminate]. simpl.
  destruct (Comprehensive.collect_links (page_links page) category_url)
    as [found|] eqn:E; [|discriminate]. simpl.
  intros [= <-]. apply Forall_fmap, Forall_forall. intros link Hlink.
  apply (proj1 (list_of_set_elem _ _)) in Hlink.
  pose proof (collect_links_ok _ _ _ E) as Hall.
  rewrite Forall_forall in Hall.
  apply listing_product_draft, Hall, Hlink.
Qed.



(* ===================================================================== *)
(** * Part III. Further properties of the scrapers                       *)
(* ===================================================================== *)

(** ** Substitution of the runs of a character class *)

Lemma run_after_run (ok : N -> bool) (s : str) :
  run_of ok s ++ after_run ok s = s.
Proof.
  induction s as [|c t IH]; [reflexivity|]. simpl.
  destruct (ok c); [simpl; rewrite IH|]; reflexivity.
Qed.

Lemma after_run_head (ok : N -> bool) (s : str) :
  match after_run ok s with c :: _ => ok c = false | [] => True end.
Proof.
  induction s as [|c t IH]; [exact I|]. simpl.
  destruct (ok c) eqn:E; [exact IH|exact E].
Qed.

Lemma star_rounds_eq (fl : flags) (a : regex) (st : mstate)
    (k : mstate -> option mstate) :
  m_re fl (Star true a) st k = star_rounds fl a k (length (m_rest st)) st.
Proof. reflexivity. Qed.

Lemma star_rounds_class (fl : flags) (a : regex) (ok : N -> bool) :
  one_char fl a ok ->
  forall (n : nat) (prev : option N) (s : str) (cap : option str),
    (length s <= n)%nat ->
    star_rounds fl a Some n (MState prev s cap)
    = Some (MState (last_read prev (run_of ok s)) (after_run ok s) cap).
Proof.
  intros Ha. induction n as [|n IH]; intros prev s cap Hn.
  - destruct s; [reflexivity|simpl in Hn; lia].
  - simpl. rewrite Ha. unfold step_char. simpl.
    destruct s as [|x t]; [reflexivity|].
    destruct (ok x) eqn:Hx; [|simpl; rewrite Hx; reflexivity].
    simpl. rewrite Hx.
    replace (length t <? S (length t))%nat with true
      by (symmetry; apply Nat.ltb_lt; lia).
    unfold advance. simpl. rewrite IH by (simpl in Hn; lia).
    do 2 f_equal. unfold last_read.
    change (x :: run_of ok t) with ([x] ++ run_of ok t).
    destruct (run_of ok t) as [|y l] eqn:E; [reflexivity|].
    rewrite last_app. simpl last at 2.
    destruct (last (y :: l)) as [z|] eqn:El; [reflexivity|].
    apply last_None in El. discriminate.
Qed.

Lemma plus_match_at (fl : flags) (a : regex) (ok : N -> bool)
    (prev : option N) (s : str) (i : nat) :
  one_char fl a ok ->
  match_at fl (Plus true a) prev s i
  = match s with
    | x :: t =>
        if ok x
        then Some (RMatch i (x :: run_of ok t) None
                     (MState (last_read (Some x) (run_of ok t))
                             (after_run ok t) None))
        else None
    | [] => None
    end.
Proof.
  intros Ha. unfold match_at, Plus.
  change (m_re fl (Seq a (Star true a)) (MState prev s None) Some)
    with (m_re fl a (MState prev s None)
            (fun st1 => m_re fl (Star true a) st1 Some)).
  rewrite Ha. unfold step_char. cbn [m_rest].
  destruct s as [|x t]; [reflexivity|].
  destruct (ok x); [|reflexivity].
  rewrite star_rounds_eq. unfold advance. cbn [m_rest m_cap].
  rewrite (star_rounds_class fl a ok Ha) by reflexivity.
  do 2 f_equal.
  pose proof (consumed_app prev (last_read (Some x) (run_of ok t))
                (x :: run_of ok t) (after_run ok t) None None) as Hc.
  simpl app in Hc. rewrite run_after_run in Hc. exact Hc.
Qed.

Lemma plus_search_from (fl : flags) (a : regex) (ok : N -> bool) :
  one_char fl a ok ->
  forall (s : str) (prev : option N) (i : nat),
    match search_from fl (Plus true a) prev s i with
    | None => forallb (fun c => negb (ok c)) s = true
    | Some m =>
        exists pre x t,
          s = pre ++ x :: t
          /\ forallb (fun c => negb (ok c)) pre = true
          /\ ok x = true
          /\ m = RMatch (i + length pre) (x :: run_of ok t) None
                   (MState (last_read (Some x) (run_of ok t))
                           (after_run ok t) None)
    end.
Proof.
  intros Ha. induction s as [|x t IH]; intros prev i.
  - simpl. rewrite (plus_match_at fl a ok prev [] i Ha). reflexivity.
  - cbn [search_from]. rewrite (plus_match_at fl a ok prev (x :: t) i Ha).
    destruct (ok x) eqn:Hx.
    + exists [], x, t. simpl. rewrite Nat.add_0_r. auto.
    + specialize (IH (Some x) (S i)).
      destruct (search_from fl (Plus true a) (Some x) t (S i)) as [m|].
      * destruct IH as (pre & y & t' & -> & Hpre & Hy & ->).
        exists (x :: pre), y, t'. simpl. rewrite Hx, Hpre.
        repeat split; auto. do 2 f_equal. lia.
      * simpl. rewrite Hx. exact IH.
Qed.

Lemma squeeze_outside (ok : N -> bool) (repl pre s : str) (b : bool) :
  forallb (fun c => negb (ok c)) pre = true ->
  squeeze ok repl b (pre ++ s)
  = pre ++ match pre with [] => squeeze ok repl b s
           | _ => squeeze ok repl false s end.
Proof.
  revert b. induction pre as [|c t IH]; intros b H; [reflexivity|].
  simpl in H. apply andb_true_iff in H. destruct H as [Hc Ht].
  apply negb_true_iff in Hc. simpl. rewrite Hc. f_equal.
  rewrite (IH false Ht). destruct t; reflexivity.
Qed.

Lemma squeeze_in_run (ok : N -> bool) (repl s : str) :
  squeeze ok repl true s = squeeze ok repl false (after_run ok s).
Proof.
  induction s as [|c t IH]; [reflexivity|]. simpl.
  destruct (ok c) eqn:E; [exact IH|]. simpl. rewrite E. reflexivity.
Qed.

Lemma plus_sub_from (fl : flags) (a : regex) (ok : N -> bool) (repl : str) :
  one_char fl a ok ->
  forall (n : nat) (s : str) (prev : option N),
    (length s < n)%nat ->
    sub_from n fl (Plus true a) repl prev s = squeeze ok repl false s.
Proof.
  intros Ha. induction n as [|n IH]; intros s prev Hn; [lia|].
  cbn [sub_from]. pose proof (plus_search_from fl a ok Ha s prev 0) as H.
  destruct (search_from fl (Plus true a) prev s 0) as [m|].
  - destruct H as (pre & x & t & -> & Hpre & Hx & ->).
    cbn [mt_start mt_text mt_end m_rest m_prev]. simpl plus.
    rewrite take_app_length.
    rewrite IH.
    2:{ rewrite length_app in Hn. simpl in Hn.
        pose proof (f_equal length (run_after_run ok t)) as L.
        rewrite length_app in L. lia. }
    transitivity (pre ++ squeeze ok repl false (x :: t)).
    2:{ symmetry. rewrite (squeeze_outside ok repl pre (x :: t) false Hpre).
        destruct pre; reflexivity. }
    f_equal. simpl. rewrite Hx. f_equal. symmetry. apply squeeze_in_run.
  - symmetry. clear IH Hn. induction s as [|c t IHs]; [reflexivity|].
    simpl in H. apply andb_true_iff in H. destruct H as [Hc Ht].
    apply negb_true_iff in Hc. simpl. rewrite Hc, (IHs Ht). reflexivity.
Qed.

(** [re.sub] of a pattern [a+], [a] a character class, replaces every
    maximal run of characters of the class. *)
Lemma plus_sub (fl : flags) (a : regex) (ok : N -> bool) (repl s : str) :
  one_char fl a ok ->
  sub fl (Plus true a) repl s = squeeze ok repl false s.
Proof. intros Ha. unfold sub. apply plus_sub_from; [exact Ha|lia]. Qed.

Lemma one_char_Cls (p : N -> bool) : one_char no_flags (Cls p) p.
Proof.
  intros st k. simpl. unfold step_char.
  destruct (m_rest st) as [|x t]; [reflexivity|].
  unfold cls_ok. simpl. rewrite orb_false_r. reflexivity.
Qed.


(** ** [clean_text] *)

Lemma lstrip_head (s : str) :
  match lstrip s with c :: _ => isspace c = false | [] => True end.
Proof.
  induction s as [|c t IH]; [exact I|]. simpl.
  destruct (isspace c) eqn:E; [exact IH|exact E].
Qed.

Lemma lstrip_suffix (s : str) : exists pre, s = pre ++ lstrip s.
Proof.
  induction s as [|c t [pre IH]]; [exists []; reflexivity|]. simpl.
  destruct (isspace c); [exists (c :: pre); simpl; congruence|].
  exists []. reflexivity.
Qed.

Lemma last_rev (l : str) : last (rev l) = head l.
Proof. destruct l as [|x t]; [reflexivity|]. simpl. apply last_snoc. Qed.

Lemma strip_last (s : str) (c : N) :
  last (strip s) = Some c -> isspace c = false.
Proof.
  unfold strip, rstrip. rewrite last_rev.
  pose proof (lstrip_head (rev (lstrip s))) as H.
  destruct (lstrip (rev (lstrip s))) as [|x l]; [discriminate|].
  simpl. intros [= <-]. exact H.
Qed.

Lemma strip_head (s : str) (c : N) :
  head (strip s) = Some c -> isspace c = false.
Proof.
  unfold strip, rstrip.
  pose proof (lstrip_head s) as Hs.
  destruct (lstrip_suffix (rev (lstrip s))) as [pre E].
  apply (f_equal (@rev N)) in E. rewrite rev_involutive, rev_app_distr in E.
  destruct (rev (lstrip (rev (lstrip s)))) as [|x l]; [discriminate|].
  rewrite E in Hs. simpl in Hs. simpl. intros [= <-]. exact Hs.
Qed.

Lemma squeeze_space_tidy (u : str) :
  (forall c, last u = Some c -> isspace c = false) ->
  tidy_from false (squeeze isspace [32%N] false u) = true
  /\ (u <> [] -> tidy_from true (squeeze isspace [32%N] true u) = true).
Proof.
  induction u as [|c t IH]; intros Hlast.
  - split; [reflexivity|intros H; contradiction].
  - assert (Ht : forall c0, last t = Some c0 -> isspace c0 = false).
    { intros c0 H0. apply Hlast. destruct t; [discriminate|exact H0]. }
    destruct (IH Ht) as [IH1 IH2]. simpl.
    destruct (isspace c) eqn:Hc.
    + assert (Hne : t <> []).
      { intros ->. rewrite (Hlast c eq_refl) in Hc. discriminate. }
      split; [|intros _; exact (IH2 Hne)].
      simpl. rewrite (IH2 Hne). reflexivity.
    + simpl. rewrite Hc. split; [exact IH1|intros _; exact IH1].
Qed.

Lemma replace_quote_tidy (b : bool) (s : str) :
  tidy_from b (replace_c 34 [34%N; 34%N] s) = tidy_from b s.
Proof.
  revert b. induction s as [|c t IH]; intros b; [reflexivity|].
  unfold replace_c in *. simpl.
  destruct (c =? 34)%N eqn:E.
  - apply N.eqb_eq in E. subst c. simpl. apply IH.
  - simpl. destruct (isspace c); rewrite IH; reflexivity.
Qed.

Lemma clean_text_tidy (text : str) :
  tidy (Comprehensive.clean_text text) = true.
Proof.
  unfold Comprehensive.clean_text.
  destruct (negb (truthy text)); [reflexivity|].
  rewrite (plus_sub no_flags (Cls isspace) isspace (py " ") (strip text)
             (one_char_Cls isspace)).
  change (py " ") with [32%N]. change Comprehensive.quote with 34%N.
  pose proof (strip_head text) as Hh. pose proof (strip_last text) as Hl.
  destruct (strip text) as [|c t]; [reflexivity|].
  specialize (Hh c eq_refl).
  assert (Ht : forall c0, last t = Some c0 -> isspace c0 = false).
  { intros c0 H0. apply Hl. destruct t; [discriminate|exact H0]. }
  destruct (squeeze_space_tidy t Ht) as [H1 _].
  simpl squeeze. rewrite Hh.
  assert (E : tidy_from true
                (replace_c 34 [34%N; 34%N]
                   (c :: squeeze isspace [32%N] false t)) = true).
  { rewrite replace_quote_tidy. simpl. rewrite Hh. exact H1. }
  unfold tidy.
  destruct (replace_c 34 [34%N; 34%N] (c :: squeeze isspace [32%N] false t));
    [reflexivity|exact E].
Qed.

Lemma tidy_from_spaces (b : bool) (s : str) :
  tidy_from b s = true ->
  forall c, c ∈ s -> isspace c = true -> c = 32%N.
Proof.
  revert b. induction s as [|x t IH]; intros b H c Hc Hs.
  - apply elem_of_nil in Hc. contradiction.
  - simpl in H. apply elem_of_cons in Hc. destruct Hc as [->|Hc].
    + rewrite Hs in H. apply andb_true_iff in H. destruct H as [H _].
      apply andb_true_iff in H. destruct H as [H _]. apply N.eqb_eq, H.
    + destruct (isspace x).
      * apply andb_true_iff in H. destruct H as [_ H]. exact (IH _ H c Hc Hs).
      * exact (IH _ H c Hc Hs).
Qed.

Lemma tidy_from_apart (b : bool) (s : str) :
  tidy_from b s = true ->
  forall (i : nat) (x y : N),
    s !! i = Some x -> s !! S i = Some y ->
    isspace x = true -> isspace y = false.
Proof.
  revert b. induction s as [|c t IH]; intros b H i x y Hx Hy Hs.
  - discriminate.
  - simpl in H. destruct i as [|i].
    + simpl in Hx. injection Hx as ->. rewrite Hs in H.
      apply andb_true_iff in H. destruct H as [_ H].
      destruct t as [|z t']; [discriminate|].
      simpl in Hy. injection Hy as ->. simpl in H.
      destruct (isspace y); [|reflexivity].
      rewrite andb_false_r in H. discriminate.
    + assert (Ht : exists b', tidy_from b' t = true).
      { destruct (isspace c); [|eauto].
        apply andb_true_iff in H. destruct H as [_ H]. eauto. }
      destruct Ht as [b' Ht]. exact (IH b' Ht i x y Hx Hy Hs).
Qed.

Lemma tidy_from_last (b : bool) (s : str) (c : N) :
  tidy_from b s = true -> last s = Some c -> isspace c = false.
Proof.
  revert b. induction s as [|x t IH]; intros b H Hl; [discriminate|].
  simpl in H. destruct t as [|y t'].
  - simpl in Hl. injection Hl as ->.
    destruct (isspace c); [|reflexivity].
    simpl in H. rewrite andb_false_r in H. discriminate.
  - change (last (x :: y :: t')) with (last (y :: t')) in Hl.
    destruct (isspace x).
    + apply andb_true_iff in H. destruct H as [_ H]. exact (IH _ H Hl).
    + exact (IH _ H Hl).
Qed.

Lemma tidy_spacing (out : str) :
  tidy out = true ->
  (forall c, c ∈ out -> isspace c = true -> c = 32%N)
  /\ (forall (i : nat) (x y : N),
        out !! i = Some x -> out !! S i = Some y ->
        isspace x = true -> isspace y = false)
  /\ (forall c, head out = Some c -> isspace c = false)
  /\ (forall c, last out = Some c -> isspace c = false).
Proof.
  intros H. unfold tidy in H. destruct out as [|c t].
  - repeat split; intros; try discriminate.
    match goal with H0 : _ ∈ [] |- _ => apply elem_of_nil in H0; contradiction end.
  - split; [exact (tidy_from_spaces true _ H)|].
    split; [exact (tidy_from_apart true _ H)|].
    split; [|intros c0; exact (tidy_from_last true _ c0 H)].
    intros c0 [= <-]. simpl in H.
    destruct (isspace c); [|reflexivity].
    rewrite andb_false_r in H. discriminate.
Qed.

(** X1. [clean_text] of the comprehensive, the targeted and the detailed
    scraper leaves white space only as single spaces between other
    characters: no tab or line break survives, no two spaces are adjacent,
    and the text neither starts nor ends with a space. *)
Theorem clean_text_single_spaced (text : str) :
  Forall (fun out : str =>
            (forall c, c ∈ out -> isspace c = true -> c = 32%N)
            /\ (forall (i : nat) (x y : N),
                  out !! i = Some x -> out !! S i = Some y ->
                  isspace x = true -> isspace y = false)
            /\ (forall c, head out = Some c -> isspace c = false)
            /\ (forall c, last out = Some c -> isspace c = false))
         [ Comprehensive.clean_text text; Targeted.clean_text text;
           Detailed.clean_text text ].
Proof.
  repeat constructor; apply tidy_spacing; exact (clean_text_tidy text).
Qed.



(** ** Captured groups *)

(** After a match, the group holds what it held before or a word of the
    pattern it encloses. *)
Lemma m_re_caps (fl : flags) (r : regex) :
  forall (st : mstate) (k : mstate -> option mstate) (x : mstate),
    m_re fl r st k = Some x ->
    exists st', k st' = Some x
                /\ (m_cap st' = m_cap st
                    \/ exists w, m_cap st' = Some w /\ caps fl r w).
Proof.
  induction r as [|c|p|p| |a IHa b IHb|a IHa b IHb|g a IHa|a IHa|a IHa| |];
    intros st k x H; simpl in H.
  - eauto.
  - unfold step_char in H. destruct (m_rest st) as [|y t]; [discriminate|].
    destruct (lit_ok fl c y); [|discriminate]. eauto.
  - unfold step_char in H. destruct (m_rest st) as [|y t]; [discriminate|].
    destruct (cls_ok fl p y); [|discriminate]. eauto.
  - unfold step_char in H. destruct (m_rest st) as [|y t]; [discriminate|].
    destruct (negb (cls_ok fl p y)); [|discriminate]. eauto.
  - unfold step_char in H. destruct (m_rest st) as [|y t]; [discriminate|].
    destruct (dot_ok fl y); [|discriminate]. eauto.
  - destruct (IHa _ _ _ H) as (st1 & H1 & C1).
    destruct (IHb _ _ _ H1) as (st2 & H2 & C2).
    exists st2. split; [exact H2|]. simpl.
    destruct C2 as [C2|(w & C2 & Hw)]; [|right; eauto].
    rewrite C2. destruct C1 as [C1|(w & C1 & Hw)]; [left; exact C1|].
    right; eauto.
  - destruct (m_re fl a st k) as [y|] eqn:E.
    + injection H as ->. destruct (IHa _ _ _ E) as (st1 & H1 & C1).
      exists st1. split; [exact H1|]. simpl.
      destruct C1 as [C1|(w & C1 & Hw)]; [left; exact C1|right; eauto].
    + destruct (IHb _ _ _ H) as (st1 & H1 & C1).
      exists st1. split; [exact H1|]. simpl.
      destruct C1 as [C1|(w & C1 & Hw)]; [left; exact C1|right; eauto].
  - revert H. generalize (length (m_rest st)) at 1. intros n. revert st.
    induction n as [|n IHn]; intros st H; [eauto|].
    destruct g.
    + destruct (m_re fl a st _) as [y|] eqn:E; [|eauto].
      injection H as ->.
      destruct (IHa _ _ _ E) as (st1 & H1 & C1).
      destruct (length (m_rest st1) <? length (m_rest st))%nat;
        [|discriminate].
      destruct (IHn _ H1) as (st2 & H2 & C2).
      exists st2. split; [exact H2|].
      destruct C2 as [C2|(w & C2 & Hw)]; [|right; eauto].
      rewrite C2. destruct C1 as [C1|(w & C1 & Hw)]; [left; exact C1|].
      right; eauto.
    + destruct (k st) as [y|] eqn:E; [injection H as ->; eauto|].
      destruct (IHa _ _ _ H) as (st1 & H1 & C1).
      destruct (length (m_rest st1) <? length (m_rest st))%nat;
        [|discriminate].
      destruct (IHn _ H1) as (st2 & H2 & C2).
      exists st2. split; [exact H2|].
      destruct C2 as [C2|(w & C2 & Hw)]; [|right; eauto].
      rewrite C2. destruct C1 as [C1|(w & C1 & Hw)]; [left; exact C1|].
      right; eauto.
  - destruct (m_re_lang fl a _ _ _ H) as (st1 & w & H1 & E1 & L1).
    exists (close_group st st1). split; [exact H1|]. right. exists w.
    split; [|exact L1]. simpl. f_equal.
    destruct st as [p0 r0 c0], st1 as [p1 r1 c1]. simpl in E1. subst r0.
    apply consumed_app.
  - destruct (m_re fl a st Some); [|discriminate]. eauto.
  - destruct (at_eos st); [|discriminate]. eauto.
  - destruct (at_wordb st); [|discriminate]. eauto.
Qed.

(** [match.group(1)] of a successful search is empty (the group took no
    part) or a word of the group's pattern. *)
Lemma search_group1 (fl : flags) (r : regex) (s : str) (m : rmatch) :
  search fl r s = Some m -> group1 m = [] \/ caps fl r (group1 m).
Proof.
  unfold search. intros H. apply search_from_inv in H.
  destruct H as (prev & s' & i & H). apply match_at_inv in H.
  destruct H as (st1 & H & _ & Hg).
  destruct (m_re_caps fl r _ _ _ H) as (st' & [= <-] & C).
  unfold group1. rewrite Hg.
  destruct C as [C|(w & C & Hw)]; rewrite C; [left; reflexivity|right; exact Hw].
Qed.

(** ** [extract_unit_size] *)








(** ** Prices *)

(** X4. The [except (ValueError, ZeroDivisionError)] clause of
    [extract_price_info] is never entered: the first two tokens of a text
    always stand for numbers, and the division is only made by a number
    that is not zero, so that the discount is the formatted percentage when
    the second number is the greater one and empty otherwise. *)
Theorem price_handler_never_needed (text A B : str) (rest : list str) :
  findall_group no_flags price_re text = A :: B :: rest ->
  exists a b : float,
    amount (rupee :: A) = Some a
    /\ amount (rupee :: B) = Some b
    /\ discount_text (rupee :: A) (rupee :: B)
       = if PrimFloat.ltb a b
         then format_1f ((b - a) / b * 100)%float ++ py "%"
         else [].
Proof.
  intros Hfind.
  destruct (price_tokens_have_amounts text A) as [a Ha];
    [rewrite Hfind; apply list_elem_of_here|].
  destruct (price_tokens_have_amounts text B) as [b Hb];
    [rewrite Hfind; apply list_elem_of_further, list_elem_of_here|].
  exists a, b. split; [exact Ha|]. split; [exact Hb|].
  destruct (PrimFloat.ltb a b) eqn:Hlt.
  - exact (discount_text_greater _ _ a b Ha Hb Hlt).
  - unfold discount_text. rewrite Ha, Hb, Hlt. reflexivity.
Qed.

Lemma price_handler_never_needed_witness :
  exists a b : float,
    amount (rupee :: py "1,299.50") = Some a
    /\ amount (rupee :: py "1,500") = Some b
    /\ discount_text (rupee :: py "1,299.50") (rupee :: py "1,500")
       = if PrimFloat.ltb a b
         then format_1f ((b - a) / b * 100)%float ++ py "%"
         else [].
Proof.
  apply (price_handler_never_needed (py "MRP ₹1,299.50 was ₹1,500")
           (py "1,299.50") (py "1,500") []).
  vm_compute. reflexivity.
Defined.

(** X5. The three values that [extract_price_info] returns are nested: there
    is no original price without a current price and no discount without an
    original price; a price that is present starts with the rupee sign; and
    a discount is only given when the original price is a greater number
    than the current one. *)
Theorem price_fields_nested (text : str) :
  let r := extract_price_info text in
  (r.1.2 <> [] -> r.1.1 <> [])
  /\ (r.2 <> [] -> r.1.2 <> [])
  /\ (r.1.1 <> [] -> head r.1.1 = Some rupee)
  /\ (r.1.2 <> [] -> head r.1.2 = Some rupee)
  /\ (r.2 <> [] ->
      exists a b : float,
        amount r.1.1 = Some a /\ amount r.1.2 = Some b
        /\ PrimFloat.ltb a b = true).
Proof.
  unfold extract_price_info.
  assert (Hno : forall P : Prop, (@nil N <> [] -> P)).
  { intros P H. exfalso. exact (H eq_refl). }
  destruct (negb (truthy text)); [simpl; repeat split; apply Hno|].
  destruct (findall_group no_flags price_re text) as [|m0 [|m1 rest]];
    simpl.
  - repeat split; apply Hno.
  - repeat split; try apply Hno; try reflexivity; discriminate.
  - repeat split; try reflexivity; try discriminate.
    unfold discount_text.
    destruct (amount (rupee :: m0)) as [a|]; [|apply Hno].
    destruct (amount (rupee :: m1)) as [b|]; [|apply Hno].
    destruct (PrimFloat.ltb a b) eqn:Hlt; [|apply Hno].
    intros _. exists a, b. auto.
Qed.

Lemma unique_from_first_occurrences (seen : gset str) (l : list str) :
  Perfect.unique_from seen l
  = filter (fun x => x ∉ seen) (first_occurrences l).
Proof.
  revert seen. induction l as [|p rest IH]; intros seen; [reflexivity|].
  simpl. rewrite filter_cons. destruct (decide (p ∈ seen)) as [Hp|Hp].
  - rewrite bool_decide_eq_true_2 by exact Hp.
    rewrite decide_False by (intros H; exact (H Hp)).
    rewrite IH, list_filter_filter. apply list_filter_iff.
    intros x. split; [intros Hx; split; [exact Hx|congruence]|tauto].
  - rewrite bool_decide_eq_false_2 by exact Hp.
    rewrite decide_True by exact Hp. f_equal.
    rewrite IH, list_filter_filter. apply list_filter_iff.
    intros x. rewrite not_elem_of_union, not_elem_of_singleton. tauto.
Qed.

(** The loop that removes duplicate prices keeps each price once, at the
    place of its first occurrence. *)
Lemma unique_prices_first_occurrences (l : list str) :
  Perfect.unique_from ∅ l = first_occurrences l.
Proof.
  rewrite unique_from_first_occurrences. apply filter_all.
  intros x _. apply not_elem_of_empty.
Qed.

Lemma all_prices_shape (text p : str) :
  p ∈ Perfect.all_prices text ->
  p <> [] /\ ch "," ∉ p.
Proof.
  unfold Perfect.all_prices. intros H.
  apply list_elem_of_In, in_flat_map in H. destruct H as (r & _ & H).
  apply in_map_iff in H. destruct H as (m & <- & _).
  split; [discriminate|].
  intros Hc. apply elem_of_app in Hc. destruct Hc as [Hc|Hc].
  - vm_compute in Hc.
    repeat (apply elem_of_cons in Hc; destruct Hc as [Hc|Hc];
            [discriminate|]).
    apply elem_of_nil in Hc. exact Hc.
  - unfold replace_c in Hc. apply list_elem_of_In, in_flat_map in Hc.
    destruct Hc as (c & _ & Hc).
    destruct (c =? ch ",")%N eqn:E; [destruct Hc|].
    destruct Hc as [Hc|[]]. rewrite Hc, N.eqb_refl in E. discriminate.
Qed.

(** X6. The prices that [extract_perfect_price_info] returns: there is no
    original price and no discount without a current price; the original
    price, when there is one, is a different string from the current price
    (duplicates were removed before the two were taken); and neither holds
    a comma. *)
Theorem perfect_prices_distinct (text : str) :
  let r := Perfect.extract_perfect_price_info text in
  (r.1.1 = [] -> r.1.2 = [] /\ r.2 = [])
  /\ (r.1.2 <> [] -> r.1.1 <> r.1.2)
  /\ (ch "," ∉ r.1.1) /\ (ch "," ∉ r.1.2).
Proof.
  unfold Perfect.extract_perfect_price_info.
  pose proof (NoDup_first_occurrences (Perfect.all_prices text)) as Hnd.
  assert (Hin : forall p, p ∈ first_occurrences (Perfect.all_prices text) ->
                          p <> [] /\ ch "," ∉ p).
  { intros p Hp. apply (proj1 (elem_of_first_occurrences _ _)) in Hp.
    exact (all_prices_shape text p Hp). }
  rewrite unique_prices_first_occurrences.
  destruct (first_occurrences (Perfect.all_prices text)) as [|c [|o more]];
    simpl.
  - split; [auto|]. split; [auto|]. split; apply not_elem_of_nil.
  - destruct (Hin c (list_elem_of_here _ _)) as [Hc1 Hc2].
    split; [intros H; contradiction|].
    split; [intros H; contradiction|].
    split; [exact Hc2|apply not_elem_of_nil].
  - destruct (Hin c (list_elem_of_here _ _)) as [Hc1 Hc2].
    destruct (Hin o (list_elem_of_further _ _ _ (list_elem_of_here _ _)))
      as [Ho1 Ho2].
    split; [intros H; contradiction|].
    split; [|split; [exact Hc2|exact Ho2]].
    intros _ ->. apply NoDup_cons in Hnd. destruct Hnd as [Hnd _].
    apply Hnd, list_elem_of_here.
Qed.

(** ** The detail stage *)

Section DetailStage.
Context {urls : UrlLib} {order : SetOrder}.
Import Comprehensive.

Ltac step_cases :=
  repeat match goal with
         | |- context [match ?x with _ => _ end] => destruct x
         | |- context [if ?b then _ else _] => destruct b
         end.

Lemma steps_keep_listing_fields (page : soup) (p : Product) :
  Forall (fun f : Product -> str =>
            f (name_step page p) = f p
            /\ f (description_step page p) = f p
            /\ f (price_step page p) = f p
            /\ f (ingredients_step page p) = f p
            /\ f (tags_step page p) = f p
            /\ f (unit_size_step page p) = f p
            /\ (forall v, f (set_product_image_url v p) = f p)
            /\ (forall v, f (set_sku_code v p) = f p))
         listing_fields.
Proof.
  unfold listing_fields, name_step, description_step, price_step,
    ingredients_step, tags_step, unit_size_step.
  repeat constructor; step_cases; reflexivity.
Qed.

Lemma detail_body_listing_fields (page : soup) (p : Product) :
  Forall (fun f : Product -> str => f (detail_body page p) = f p)
         listing_fields.
Proof.
  apply Forall_forall. intros f Hf.
  assert (K : forall q,
             f (name_step page q) = f q
             /\ f (description_step page q) = f q
             /\ f (price_step page q) = f q
             /\ f (ingredients_step page q) = f q
             /\ f (tags_step page q) = f q
             /\ f (unit_size_step page q) = f q
             /\ (forall v, f (set_product_image_url v q) = f q)
             /\ (forall v, f (set_sku_code v q) = f q)).
  { intros q. pose proof (steps_keep_listing_fields page q) as H.
    rewrite Forall_forall in H. exact (H f Hf). }
  assert (K1 : forall q, f (name_step page q) = f q) by (intros; apply K).
  assert (K2 : forall q, f (description_step page q) = f q) by (intros; apply K).
  assert (K3 : forall q, f (price_step page q) = f q) by (intros; apply K).
  assert (K4 : forall q, f (ingredients_step page q) = f q) by (intros; apply K).
  assert (K5 : forall q, f (tags_step page q) = f q) by (intros; apply K).
  assert (K6 : forall q, f (unit_size_step page q) = f q) by (intros; apply K).
  assert (K7 : forall v q, f (set_product_image_url v q) = f q)
    by (intros; apply K).
  assert (K8 : forall v q, f (set_sku_code v q) = f q) by (intros; apply K).
  unfold detail_body.
  destruct (image_source (page_imgs page)) as [src|].
  - destruct (urljoin base_url src) as [u|].
    + destruct (urlparse_path _) as [url_path|].
      * destruct (search no_flags sku_re url_path);
          rewrite K6, ?K8, K5, K4, K7, K3, K2, K1; reflexivity.
      * rewrite K5, K4, K7, K3, K2, K1; reflexivity.
    + rewrite K3, K2, K1; reflexivity.
  - destruct (urlparse_path _) as [url_path|].
    + destruct (search no_flags sku_re url_path);
        rewrite K6, ?K8, K5, K4, K3, K2, K1; reflexivity.
    + rewrite K5, K4, K3, K2, K1; reflexivity.
Qed.

(** X7. Whatever the product page holds, [scrape_product_details] returns the
    product with the fields of the listing stage as they were: the page URL,
    the category and sub-category, the availability, the brand, the
    packaging type, the time stamp, and the fields that no stage fills. *)
Theorem detail_stage_keeps_listing_fields (product : Product)
    (s : scraper Product) :
  match (scrape_product_details product s).1 with
  | Ret r => Forall (fun f : Product -> str => f r = f product)
                    listing_fields
  | Raise _ => True
  end.
Proof.
  assert (Hsame : Forall (fun f : Product -> str => f product = f product)
                         listing_fields)
    by (apply Forall_forall; reflexivity).
  unfold scrape_product_details, bind, get_state, ret. cbn [fst snd].
  destruct (_ || _); [exact Hsame|].
  destruct (safe_request (product_page_url product) 3 s) as [[[page|]|e] s1];
    cbn [fst snd]; [|exact Hsame|exact I].
  apply detail_body_listing_fields.
Qed.

Lemma lang_plus_class (g : bool) (p : N -> bool) (w : str) :
  lang no_flags (Plus g (Cls p)) w -> w <> [] /\ forallb p w = true.
Proof.
  simpl. intros (u & v & -> & (x & -> & Hx) & ws & -> & Hws).
  unfold cls_ok in Hx. simpl in Hx. rewrite orb_false_r in Hx.
  split; [discriminate|]. simpl. rewrite Hx. simpl.
  induction Hws as [|w ws Hw _ IH]; [reflexivity|].
  destruct Hw as (y & -> & Hy).
  unfold cls_ok in Hy. simpl in Hy. rewrite orb_false_r in Hy.
  simpl. rewrite Hy. exact IH.
Qed.

Lemma sku_match_charset (path : str) (m : rmatch) :
  search no_flags sku_re path = Some m ->
  group1 m <> [] /\ forallb sku_char (group1 m) = true.
Proof.
  intros H. pose proof (sku_group_nonempty path m H) as Hne.
  split; [exact Hne|].
  apply search_group1 in H. destruct H as [H|H]; [contradiction|].
  cbn [caps sku_re Seqs] in H. destruct H as [[]|[H|[[]|[]]]].
  exact (proj2 (lang_plus_class true _ _ H)).
Qed.

Lemma steps_keep_sku (page : soup) (p : Product) :
  sku_code (name_step page p) = sku_code p
  /\ sku_code (description_step page p) = sku_code p
  /\ sku_code (price_step page p) = sku_code p
  /\ sku_code (ingredients_step page p) = sku_code p
  /\ sku_code (tags_step page p) = sku_code p
  /\ sku_code (unit_size_step page p) = sku_code p.
Proof.
  unfold name_step, description_step, price_step, ingredients_step,
    tags_step, unit_size_step.
  repeat split; step_cases; reflexivity.
Qed.

(** X8. The SKU code that the detail stage writes is taken from the path of the
    page URL: when the field changes, the new code is not empty and is made
    of letters, digits, hyphens and underscores only. *)
Theorem sku_code_charset (page : soup) (product : Product) :
  sku_code (detail_body page product) = sku_code product
  \/ (sku_code (detail_body page product) <> []
      /\ forallb sku_char (sku_code (detail_body page product)) = true).
Proof.
  assert (K1 : forall q, sku_code (name_step page q) = sku_code q)
    by (intros; apply steps_keep_sku).
  assert (K2 : forall q, sku_code (description_step page q) = sku_code q)
    by (intros; apply steps_keep_sku).
  assert (K3 : forall q, sku_code (price_step page q) = sku_code q)
    by (intros; apply steps_keep_sku).
  assert (K4 : forall q, sku_code (ingredients_step page q) = sku_code q)
    by (intros; apply steps_keep_sku).
  assert (K5 : forall q, sku_code (tags_step page q) = sku_code q)
    by (intros; apply steps_keep_sku).
  assert (K6 : forall q, sku_code (unit_size_step page q) = sku_code q)
    by (intros; apply steps_keep_sku).
  assert (K7 : forall v q, sku_code (set_product_image_url v q) = sku_code q)
    by reflexivity.
  unfold detail_body.
  destruct (image_source (page_imgs page)) as [src|].
  - destruct (urljoin base_url src) as [u|].
    + destruct (urlparse_path _) as [url_path|].
      * destruct (search no_flags sku_re url_path) as [m|] eqn:E.
        -- right. rewrite K6. simpl. exact (sku_match_charset _ _ E).
        -- left. rewrite K6, K5, K4, K7, K3, K2, K1. reflexivity.
      * left. rewrite K5, K4, K7, K3, K2, K1. reflexivity.
    + left. rewrite K3, K2, K1. reflexivity.
  - destruct (urlparse_path _) as [url_path|].
    + destruct (search no_flags sku_re url_path) as [m|] eqn:E.
      * right. rewrite K6. simpl. exact (sku_match_charset _ _ E).
      * left. rewrite K6, K5, K4, K3, K2, K1. reflexivity.
    + left. rewrite K5, K4, K3, K2, K1. reflexivity.
Qed.

End DetailStage.

(** ** The listing stage *)

Section ListingStage.
Context {urls : UrlLib} {order : SetOrder}.
Import Comprehensive.





End ListingStage.


(** ** How many requests a run sends *)

Section Budget.
Context {P : Type}.

Lemma within_ret {A} (a : A) : within (P := P) 0 (ret a).
Proof. intros s. simpl. lia. Qed.

Lemma within_raise {A} (e : exn) : within (P := P) 0 (raise (A := A) e).
Proof. intros s. simpl. lia. Qed.

Lemma within_weaken {A} (n n' : nat) (m : M P A) :
  (n <= n')%nat -> within n m -> within n' m.
Proof. intros Hn Hm s. specialize (Hm s). lia. Qed.

Lemma within_bind {A B} (n k : nat) (m : M P A) (f : A -> M P B) :
  within n m -> (forall a, within k (f a)) -> within (n + k) (bind m f).
Proof.
  intros Hm Hf s. unfold bind. specialize (Hm s).
  destruct (m s) as [[a|e] s1]; simpl in *; [|lia].
  specialize (Hf a s1). lia.
Qed.

Lemma within_try_except {A} (n k : nat) (m : M P A) (handled : exn -> bool)
    (h : exn -> M P A) :
  within n m -> (forall e, within k (h e)) ->
  within (n + k) (try_except m handled h).
Proof.
  intros Hm Hh s. unfold try_except. specialize (Hm s).
  destruct (m s) as [[a|e] s1]; simpl in *; [lia|].
  destruct (handled e); simpl; [|lia].
  specialize (Hh e s1). lia.
Qed.

Lemma within_state {A} (f : scraper P -> outcome A * scraper P) :
  (forall s, env (f s).2 = env s) -> within 0 f.
Proof. intros H s. unfold requests. rewrite H. lia. Qed.

Lemma within_blocking : within (P := P) 0 blocking.
Proof. intros s. rewrite blocking_requests. lia. Qed.

Lemma within_safe_request (url : str) :
  within (P := P) 3 (safe_request url 3).
Proof.
  intros s. unfold safe_request.
  exact (safe_request_loop_bound is_RequestException url 3 (range 3) s).
Qed.

End Budget.

Section RunBudget.
Context {urls : UrlLib} {order : SetOrder}.
Import Comprehensive.

Lemma within_scrape_product_details (product : Product) :
  within 3 (scrape_product_details product).
Proof.
  unfold scrape_product_details.
  apply (within_bind 0 3); [apply within_state; reflexivity|intros s0].
  destruct (_ || _); [apply (within_weaken 0); [lia|apply within_ret]|].
  apply (within_bind 3 0); [apply within_safe_request|].
  intros [page|]; [|apply within_ret].
  apply (within_bind 0 0); [apply within_state; reflexivity|].
  intros _. apply within_ret.
Qed.

Lemma within_details_loop (ps all_products : list Product) :
  within (3 * length ps) (details_loop ps all_products).
Proof.
  revert all_products. induction ps as [|p rest IH]; intros acc.
  - apply within_ret.
  - cbn [details_loop length].
    apply (within_weaken (3 + (0 + 3 * length rest))); [lia|].
    apply within_bind.
    + apply (within_try_except 3 0); [|intros; apply within_ret].
      apply (within_bind 3 0);
        [apply within_scrape_product_details|intros; apply within_ret].
    + intros [d|]; [|apply (within_weaken 0); [lia|apply within_ret]].
      apply within_bind; [apply within_blocking|intros _; apply IH].
Qed.

Lemma within_category_body (category_url : str)
    (all_products : list Product) :
  within 18 (category_body category_url all_products).
Proof.
  unfold category_body.
  destruct (urljoin base_url category_url) as [full_url|];
    [|apply (within_weaken 0); [lia|apply within_ret]].
  apply (within_bind 3 15).
  - apply (within_try_except 3 0);
      [apply within_safe_request|intros; apply within_ret].
  - intros [page|]; [|apply (within_weaken 0); [lia|apply within_ret]].
    apply (within_bind 0 15); [apply within_state; reflexivity|intros stamp].
    destruct (extract_products_from_page stamp page category_url)
      as [category_products|];
      [|apply (within_weaken 0); [lia|apply within_ret]].
    apply (within_bind 15 0).
    + eapply within_weaken; [|apply within_details_loop].
      rewrite length_take. lia.
    + intros [all1 finished]. destruct finished; apply within_ret.
Qed.

Lemma within_categories_loop (category_urls : list str)
    (all_products : list Product) :
  within (18 * length category_urls)
         (categories_loop category_urls all_products).
Proof.
  revert all_products.
  induction category_urls as [|u rest IH]; intros acc.
  - apply within_ret.
  - cbn [categories_loop length].
    apply (within_weaken (18 + 18 * length rest)); [lia|].
    apply within_bind; [apply within_category_body|intros; apply IH].
Qed.

Lemma within_save_to_csv (filename : str) : within 0 (save_to_csv filename).
Proof.
  intros s. unfold save_to_csv, bind, get_state, requests.
  cbn [fst snd]. destruct (products s); [simpl; lia|].
  destruct (disk_ok (env s)); simpl; lia.
Qed.

(** X10. A run of the comprehensive scraper over a list of categories sends at
    most eighteen requests for each category (three attempts for the
    category page, and three for each of at most five product pages); one
    call of [scrape_product_details] sends at most three; with the
    twenty-two categories of the class that is at most 396 requests. *)
Theorem run_request_budget :
  (forall (product : Product) (s : scraper Product),
     (requests (scrape_product_details product s).2 <= requests s + 3)%nat)
  /\ (forall (category_urls : list str) (s : scraper Product),
        (requests (main_from category_urls s).2
         <= requests s + 18 * length category_urls)%nat)
  /\ (forall s : scraper Product,
        (requests (main s).2 <= requests s + 396)%nat).
Proof.
  assert (Hmain : forall category_urls,
             within (18 * length category_urls) (main_from category_urls)).
  { intros category_urls. unfold main_from.
    apply (within_weaken (18 * length category_urls + 0)); [lia|].
    apply within_try_except.
    - apply (within_weaken (18 * length category_urls + 0)); [lia|].
      apply within_bind.
      + unfold scrape_all_products_from.
        apply (within_weaken (18 * length category_urls + 0)); [lia|].
        apply within_bind; [apply within_categories_loop|intros l].
        apply (within_bind 0 0); [apply within_state; reflexivity|intros _].
        apply (within_bind 0 0); [apply within_state; reflexivity|].
        intros; apply within_ret.
      + intros [|p l]; [apply within_ret|].
        apply (within_bind 0 0); [apply within_state; reflexivity|].
        intros; apply within_save_to_csv.
    - intros [| |]; try apply within_ret.
      apply (within_bind 0 0); [apply within_state; reflexivity|intros s0].
      destruct (products s0); [apply within_ret|].
      apply (within_bind 0 0); [apply within_state; reflexivity|].
      intros; apply within_save_to_csv. }
  split; [exact within_scrape_product_details|].
  split; [exact Hmain|].
  intros s. exact (Hmain category_urls s).
Qed.

End RunBudget.

(** ** What can stop a run *)

Section Outcomes.
Context {P : Type}.

Lemma completes_contained {A} (m : M P A) : completes m -> contained m.
Proof.
  intros H s Hs. destruct (H s Hs) as (Hq & a & E).
  split; [exact Hq|]. rewrite E. exact I.
Qed.

Lemma completes_ret {A} (a : A) : completes (P := P) (ret a).
Proof. intros s Hs. split; [exact Hs|eauto]. Qed.

Lemma contained_raise {A} (e : exn) :
  is_Exception e = true -> contained (P := P) (raise (A := A) e).
Proof. intros He s Hs. split; [exact Hs|exact He]. Qed.

Lemma completes_state {A} (f : scraper P -> A * scraper P) :
  (forall s, interrupt_at (env (f s).2) = interrupt_at (env s)) ->
  completes (fun s => (Ret (f s).1, (f s).2)).
Proof.
  intros H s Hs. split; [|eauto]. unfold quiet in *. simpl.
  rewrite H. exact Hs.
Qed.

Lemma completes_bind {A B} (m : M P A) (f : A -> M P B) :
  completes m -> (forall a, completes (f a)) -> completes (bind m f).
Proof.
  intros Hm Hf s Hs. unfold bind. destruct (Hm s Hs) as (Hq & a & E).
  destruct (m s) as [[a'|e] s1]; simpl in *; [|discriminate].
  exact (Hf a' s1 Hq).
Qed.

Lemma contained_bind {A B} (m : M P A) (f : A -> M P B) :
  contained m -> (forall a, contained (f a)) -> contained (bind m f).
Proof.
  intros Hm Hf s Hs. unfold bind. destruct (Hm s Hs) as (Hq & He).
  destruct (m s) as [[a|e] s1]; simpl in *; [|auto].
  exact (Hf a s1 Hq).
Qed.

Lemma contained_try_except {A} (m : M P A) (handled : exn -> bool)
    (h : exn -> M P A) :
  contained m -> (forall e, contained (h e)) ->
  contained (try_except m handled h).
Proof.
  intros Hm Hh s Hs. unfold try_except. destruct (Hm s Hs) as (Hq & He).
  destruct (m s) as [[a|e] s1]; simpl in *; [auto|].
  destruct (handled e); [exact (Hh e s1 Hq)|auto].
Qed.

Lemma completes_try_except {A} (m : M P A) (h : exn -> M P A) :
  contained m -> (forall e, completes (h e)) ->
  completes (try_except m is_Exception h).
Proof.
  intros Hm Hh s Hs. unfold try_except. destruct (Hm s Hs) as (Hq & He).
  destruct (m s) as [[a|e] s1]; simpl in *; [eauto|].
  rewrite He. exact (Hh e s1 Hq).
Qed.

Lemma completes_blocking : completes (P := P) blocking.
Proof.
  intros s Hs. change (blocking s) with (sleep s).
  rewrite (sleep_quiet s Hs). split; [exact Hs|eauto].
Qed.

Lemma contained_http_get (url : str) : contained (P := P) (http_get url).
Proof.
  intros s Hs. rewrite (http_get_quiet url s Hs). split; [exact Hs|].
  simpl. destruct (net _ _); exact I || reflexivity.
Qed.

Lemma contained_safe_request_loop (handled : exn -> bool) (url : str)
    (max_retries : Z) (attempts : list Z) :
  contained (P := P) (safe_request_loop handled url max_retries attempts).
Proof.
  induction attempts as [|attempt rest IH]; simpl.
  - apply completes_contained, completes_ret.
  - apply contained_bind.
    + apply contained_try_except.
      * apply contained_bind;
          [apply completes_contained, completes_blocking|intros _].
        apply contained_bind; [apply contained_http_get|].
        intros; apply completes_contained, completes_ret.
      * intros _. destruct (_ =? _)%Z;
          [apply completes_contained, completes_ret|].
        apply contained_bind;
          [apply completes_contained, completes_blocking|].
        intros; apply completes_contained, completes_ret.
    + intros [result|[]]; [apply completes_contained, completes_ret|exact IH].
Qed.

Lemma interrupt_only_ret {A} (a : A) : interrupt_only (P := P) (ret a).
Proof. intros s. exact I. Qed.

Lemma interrupt_only_bind {A B} (m : M P A) (f : A -> M P B) :
  interrupt_only m -> (forall a, interrupt_only (f a)) ->
  interrupt_only (bind m f).
Proof.
  intros Hm Hf s. unfold bind. specialize (Hm s).
  destruct (m s) as [[a|e] s1]; simpl in *; [apply Hf|exact Hm].
Qed.

Lemma interrupt_only_try_except {A} (m : M P A) (h : exn -> M P A) :
  (forall e, interrupt_only (h e)) ->
  interrupt_only (try_except m is_Exception h).
Proof.
  intros Hh s. unfold try_except.
  destruct (m s) as [[a|e] s1]; simpl; [exact I|].
  destruct e; simpl; try apply Hh. reflexivity.
Qed.

Lemma interrupt_only_blocking : interrupt_only (P := P) blocking.
Proof.
  intros s. unfold blocking, bind, get_state, update_world, raise, ret.
  simpl. destruct (bool_decide _); simpl; [reflexivity|exact I].
Qed.

End Outcomes.

Section RunOutcomes.
Context {urls : UrlLib} {order : SetOrder}.
Import Comprehensive.

Lemma completes_get_state {P} : completes (P := P) get_state.
Proof. intros s Hs. split; [exact Hs|eauto]. Qed.

Lemma completes_now {P} : completes (P := P) now.
Proof. intros s Hs. split; [exact Hs|eauto]. Qed.

Lemma completes_add_scraped_url {P} (u : str) :
  completes (P := P) (add_scraped_url u).
Proof. intros s Hs. split; [exact Hs|eauto]. Qed.

Lemma completes_set_products {P} (l : list P) :
  completes (P := P) (set_products l).
Proof. intros s Hs. split; [exact Hs|eauto]. Qed.

Lemma contained_scrape_product_details (product : Product) :
  contained (scrape_product_details product).
Proof.
  unfold scrape_product_details.
  apply contained_bind;
    [apply completes_contained, completes_get_state|intros s0].
  destruct (_ || _); [apply completes_contained, completes_ret|].
  apply contained_bind; [apply contained_safe_request_loop|].
  intros [page|]; [|apply completes_contained, completes_ret].
  apply contained_bind;
    [apply completes_contained, completes_add_scraped_url|].
  intros; apply completes_contained, completes_ret.
Qed.

Lemma completes_details_loop (ps all_products : list Product) :
  completes (details_loop ps all_products).
Proof.
  revert all_products. induction ps as [|p rest IH]; intros acc; simpl.
  - apply completes_ret.
  - apply completes_bind.
    + apply completes_try_except; [|intros; apply completes_ret].
      apply contained_bind; [apply contained_scrape_product_details|].
      intros; apply completes_contained, completes_ret.
    + intros [d|]; [|apply completes_ret].
      apply completes_bind; [apply completes_blocking|intros _; apply IH].
Qed.

Lemma completes_category_body (category_url : str)
    (all_products : list Product) :
  completes (category_body category_url all_products).
Proof.
  unfold category_body.
  destruct (urljoin base_url category_url); [|apply completes_ret].
  apply completes_bind.
  - apply completes_try_except; [|intros; apply completes_ret].
    apply contained_safe_request_loop.
  - intros [page|]; [|apply completes_ret].
    apply completes_bind; [apply completes_now|intros stamp].
    destruct (extract_products_from_page stamp page category_url);
      [|apply completes_ret].
    apply completes_bind; [apply completes_details_loop|].
    intros [all1 finished]. destruct finished; apply completes_ret.
Qed.

Lemma completes_categories_loop (category_urls : list str)
    (all_products : list Product) :
  completes (categories_loop category_urls all_products).
Proof.
  revert all_products. induction category_urls as [|u rest IH];
    intros acc; simpl; [apply completes_ret|].
  apply completes_bind; [apply completes_category_body|intros; apply IH].
Qed.

Lemma interrupt_only_details_loop (ps all_products : list Product) :
  interrupt_only (details_loop ps all_products).
Proof.
  revert all_products. induction ps as [|p rest IH]; intros acc; simpl.
  - apply interrupt_only_ret.
  - apply interrupt_only_bind.
    + apply interrupt_only_try_except. intros; apply interrupt_only_ret.
    + intros [d|]; [|apply interrupt_only_ret].
      apply interrupt_only_bind;
        [apply interrupt_only_blocking|intros _; apply IH].
Qed.

Lemma interrupt_only_category_body (category_url : str)
    (all_products : list Product) :
  interrupt_only (category_body category_url all_products).
Proof.
  unfold category_body.
  destruct (urljoin base_url category_url); [|apply interrupt_only_ret].
  apply interrupt_only_bind.
  - apply interrupt_only_try_except. intros; apply interrupt_only_ret.
  - intros [page|]; [|apply interrupt_only_ret].
    apply interrupt_only_bind; [intros s; exact I|intros stamp].
    destruct (extract_products_from_page stamp page category_url);
      [|apply interrupt_only_ret].
    apply interrupt_only_bind; [apply interrupt_only_details_loop|].
    intros [all1 finished]. destruct finished; apply interrupt_only_ret.
Qed.

Lemma interrupt_only_categories_loop (category_urls : list str)
    (all_products : list Product) :
  interrupt_only (categories_loop category_urls all_products).
Proof.
  revert all_products. induction category_urls as [|u rest IH];
    intros acc; simpl; [apply interrupt_only_ret|].
  apply interrupt_only_bind;
    [apply interrupt_only_category_body|intros; apply IH].
Qed.

(** X11. No failure of the network and nothing a page holds can abort
    [scrape_all_products]: the only exception that leaves it is the
    operator's interrupt, and when no interrupt is pending it returns, with
    [self.products] set to the list it returns. *)
Theorem run_survives_failures :
  (forall (category_urls : list str) (s : scraper Product),
     match (scrape_all_products_from category_urls s).1 with
     | Raise e => e = KeyboardInterrupt
     | Ret _ => True
     end)
  /\ (forall (category_urls : list str) (s : scraper Product),
        quiet s ->
        exists (l : list Product) (s' : scraper Product),
          scrape_all_products_from category_urls s = (Ret l, s')
          /\ products s' = l /\ quiet s').
Proof.
  split.
  - intros category_urls. unfold scrape_all_products_from.
    apply interrupt_only_bind; [apply interrupt_only_categories_loop|].
    intros l s. exact I.
  - intros category_urls s Hs. unfold scrape_all_products_from, bind.
    destruct (completes_categories_loop category_urls [] s Hs)
      as (Hq & l & E).
    destruct (categories_loop category_urls [] s) as [[l'|e] s1];
      simpl in *; [|discriminate].
    eexists _, _. split; [reflexivity|]. split; [reflexivity|exact Hq].
Qed.

End RunOutcomes.

(** ** What [main] leaves on the disk *)

Section MainOutcome.
Context {urls : UrlLib} {order : SetOrder}.
Import Comprehensive.

(** X12. [main] of the comprehensive scraper never raises, whatever the network,
    the pages and the operator do.  Started on a fresh scraper it writes at
    most one file: either the disk is as before, or one file named
    [hyperpure_products_comprehensive_<stamp>.csv] has been added, which
    holds the header row and then one row for each product of
    [self.products], in order, every row as wide as the header. *)
Theorem main_outcome (category_urls : list str) (w : world) :
  let r := main_from category_urls (new_scraper w) in
  r.1 = Ret tt
  /\ (disk (env r.2) = disk w
      \/ exists stamp : str,
           disk (env r.2)
           = (py "hyperpure_products_comprehensive_" ++ stamp ++ py ".csv",
              fieldnames :: map to_row (products r.2)) :: disk w
           /\ products r.2 <> []
           /\ Forall (fun row => length row = length fieldnames)
                     (map to_row (products r.2))).
Proof.
  intros r. subst r.
  pose proof (categories_loop_keeps category_urls [] (new_scraper w))
    as [Hp Hd].
  pose proof (interrupt_only_categories_loop category_urls []
                (new_scraper w)) as Hi.
  unfold main_from, try_except, scrape_all_products_from.
  unfold bind, set_products, get_state, ret. cbv beta iota zeta.
  destruct (categories_loop category_urls [] (new_scraper w))
    as [[all|e] s1]; cbn [fst snd] in *.
  - destruct all as [|p l]; cbn [fst snd products env].
    + split; [reflexivity|left; exact Hd].
    + unfold timestamp, save_to_csv, bind, get_state, ret, update_world.
      cbn [fst snd products env].
      destruct (disk_ok (env s1)); cbn [fst snd products env].
      * split; [reflexivity|]. right. eexists. simpl disk. rewrite Hd.
        split; [reflexivity|]. split; [discriminate|].
        apply Forall_forall. intros row Hrow.
        apply list_elem_of_In, in_map_iff in Hrow.
        destruct Hrow as (q & <- & _). reflexivity.
      * split; [reflexivity|left; exact Hd].
  - subst e. cbn [fst snd]. rewrite Hp. cbn [products new_scraper].
    split; [reflexivity|left; exact Hd].
Qed.

End MainOutcome.

(** ** The CSV row of a product *)

(** X13. The keys of [to_dict] are the [fieldnames] of [save_to_csv], in the
    same order: [writerow] raises no [ValueError], every column of the
    header is filled from the field of that name, and two products with the
    same row are the same product. *)
Theorem csv_row_matches_header :
  (forall p : Product, map fst (to_dict p) = fieldnames)
  /\ (forall p : Product, writerow fieldnames (to_dict p) = Some (to_row p))
  /\ (forall p q : Product, to_row p = to_row q -> p = q).
Proof.
  split; [intros p; vm_compute; reflexivity|].
  split; [intros p; vm_compute; reflexivity|].
  intros [] []. unfold to_row. cbn.
  intros [= -> -> -> -> -> -> -> -> -> -> -> -> -> -> -> -> -> -> -> -> ->].
  reflexivity.
Qed.

(** ** The PERFECT scraper: tags and records *)



(** ** The detailed scraper: the product links *)

Section DetailedLinks.
Context {urls : UrlLib}.

Lemma resolve_links_from (links : list (str * str)) :
  forall (product_links l : list str),
    Detailed.resolve_links links product_links = Some l ->
    NoDup product_links ->
    NoDup l
    /\ forall u, u ∈ l <->
         u ∈ product_links
         \/ exists href text,
              (href, text) ∈ links
              /\ Detailed.product_href href = true
              /\ urljoin Detailed.base_url href = Some u.
Proof.
  induction links as [|[href text] rest IH]; intros acc l H Hnd.
  - injection H as <-. split; [exact Hnd|]. intros u. split; [auto|].
    intros [Hu|(h & t & Hin & _)]; [exact Hu|].
    apply elem_of_nil in Hin. contradiction.
  - cbn [Detailed.resolve_links] in H.
    destruct (Detailed.product_href href) eqn:Hh.
    + destruct (urljoin Detailed.base_url href) as [full_url|] eqn:Hj;
        [|discriminate].
      cbn in H.
      destruct (decide (full_url ∈ acc)) as [Hin|Hin].
      * rewrite bool_decide_eq_true_2 in H by exact Hin.
        destruct (IH _ _ H Hnd) as [N E]. split; [exact N|].
        intros u. rewrite E. split.
        -- intros [Hu|(h & t & Hr & Hp & Hu)]; [left; exact Hu|].
           right. exists h, t. split; [apply list_elem_of_further, Hr|auto].
        -- intros [Hu|(h & t & Hr & Hp & Hu)]; [left; exact Hu|].
           apply elem_of_cons in Hr. destruct Hr as [[= -> ->]|Hr].
           ++ left. congruence.
           ++ right. exists h, t. auto.
      * rewrite bool_decide_eq_false_2 in H by exact Hin.
        assert (Hnd' : NoDup (acc ++ [full_url])).
        { apply NoDup_app. split; [exact Hnd|]. split.
          - intros x Hx Hx'. apply list_elem_of_singleton in Hx'. congruence.
          - apply NoDup_singleton. }
        destruct (IH _ _ H Hnd') as [N E]. split; [exact N|].
        intros u. rewrite E, elem_of_app, list_elem_of_singleton. split.
        -- intros [[Hu| ->]|(h & t & Hr & Hp & Hu)].
           ++ left; exact Hu.
           ++ right. exists href, text.
              split; [apply list_elem_of_here|auto].
           ++ right. exists h, t.
              split; [apply list_elem_of_further, Hr|auto].
        -- intros [Hu|(h & t & Hr & Hp & Hu)]; [left; left; exact Hu|].
           apply elem_of_cons in Hr. destruct Hr as [[= -> ->]|Hr].
           ++ left. right. congruence.
           ++ right. exists h, t. auto.
    + destruct (IH _ _ H Hnd) as [N E]. split; [exact N|].
      intros u. rewrite E. split.
      * intros [Hu|(h & t & Hr & Hp & Hu)]; [left; exact Hu|].
        right. exists h, t. split; [apply list_elem_of_further, Hr|auto].
      * intros [Hu|(h & t & Hr & Hp & Hu)]; [left; exact Hu|].
        apply elem_of_cons in Hr. destruct Hr as [[= -> ->]|Hr].
        -- congruence.
        -- right. exists h, t. auto.
Qed.

(** X15. The product links that the detailed scraper takes from its main page
    hold no URL twice, and they are exactly the resolved targets of the
    links whose [href] passes the keyword filter. *)
Theorem detailed_links_unique (page : soup) (l : list str) :
  Detailed.resolve_links (page_links page) [] = Some l ->
  NoDup l
  /\ forall u, u ∈ l <->
       exists href text,
         (href, text) ∈ page_links page
         /\ Detailed.product_href href = true
         /\ urljoin Detailed.base_url href = Some u.
Proof.
  intros H.
  destruct (resolve_links_from _ _ _ H (NoDup_nil_2)) as [N E].
  split; [exact N|]. intros u. rewrite E. split; [|auto].
  intros [Hu|Hu]; [apply elem_of_nil in Hu; contradiction|exact Hu].
Qed.

End DetailedLinks.

Lemma detailed_links_unique_witness :
  exists l : list str,
    @Detailed.resolve_links plain_urls (page_links addons_page) [] = Some l
    /\ length l = 2%nat
    /\ NoDup l
    /\ forall u, u ∈ l <->
         exists href text,
           (href, text) ∈ page_links addons_page
           /\ Detailed.product_href href = true
           /\ @urljoin plain_urls Detailed.base_url href = Some u.
Proof.
  eexists. split; [vm_compute; reflexivity|]. split; [reflexivity|].
  apply (@detailed_links_unique plain_urls addons_page).
  vm_compute. reflexivity.
Defined.

(** ** The PERFECT and the detailed scraper: [self.products] only grows *)

Lemma perfect_step_appends (product_url : str)
    (s : scraper Perfect.PerfectProduct) :
  let s1 := (Perfect.products_loop [product_url] s).2 in
  exists added,
    products s1 = products s ++ added /\ (length added <= 1)%nat.
Proof.
  cbv zeta. unfold Perfect.products_loop, bind, try_except.
  pose proof (extract_perfect_product_details_frames product_url s)
    as (_ & Hp & _).
  destruct (Perfect.extract_perfect_product_details product_url s)
    as [[[p|]|e] s1]; simpl in Hp.
  - destruct (truthy (Perfect.product_name p)); simpl.
    + exists [p]. rewrite Hp. split; [reflexivity|simpl; lia].
    + exists []. rewrite app_nil_r. split; [exact Hp|simpl; lia].
  - exists []. rewrite app_nil_r. split; [exact Hp|simpl; lia].
  - exists []. rewrite app_nil_r.
    destruct (is_Exception e); simpl; (split; [exact Hp|lia]).
Qed.

Lemma perfect_loop_cons (u : str) (rest : list str)
    (s : scraper Perfect.PerfectProduct) :
  (Perfect.products_loop (u :: rest) s).2
  = match (Perfect.products_loop [u] s).1 with
    | Ret _ => (Perfect.products_loop rest (Perfect.products_loop [u] s).2).2
    | Raise _ => (Perfect.products_loop [u] s).2
    end.
Proof.
  cbn [Perfect.products_loop]. unfold bind.
  destruct (try_except _ _ _ s) as [[[]|e] s1]; reflexivity.
Qed.

Lemma detailed_step_appends (product_url : str)
    (s : scraper Detailed.DetailedProduct) :
  let s1 := (Detailed.products_loop [product_url] s).2 in
  exists added,
    products s1 = products s ++ added /\ (length added <= 1)%nat.
Proof.
  cbv zeta.
  unfold Detailed.products_loop, now.
  unfold bind, try_except, get_state, ret. cbv beta iota.
  pose proof (scrape_detailed_product_info_keeps
                (Detailed.mkDetailed [] product_url
                   (clock (env s) (ticks (env s)))) s) as [Hp _].
  destruct (Detailed.scrape_detailed_product_info _ s) as [[p|e] s1];
    simpl in Hp.
  - destruct (truthy (Detailed.product_name p)); simpl.
    + exists [p]. rewrite Hp. split; [reflexivity|simpl; lia].
    + exists []. rewrite app_nil_r. split; [exact Hp|simpl; lia].
  - exists []. rewrite app_nil_r.
    destruct (is_Exception e); simpl; (split; [exact Hp|lia]).
Qed.

Lemma detailed_loop_cons (u : str) (rest : list str)
    (s : scraper Detailed.DetailedProduct) :
  (Detailed.products_loop (u :: rest) s).2
  = match (Detailed.products_loop [u] s).1 with
    | Ret _ =>
        (Detailed.products_loop rest (Detailed.products_loop [u] s).2).2
    | Raise _ => (Detailed.products_loop [u] s).2
    end.
Proof.
  cbn [Detailed.products_loop]. unfold bind.
  destruct (try_except _ _ _ s) as [[[]|e] s1]; reflexivity.
Qed.

(** X16. In the PERFECT and in the detailed scraper the loop over the product
    URLs only appends to [self.products]: whether it runs to its end or is
    interrupted, the records that were there stay, in their order, and at
    most one record is added for each URL. *)
Theorem sibling_loops_only_append :
  (forall (product_urls : list str) (s : scraper Perfect.PerfectProduct),
     exists added,
       products (Perfect.products_loop product_urls s).2
       = products s ++ added
       /\ (length added <= length product_urls)%nat)
  /\ (forall (product_links : list str)
             (s : scraper Detailed.DetailedProduct),
        exists added,
          products (Detailed.products_loop product_links s).2
          = products s ++ added
          /\ (length added <= length product_links)%nat).
Proof.
  split.
  - intros product_urls. induction product_urls as [|u rest IH]; intros s.
    + exists []. rewrite app_nil_r. split; [reflexivity|simpl; lia].
    + rewrite perfect_loop_cons.
      destruct (perfect_step_appends u s) as (a1 & E1 & L1).
      cbv zeta in E1.
      destruct ((Perfect.products_loop [u] s).1).
      * destruct (IH (Perfect.products_loop [u] s).2) as (a2 & E2 & L2).
        exists (a1 ++ a2). rewrite E2, E1, app_assoc.
        split; [reflexivity|]. rewrite length_app. simpl. lia.
      * exists a1. split; [exact E1|simpl; lia].
  - intros product_links. induction product_links as [|u rest IH]; intros s.
    + exists []. rewrite app_nil_r. split; [reflexivity|simpl; lia].
    + rewrite detailed_loop_cons.
      destruct (detailed_step_appends u s) as (a1 & E1 & L1).
      cbv zeta in E1.
      destruct ((Detailed.products_loop [u] s).1).
      * destruct (IH (Detailed.products_loop [u] s).2) as (a2 & E2 & L2).
        exists (a1 ++ a2). rewrite E2, E1, app_assoc.
        split; [reflexivity|]. rewrite length_app. simpl. lia.
      * exists a1. split; [exact E1|simpl; lia].
Qed.

(** ** The targeted scraper *)

Global Instance same_disk_preorder {P} : PreOrder (@same_disk P).
Proof.
  split; [intros s; repeat split; reflexivity|].
  intros a b c (A1 & A2 & A3) (B1 & B2 & B3). repeat split; congruence.
Qed.

Section TargetedRun.
Context {urls : UrlLib} {order : SetOrder} {nav : PageNav}.
Import Targeted.

Ltac step_cases :=
  repeat match goal with
         | |- context [match ?x with _ => _ end] => destruct x
         | |- context [if ?b then _ else _] => destruct b
         end.

Lemma targeted_steps_keep (page : soup) (p : Product) :
  Forall (fun f : Product -> str =>
            f (name_step page p) = f p
            /\ f (description_step page p) = f p
            /\ f (price_step page p) = f p
            /\ f (ingredients_step page p) = f p
            /\ f (tags_step page p) = f p
            /\ f (unit_size_step page p) = f p
            /\ (forall v, f (set_product_image_url v p) = f p)
            /\ (forall v, f (set_sku_code v p) = f p))
         listing_fields.
Proof.
  unfold listing_fields, name_step, description_step, price_step,
    ingredients_step, tags_step, unit_size_step.
  repeat constructor; step_cases; reflexivity.
Qed.

Lemma targeted_name_kept (page : soup) (p : Product) :
  product_name p <> [] ->
  product_name (name_step page p) = product_name p
  /\ product_name (description_step page p) = product_name p
  /\ product_name (price_step page p) = product_name p
  /\ product_name (ingredients_step page p) = product_name p
  /\ product_name (tags_step page p) = product_name p
  /\ product_name (unit_size_step page p) = product_name p.
Proof.
  intros Hne. unfold name_step, description_step, price_step,
    ingredients_step, tags_step, unit_size_step.
  destruct (product_name p) as [|c t] eqn:E; [contradiction|].
  cbn [truthy negb]. rewrite E. cbn [truthy negb].
  repeat split; step_cases; simpl; try rewrite E; reflexivity.
Qed.

Lemma targeted_detail_body_through (page : soup) (product : Product)
    (f : Product -> str) :
  (forall q,
      f (name_step page q) = f q
      /\ f (description_step page q) = f q
      /\ f (price_step page q) = f q
      /\ f (ingredients_step page q) = f q
      /\ f (tags_step page q) = f q
      /\ f (unit_size_step page q) = f q
      /\ (forall v, f (set_product_image_url v q) = f q)
      /\ (forall v, f (set_sku_code v q) = f q)) ->
  f (detail_body page product) = f product.
Proof.
  intros K.
  assert (K1 : forall q, f (name_step page q) = f q) by (intros; apply K).
  assert (K2 : forall q, f (description_step page q) = f q)
    by (intros; apply K).
  assert (K3 : forall q, f (price_step page q) = f q) by (intros; apply K).
  assert (K4 : forall q, f (ingredients_step page q) = f q)
    by (intros; apply K).
  assert (K5 : forall q, f (tags_step page q) = f q) by (intros; apply K).
  assert (K6 : forall q, f (unit_size_step page q) = f q)
    by (intros; apply K).
  assert (K7 : forall v q, f (set_product_image_url v q) = f q)
    by (intros; apply K).
  assert (K8 : forall v q, f (set_sku_code v q) = f q) by (intros; apply K).
  unfold detail_body.
  destruct (image_source (page_imgs page)) as [src|].
  - destruct (urljoin base_url src) as [u|].
    + destruct (urlparse_path _) as [url_path|].
      * destruct (search no_flags Comprehensive.sku_re url_path);
          rewrite K6, ?K8, K5, K4, K7, K3, K2, K1; reflexivity.
      * rewrite K5, K4, K7, K3, K2, K1; reflexivity.
    + rewrite K3, K2, K1; reflexivity.
  - destruct (urlparse_path _) as [url_path|].
    + destruct (search no_flags Comprehensive.sku_re url_path);
        rewrite K6, ?K8, K5, K4, K3, K2, K1; reflexivity.
    + rewrite K5, K4, K3, K2, K1; reflexivity.
Qed.

Lemma targeted_detail_listing_fields (page : soup) (product : Product) :
  Forall (fun f : Product -> str => f (detail_body page product) = f product)
         listing_fields.
Proof.
  apply Forall_forall. intros f Hf. apply targeted_detail_body_through.
  intros q. pose proof (targeted_steps_keep page q) as H.
  rewrite Forall_forall in H. exact (H f Hf).
Qed.

(** X17. The detail stage of the targeted scraper returns the product with the
    fields of the listing stage as they were, and it never replaces a name
    that the listing stage has set: title and heading are only used for a
    product without a name. *)
Theorem targeted_detail_keeps_name (page : soup) (product : Product) :
  Forall (fun f : Product -> str => f (detail_body page product) = f product)
         listing_fields
  /\ (product_name product <> [] ->
      product_name (detail_body page product) = product_name product).
Proof.
  split; [apply targeted_detail_listing_fields|].
  intros Hne.
  assert (S1 : forall q, product_name q = product_name product ->
               product_name (name_step page q) = product_name product
               /\ product_name (description_step page q)
                  = product_name product
               /\ product_name (price_step page q) = product_name product
               /\ product_name (ingredients_step page q)
                  = product_name product
               /\ product_name (tags_step page q) = product_name product
               /\ product_name (unit_size_step page q)
                  = product_name product).
  { intros q Hq.
    destruct (targeted_name_kept page q) as (A1 & A2 & A3 & A4 & A5 & A6);
      [rewrite Hq; exact Hne|].
    rewrite A1, A2, A3, A4, A5, A6. repeat split; exact Hq. }
  unfold detail_body.
  assert (N1 : product_name (name_step page product)
               = product_name product) by (apply S1; reflexivity).
  assert (N2 : product_name (description_step page (name_step page product))
               = product_name product) by (apply S1; exact N1).
  assert (N3 : product_name
                 (price_step page
                    (description_step page (name_step page product)))
               = product_name product) by (apply S1; exact N2).
  set (p3 := price_step page
               (description_step page (name_step page product))) in *.
  destruct (image_source (page_imgs page)) as [src|].
  + destruct (urljoin base_url src) as [u|]; [|exact N3].
    set (p4 := set_product_image_url u p3).
    assert (N4 : product_name p4 = product_name product) by exact N3.
    assert (N5 : product_name (ingredients_step page p4)
                 = product_name product) by (apply S1; exact N4).
    assert (N6 : product_name (tags_step page (ingredients_step page p4))
                 = product_name product) by (apply S1; exact N5).
    destruct (urlparse_path _) as [url_path|]; [|exact N6].
    destruct (search no_flags Comprehensive.sku_re url_path);
      apply S1; exact N6.
  + assert (N5 : product_name (ingredients_step page p3)
                 = product_name product) by (apply S1; exact N3).
    assert (N6 : product_name (tags_step page (ingredients_step page p3))
                 = product_name product) by (apply S1; exact N5).
    destruct (urlparse_path _) as [url_path|]; [|exact N6].
    destruct (search no_flags Comprehensive.sku_re url_path);
      apply S1; exact N6.
Qed.

Lemma same_disk_safe_request {P} (url : str) (max_retries : Z) :
  preserves (@same_disk P) (safe_request url max_retries).
Proof. apply preserves_safe_request; try exact _; intros; repeat split. Qed.

Lemma same_disk_scrape_product_details (product : Product) :
  preserves same_disk (scrape_product_details product).
Proof.
  unfold scrape_product_details.
  apply preserves_bind; [exact _|apply preserves_get_state; exact _|intros s0].
  destruct (_ || _); [apply preserves_ret; exact _|].
  apply preserves_bind; [exact _|apply same_disk_safe_request|].
  intros [page|]; [|apply preserves_ret; exact _].
  apply preserves_bind; [exact _| |intros _; apply preserves_ret; exact _].
  intros s. repeat split.
Qed.

Lemma same_disk_products_loop (main_products : list Product) :
  preserves same_disk (products_loop main_products).
Proof.
  induction main_products as [|p rest IH]; simpl.
  - apply preserves_ret; exact _.
  - apply preserves_bind;
      [exact _|apply same_disk_scrape_product_details|intros d].
    apply preserves_bind; [exact _|intros s; repeat split|intros _].
    apply preserves_bind; [exact _| |intros _; exact IH].
    apply preserves_blocking; [exact _|intros; repeat split].
Qed.

Lemma same_disk_scrape_all_products :
  preserves same_disk scrape_all_products.
Proof.
  unfold scrape_all_products.
  apply preserves_bind; [exact _|apply same_disk_safe_request|].
  intros [page|]; [|apply preserves_ret; exact _].
  apply preserves_bind; [exact _|apply preserves_now; exact _|intros stamp].
  destruct (extract_products_from_main_page stamp page);
    [|apply preserves_raise; exact _].
  apply preserves_bind; [exact _|apply same_disk_products_loop|intros _].
  apply preserves_bind; [exact _|apply preserves_get_state; exact _|].
  intros; apply preserves_ret; exact _.
Qed.

(** X18. Partial flush in the targeted scraper.  When the operator interrupts
    [scrape_all_products], [main] saves what [self.products] holds at that
    moment: with a working disk and at least one product in the list, it
    returns normally and has added one file, named
    [hyperpure_products_targeted_partial_<stamp>.csv], that holds the
    header row and one row for each of those products, in order. *)
Theorem targeted_partial_flush (w : world) (s1 : scraper Product) :
  disk_ok w = true ->
  scrape_all_products (new_scraper w) = (Raise KeyboardInterrupt, s1) ->
  products s1 <> [] ->
  exists s2 : scraper Product,
    main (new_scraper w) = (Ret tt, s2)
    /\ products s2 = products s1
    /\ disk (env s2)
       = (py "hyperpure_products_targeted_partial_"
          ++ clock_stamp w (ticks (env s1)) ++ py ".csv",
          fieldnames :: map to_row (products s1)) :: disk w.
Proof.
  intros Hok Hrun Hne.
  pose proof (same_disk_scrape_all_products (new_scraper w)) as (Hd & Ho & Hc).
  rewrite Hrun in Hd, Ho, Hc. cbn [snd new_scraper env] in Hd, Ho, Hc.
  unfold main, try_except, bind. rewrite Hrun. cbv beta iota.
  unfold get_state. cbv beta iota.
  destruct (products s1) as [|p l] eqn:Ep; [contradiction|].
  unfold Comprehensive.timestamp, bind, get_state, ret. cbv beta iota.
  unfold save_to_csv, bind, get_state. cbv beta iota.
  rewrite Ep, Ho, Hok. unfold update_world.
  eexists. split; [reflexivity|]. split; [exact Ep|].
  cbn [env disk write_file]. rewrite Hd, Hc. reflexivity.
Qed.

Lemma targeted_step (product : Product) (rest : list Product)
    (s : scraper Product) :
  products_loop (product :: rest) s
  = match scrape_product_details product s with
    | (Ret d, s1) =>
        let s2 := Scraper (scraped_urls s1) (products s1 ++ [d]) (env s1) in
        match sleep s2 with
        | (Ret _, s3) => products_loop rest s3
        | (Raise e, s3) => (Raise e, s3)
        end
    | (Raise e, s1) => (Raise e, s1)
    end.
Proof.
  cbn [products_loop]. unfold bind at 1.
  destruct (scrape_product_details product s) as [[d|e] s1]; [|reflexivity].
  unfold bind at 1. unfold append_product at 1. cbv beta iota zeta.
  unfold bind at 1. reflexivity.
Qed.

Lemma targeted_details_result (product : Product) (s : scraper Product) :
  match scrape_product_details product s with
  | (Ret d, s1) =>
      product_page_url d = product_page_url product
      /\ products s1 = products s
  | (Raise _, s1) => products s1 = products s
  end.
Proof.
  unfold scrape_product_details, bind, get_state, ret.
  destruct (_ || _); [auto|].
  pose proof (safe_request_frames (product_page_url product) 3 s)
    as (_ & Hp & _).
  destruct (safe_request (product_page_url product) 3 s) as [[[page|]|e] s1];
    simpl in *; auto.
  split; [|exact Hp].
  pose proof (targeted_detail_listing_fields page product) as H.
  rewrite Forall_forall in H. apply H. unfold listing_fields.
  do 2 apply list_elem_of_further. apply list_elem_of_here.
Qed.

(** X19. The loop of the targeted scraper appends to [self.products] the
    detailed products of the listing drafts, one by one and in their order:
    at any end of the loop, by return or by an exception, the list is what
    it was followed by the products of the first [n] drafts, and [n] is the
    number of all drafts when the loop returns. *)
Theorem targeted_loop_keeps_order (main_products : list Product)
    (s : scraper Product) :
  let r := products_loop main_products s in
  exists (n : nat) (added : list Product),
    (n <= length main_products)%nat
    /\ products r.2 = products s ++ added
    /\ map product_page_url added
       = map product_page_url (take n main_products)
    /\ (r.1 = Ret tt -> n = length main_products).
Proof.
  cbv zeta. revert s.
  induction main_products as [|p rest IH]; intros s.
  - exists 0%nat, []. simpl. rewrite app_nil_r. auto.
  - rewrite targeted_step.
    pose proof (targeted_details_result p s) as Hd.
    destruct (scrape_product_details p s) as [[d|e] s1].
    + destruct Hd as [Hu Hp]. cbv zeta.
      pose proof (preserves_blocking keeps
                    (fun s => conj eq_refl eq_refl)
                    (Scraper (scraped_urls s1) (products s1 ++ [d]) (env s1)))
        as [Hs _].
      change (@blocking Product) with (@sleep Product) in Hs.
      destruct (sleep _) as [[[]|e] s3]; cbn [snd products] in Hs.
      * destruct (IH s3) as (n & added & Hn & E & Hm & Hall).
        exists (S n), (d :: added). simpl.
        split; [lia|]. split.
        -- rewrite E, Hs, Hp, <- app_assoc. reflexivity.
        -- split; [rewrite Hu, Hm; reflexivity|].
           intros Hr. rewrite (Hall Hr). reflexivity.
      * exists 1%nat, [d]. simpl. split; [lia|].
        split; [rewrite Hs, Hp; reflexivity|].
        split; [rewrite Hu; destruct rest; reflexivity|discriminate].
    + exists 0%nat, []. simpl. rewrite app_nil_r.
      split; [lia|]. split; [exact Hd|]. split; [reflexivity|discriminate].
Qed.

End TargetedRun.

Lemma targeted_partial_flush_witness :
  length
    (products
       (@Targeted.scrape_all_products plain_urls as_listed link_text_nav
          (new_scraper (scripted_world targeted_script (Some 4%nat)))).2)
  = 1%nat
  /\ exists s2 : scraper Product,
       @Targeted.main plain_urls as_listed link_text_nav
         (new_scraper (scripted_world targeted_script (Some 4%nat)))
       = (Ret tt, s2)
       /\ products s2
          = products
              (@Targeted.scrape_all_products plain_urls as_listed
                 link_text_nav
                 (new_scraper (scripted_world targeted_script
                                 (Some 4%nat)))).2
       /\ disk (env s2)
          = (py "hyperpure_products_targeted_partial_"
             ++ clock_stamp (scripted_world targeted_script (Some 4%nat))
                  (ticks
                     (env
                        (@Targeted.scrape_all_products plain_urls as_listed
                           link_text_nav
                           (new_scraper
                              (scripted_world targeted_script
                                 (Some 4%nat)))).2))
             ++ py ".csv",
             fieldnames
             :: map to_row
                  (products
                     (@Targeted.scrape_all_products plain_urls as_listed
                        link_text_nav
                        (new_scraper
                           (scripted_world targeted_script
                              (Some 4%nat)))).2))
            :: disk (scripted_world targeted_script (Some 4%nat)).
Proof.
  split; [vm_compute; reflexivity|].
  apply (@targeted_partial_flush plain_urls as_listed link_text_nav
           (scripted_world targeted_script (Some 4%nat))
           (@Targeted.scrape_all_products plain_urls as_listed link_text_nav
              (new_scraper (scripted_world targeted_script (Some 4%nat)))).2).
  - reflexivity.
  - vm_compute. reflexivity.
  - vm_compute. discriminate.
Defined.

Lemma map_sublist {A B : Type} (f : A -> B) (l k : list A) :
  l `sublist_of` k -> map f l `sublist_of` map f k.
Proof.
  induction 1; simpl; [constructor|constructor; assumption|].
  constructor. assumption.
Qed.

(** X20. The tags that the targeted scraper writes are the feature keywords
    found in the page, title-cased, in the order of the keyword list and
    each once, joined by semicolons; the detail stage leaves the field as
    it was when it finds none (or when an earlier step raised). *)
Theorem targeted_tags_in_keyword_order
    `{!UrlLib} `{!SetOrder} `{!PageNav} (page : soup) (product : Product) :
  let l := Targeted.detected_tags (page_text page) in
  NoDup l
  /\ l `sublist_of` map title Targeted.feature_keywords
  /\ (tags (Targeted.detail_body page product) = tags product
      \/ (l <> []
          /\ tags (Targeted.detail_body page product) = join (py ";") l)).
Proof.
  intros l.
  assert (Hsub : l `sublist_of` map title Targeted.feature_keywords).
  { subst l. unfold Targeted.detected_tags.
    apply map_sublist, sublist_filter. }
  split.
  - apply (sublist_NoDup l (map title Targeted.feature_keywords));
      [|exact Hsub].
    apply (bool_decide_unpack (NoDup _)). vm_compute. exact I.
  - split; [exact Hsub|].
    assert (T : forall q, tags (Targeted.tags_step page q) = tags q
                          \/ (l <> [] /\ tags (Targeted.tags_step page q)
                                         = join (py ";") l)).
    { intros q. unfold Targeted.tags_step. fold l.
      destruct l as [|t ts]; [left; reflexivity|].
      right. split; [discriminate|reflexivity]. }
    assert (K : forall q,
               tags (Targeted.name_step page q) = tags q
               /\ tags (Targeted.description_step page q) = tags q
               /\ tags (Targeted.price_step page q) = tags q
               /\ tags (Targeted.ingredients_step page q) = tags q
               /\ tags (Targeted.unit_size_step page q) = tags q).
    { intros q. unfold Targeted.name_step, Targeted.description_step,
        Targeted.price_step, Targeted.ingredients_step,
        Targeted.unit_size_step.
      repeat split;
        repeat match goal with
               | |- context [match ?x with _ => _ end] => destruct x
               | |- context [if ?b then _ else _] => destruct b
               end; reflexivity. }
    assert (K1 : forall q, tags (Targeted.name_step page q) = tags q)
      by (intros; apply K).
    assert (K2 : forall q, tags (Targeted.description_step page q) = tags q)
      by (intros; apply K).
    assert (K3 : forall q, tags (Targeted.price_step page q) = tags q)
      by (intros; apply K).
    assert (K4 : forall q, tags (Targeted.ingredients_step page q) = tags q)
      by (intros; apply K).
    assert (K6 : forall q, tags (Targeted.unit_size_step page q) = tags q)
      by (intros; apply K).
    unfold Targeted.detail_body.
    destruct (Targeted.image_source (page_imgs page)) as [src|].
    + destruct (urljoin Targeted.base_url src) as [u|].
      * destruct (urlparse_path _) as [url_path|].
        -- destruct (search no_flags Comprehensive.sku_re url_path);
             rewrite K6; simpl tags;
             match goal with
             | |- context [Targeted.tags_step page ?q] =>
                 destruct (T q) as [E|[Hne E]]; rewrite E;
                 [left; rewrite K4; simpl; rewrite K3, K2, K1; reflexivity
                 |right; auto]
             end.
        -- match goal with
           | |- context [Targeted.tags_step page ?q] =>
               destruct (T q) as [E|[Hne E]]; rewrite E;
               [left; rewrite K4; simpl; rewrite K3, K2, K1; reflexivity
               |right; auto]
           end.
      * left. rewrite K3, K2, K1. reflexivity.
    + destruct (urlparse_path _) as [url_path|].
      * destruct (search no_flags Comprehensive.sku_re url_path);
          rewrite K6; simpl tags;
          match goal with
          | |- context [Targeted.tags_step page ?q] =>
              destruct (T q) as [E|[Hne E]]; rewrite E;
              [left; rewrite K4, K3, K2, K1; reflexivity|right; auto]
          end.
      * match goal with
        | |- context [Targeted.tags_step page ?q] =>
            destruct (T q) as [E|[Hne E]]; rewrite E;
            [left; rewrite K4, K3, K2, K1; reflexivity|right; auto]
        end.
Qed.

(** ** Pauses between requests *)

Global Instance paced_preorder {P} : PreOrder (@paced P).
Proof.
  split; [intros s; unfold paced; lia|].
  intros a b c (A1 & A2 & A3) (B1 & B2 & B3). unfold paced. lia.
Qed.

Lemma paced_ticked {P} (s : scraper P) : paced s (ticked s).
Proof. unfold paced, ticked, requests. simpl. lia. Qed.

Lemma paced_attempt {P} (handled : exn -> bool) (url : str) (final : bool)
    (s : scraper P) :
  paced s
    (try_except
       (sleep ;;; page <- http_get url ;; ret (inl (Some page)))
       handled
       (fun _ => if final then ret (inl None)
                 else sleep ;;; ret (@inr (option soup) unit tt)) s).2.
Proof.
  unfold try_except, sleep, http_get, blocking, bind, get_state,
    update_world, raise, ret.
  cbv beta iota. cbn [env tick ticks interrupt_at sent net log_request].
  repeat match goal with
         | |- context [bool_decide ?p] => destruct (bool_decide p)
         | |- context [net ?w ?i] => destruct (net w i)
         | |- context [handled ?e] => destruct (handled e)
         | |- context [if final then _ else _] => destruct final
         | _ => progress cbv beta iota
         | _ => progress cbn [env tick ticks interrupt_at sent net
                              log_request fst snd]
         end;
    unfold paced, requests; simpl; lia.
Qed.

Lemma paced_safe_request_loop {P} (handled : exn -> bool) (url : str)
    (max_retries : Z) (attempts : list Z) :
  preserves (@paced P) (safe_request_loop handled url max_retries attempts).
Proof.
  induction attempts as [|attempt rest IH]; simpl.
  - apply preserves_ret; exact _.
  - apply preserves_bind; [exact _|intros s; apply paced_attempt|].
    intros [result|[]]; [apply preserves_ret; exact _|exact IH].
Qed.

Section Pacing.
Context {urls : UrlLib} {order : SetOrder}.
Import Comprehensive.

Lemma paced_scrape_product_details (product : Product) :
  preserves paced (scrape_product_details product).
Proof.
  unfold scrape_product_details.
  apply preserves_bind; [exact _|apply preserves_get_state; exact _|intros s0].
  destruct (_ || _); [apply preserves_ret; exact _|].
  apply preserves_bind; [exact _|apply paced_safe_request_loop|].
  intros [page|]; [|apply preserves_ret; exact _].
  apply preserves_bind; [exact _| |intros _; apply preserves_ret; exact _].
  intros s. unfold paced, requests. simpl. lia.
Qed.

Lemma paced_details_loop (ps all_products : list Product) :
  preserves paced (details_loop ps all_products).
Proof.
  revert all_products. induction ps as [|p rest IH]; intros acc; simpl.
  - apply preserves_ret; exact _.
  - apply preserves_bind; [exact _| |].
    + apply preserves_try_except;
        [exact _| |intros; apply preserves_ret; exact _].
      apply preserves_bind;
        [exact _|apply paced_scrape_product_details|].
      intros; apply preserves_ret; exact _.
    + intros [d|]; [|apply preserves_ret; exact _].
      apply preserves_bind; [exact _| |intros _; apply IH].
      apply preserves_blocking; [exact _|apply paced_ticked].
Qed.

Lemma paced_category_body (category_url : str)
    (all_products : list Product) :
  preserves paced (category_body category_url all_products).
Proof.
  unfold category_body.
  destruct (urljoin base_url category_url); [|apply preserves_ret; exact _].
  apply preserves_bind; [exact _| |].
  - apply preserves_try_except;
      [exact _|apply paced_safe_request_loop|].
    intros; apply preserves_ret; exact _.
  - intros [page|]; [|apply preserves_ret; exact _].
    apply preserves_bind; [exact _|apply preserves_now; exact _|intros stamp].
    destruct (extract_products_from_page stamp page category_url);
      [|apply preserves_ret; exact _].
    apply preserves_bind; [exact _|apply paced_details_loop|].
    intros [all1 finished]. destruct finished; apply preserves_ret; exact _.
Qed.

Lemma paced_categories_loop (category_urls : list str)
    (all_products : list Product) :
  preserves paced (categories_loop category_urls all_products).
Proof.
  revert all_products. induction category_urls as [|u rest IH];
    intros acc; simpl; [apply preserves_ret; exact _|].
  apply preserves_bind; [exact _|apply paced_category_body|intros; apply IH].
Qed.

Lemma paced_save_to_csv (filename : str) :
  preserves paced (save_to_csv filename).
Proof.
  intros s. unfold save_to_csv, bind, get_state.
  cbn [fst snd]. destruct (products s); [reflexivity|].
  destruct (disk_ok (env s)); [|reflexivity].
  unfold paced, requests. simpl. lia.
Qed.

(** X21. The comprehensive scraper never sends two requests without a pause:
    over a whole run of [main], as over one call of [safe_request], at
    least two blocking calls are made for every request sent, the request
    itself and a [time.sleep]. *)
Theorem run_is_paced :
  (forall (P : Type) (url : str) (max_retries : Z) (s : scraper P),
     (2 * (requests (safe_request url max_retries s).2 - requests s)
      <= ticks (env (safe_request url max_retries s).2) - ticks (env s))%nat)
  /\ (forall (category_urls : list str) (s : scraper Product),
        (2 * (requests (main_from category_urls s).2 - requests s)
         <= ticks (env (main_from category_urls s).2)
            - ticks (env s))%nat).
Proof.
  split.
  - intros P url max_retries s.
    exact (proj2 (proj2 (paced_safe_request_loop is_RequestException url
                           max_retries (range max_retries) s))).
  - intros category_urls s.
    assert (H : preserves paced (main_from category_urls)).
    { unfold main_from. apply preserves_try_except; [exact _| |].
      - apply preserves_bind; [exact _| |].
        + unfold scrape_all_products_from.
          apply preserves_bind;
            [exact _|apply paced_categories_loop|intros l].
          apply preserves_bind; [exact _| |].
          * intros s0. unfold paced, requests. simpl. lia.
          * intros _. apply preserves_bind;
              [exact _|apply preserves_get_state; exact _|].
            intros; apply preserves_ret; exact _.
        + intros [|p l]; [apply preserves_ret; exact _|].
          apply preserves_bind;
            [exact _|apply preserves_timestamp; exact _|].
          intros; apply paced_save_to_csv.
      - intros [| |]; try (apply preserves_ret; exact _).
        apply preserves_bind;
          [exact _|apply preserves_get_state; exact _|intros s0].
        destruct (products s0); [apply preserves_ret; exact _|].
        apply preserves_bind;
          [exact _|apply preserves_timestamp; exact _|].
        intros; apply paced_save_to_csv. }
    exact (proj2 (proj2 (H s))).
Qed.

End Pacing.

(** ** The comprehensive scraper: the fields of the detail stage *)

Section DetailFields.
Context {urls : UrlLib} {order : SetOrder}.
Import Comprehensive.

Ltac step_cases :=
  repeat match goal with
         | |- context [match ?x with _ => _ end] => destruct x
         | |- context [if ?b then _ else _] => destruct b
         end.

Lemma ingredients_of_bounds (patterns : list regex) (text v : str) :
  ingredients_of patterns text = Some v ->
  (10 < length v < 200)%nat /\ tidy v = true.
Proof.
  induction patterns as [|r rest IH]; [discriminate|].
  cbn [ingredients_of]. destruct (search IGNORECASE r text) as [m|]; [|exact IH].
  cbv zeta.
  destruct (10 <? length (clean_text (group1 m)))%nat eqn:E1; [|exact IH].
  destruct (length (clean_text (group1 m)) <? 200)%nat eqn:E2; [|exact IH].
  cbn [andb]. intros [= <-].
  apply Nat.ltb_lt in E1. apply Nat.ltb_lt in E2.
  split; [lia|apply clean_text_tidy].
Qed.

Lemma description_of_tidy (patterns : list regex) (text d : str) :
  description_of patterns text = Some d -> tidy d = true.
Proof.
  induction patterns as [|r rest IH]; [discriminate|].
  cbn [description_of].
  destruct (findall IGNORECASE_DOTALL r text) as [|m ms]; [exact IH|].
  cbv zeta. destruct (_ && _); [|exact IH].
  intros [= <-]. apply clean_text_tidy.
Qed.

Lemma steps_keep_text_fields (page : soup) (p : Product) :
  Forall (fun f : Product -> str =>
            f (name_step page p) = f p
            /\ f (price_step page p) = f p
            /\ f (tags_step page p) = f p
            /\ f (unit_size_step page p) = f p
            /\ (forall v, f (set_product_image_url v p) = f p)
            /\ (forall v, f (set_sku_code v p) = f p))
         [ingredients; product_description].
Proof.
  unfold name_step, price_step, tags_step, unit_size_step.
  repeat constructor; step_cases; reflexivity.
Qed.

Lemma detail_body_text_fields (page : soup) (p : Product) :
  let r := detail_body page p in
  (ingredients r = ingredients p
   \/ ((10 < length (ingredients r) < 200)%nat
       /\ tidy (ingredients r) = true))
  /\ (product_description r = product_description p
      \/ tidy (product_description r) = true).
Proof.
  assert (K : forall f, f ∈ [ingredients; product_description] ->
            forall q,
              f (name_step page q) = f q
              /\ f (price_step page q) = f q
              /\ f (tags_step page q) = f q
              /\ f (unit_size_step page q) = f q
              /\ (forall v, f (set_product_image_url v q) = f q)
              /\ (forall v, f (set_sku_code v q) = f q)).
  { intros f Hf q. pose proof (steps_keep_text_fields page q) as H.
    rewrite Forall_forall in H. exact (H f Hf). }
  assert (Ki := K ingredients ltac:(left)).
  assert (Kd := K product_description ltac:(right; left)).
  clear K.
  assert (I1 : forall q, ingredients (description_step page q)
                         = ingredients q).
  { intros q. unfold description_step.
    destruct (description_of _ _); reflexivity. }
  assert (D1 : forall q, product_description (ingredients_step page q)
                         = product_description q).
  { intros q. unfold ingredients_step.
    destruct (ingredients_of _ _); reflexivity. }
  assert (I2 : forall q,
             ingredients (ingredients_step page q) = ingredients q
             \/ ((10 < length (ingredients (ingredients_step page q)) < 200)%nat
                 /\ tidy (ingredients (ingredients_step page q)) = true)).
  { intros q. unfold ingredients_step.
    destruct (ingredients_of _ _) as [v|] eqn:E; [|left; reflexivity].
    right. exact (ingredients_of_bounds _ _ _ E). }
  assert (D2 : forall q,
             product_description (description_step page q)
             = product_description q
             \/ tidy (product_description (description_step page q)) = true).
  { intros q. unfold description_step.
    destruct (description_of _ _) as [d|] eqn:E; [|left; reflexivity].
    right. exact (description_of_tidy _ _ _ E). }
  assert (Ki1 : forall q, ingredients (name_step page q) = ingredients q)
    by (intros; apply Ki).
  assert (Ki3 : forall q, ingredients (price_step page q) = ingredients q)
    by (intros; apply Ki).
  assert (Ki5 : forall q, ingredients (tags_step page q) = ingredients q)
    by (intros; apply Ki).
  assert (Ki6 : forall q, ingredients (unit_size_step page q) = ingredients q)
    by (intros; apply Ki).
  assert (Ki7 : forall v q, ingredients (set_product_image_url v q)
                            = ingredients q) by (intros; apply Ki).
  assert (Ki8 : forall v q, ingredients (set_sku_code v q) = ingredients q)
    by (intros; apply Ki).
  assert (Kd1 : forall q, product_description (name_step page q)
                          = product_description q) by (intros; apply Kd).
  assert (Kd3 : forall q, product_description (price_step page q)
                          = product_description q) by (intros; apply Kd).
  assert (Kd5 : forall q, product_description (tags_step page q)
                          = product_description q) by (intros; apply Kd).
  assert (Kd6 : forall q, product_description (unit_size_step page q)
                          = product_description q) by (intros; apply Kd).
  assert (Kd7 : forall v q, product_description (set_product_image_url v q)
                            = product_description q) by (intros; apply Kd).
  assert (Kd8 : forall v q, product_description (set_sku_code v q)
                            = product_description q) by (intros; apply Kd).
  clear Ki Kd.
  assert (Dn : product_description (description_step page (name_step page p))
               = product_description p
               \/ tidy (product_description
                          (description_step page (name_step page p))) = true).
  { destruct (D2 (name_step page p)) as [E|E]; [left|right; exact E].
    rewrite E. apply Kd1. }
  cbv zeta. unfold detail_body.
  destruct (image_source (page_imgs page)) as [src|].
  - destruct (urljoin base_url src) as [u|].
    + destruct (urlparse_path _) as [url_path|].
      * split.
        -- destruct (search no_flags sku_re url_path);
             rewrite Ki6, ?Ki8, Ki5;
             (destruct (I2 (set_product_image_url u
                              (price_step page
                                 (description_step page (name_step page p)))))
               as [E|E]; [left|right; exact E]);
             rewrite E, Ki7, Ki3, I1, Ki1; reflexivity.
        -- destruct (search no_flags sku_re url_path);
             rewrite Kd6, ?Kd8, Kd5, D1, Kd7, Kd3; exact Dn.
      * split.
        -- rewrite Ki5.
           destruct (I2 (set_product_image_url u
                           (price_step page
                              (description_step page (name_step page p)))))
             as [E|E]; [left|right; exact E].
           rewrite E, Ki7, Ki3, I1, Ki1; reflexivity.
        -- rewrite Kd5, D1, Kd7, Kd3; exact Dn.
    + split; [left; rewrite Ki3, I1, Ki1; reflexivity|].
      rewrite Kd3; exact Dn.
  - destruct (urlparse_path _) as [url_path|].
    + split.
      * destruct (search no_flags sku_re url_path);
          rewrite Ki6, ?Ki8, Ki5;
          (destruct (I2 (price_step page
                           (description_step page (name_step page p))))
            as [E|E]; [left|right; exact E]);
          rewrite E, Ki3, I1, Ki1; reflexivity.
      * destruct (search no_flags sku_re url_path);
          rewrite Kd6, ?Kd8, Kd5, D1, Kd3; exact Dn.
    + split.
      * rewrite Ki5.
        destruct (I2 (price_step page
                        (description_step page (name_step page p))))
          as [E|E]; [left|right; exact E].
        rewrite E, Ki3, I1, Ki1; reflexivity.
      * rewrite Kd5, D1, Kd3; exact Dn.
Qed.

(** X22. The detail stage of the comprehensive scraper either leaves the
    ingredients as they were or sets them to a cleaned text of more than
    10 and fewer than 200 characters; and it either leaves the description
    as it was or sets it to a cleaned, single-spaced text. *)
Theorem detail_fields_bounded (product : Product) (s : scraper Product) :
  match (scrape_product_details product s).1 with
  | Ret r =>
      (ingredients r = ingredients product
       \/ ((10 < length (ingredients r) < 200)%nat
           /\ tidy (ingredients r) = true))
      /\ (product_description r = product_description product
          \/ tidy (product_description r) = true)
  | Raise _ => True
  end.
Proof.
  unfold scrape_product_details, bind, get_state, ret. cbn [fst snd].
  destruct (_ || _); [split; left; reflexivity|].
  destruct (safe_request (product_page_url product) 3 s) as [[[page|]|e] s1];
    cbn [fst snd]; [|split; left; reflexivity|exact I].
  apply detail_body_text_fields.
Qed.

(** ** The comprehensive scraper: the list of a run only grows *)

Lemma details_loop_appends (ps all_products : list Product)
    (s : scraper Product) :
  match (details_loop ps all_products s).1 with
  | Ret (l, _) => all_products `prefix_of` l
  | Raise _ => True
  end.
Proof.
  revert all_products s. induction ps as [|p rest IH]; intros acc s.
  - simpl. reflexivity.
  - cbn [details_loop]. unfold bind, try_except, ret.
    destruct (scrape_product_details p s) as [[d|e] s1]; cbn [fst snd].
    + destruct (sleep s1) as [[[]|e] s1']; cbn [fst snd]; [|exact I].
      specialize (IH (acc ++ [d]) s1').
      destruct (details_loop rest (acc ++ [d]) s1') as [[[l fin]|e] s2];
        cbn [fst snd] in *; [|exact I].
      etransitivity; [|exact IH]. apply prefix_app_r. reflexivity.
    + destruct (is_Exception e); cbn [fst snd]; [reflexivity|exact I].
Qed.

Lemma category_body_appends (category_url : str)
    (all_products : list Product) (s : scraper Product) :
  match (category_body category_url all_products s).1 with
  | Ret l => all_products `prefix_of` l
  | Raise _ => True
  end.
Proof.
  unfold category_body.
  destruct (urljoin base_url category_url) as [full_url|];
    [|simpl; reflexivity].
  unfold bind at 1. unfold try_except.
  destruct (safe_request full_url 3 s) as [[[page|]|e] s1]; cbn [fst snd].
  - unfold now. unfold bind, get_state, ret. cbv beta iota. cbn [fst snd].
    match goal with
    | |- context [extract_products_from_page ?a page category_url] =>
        destruct (extract_products_from_page a page category_url) as [cp|]
    end; [|cbn [fst snd]; reflexivity].
    cbv zeta.
    pose proof (details_loop_appends
                  (take (Nat.min 5 (length cp)) cp) all_products s1) as H.
    destruct (details_loop _ all_products s1) as [[[l fin]|e] s2];
      cbn [fst snd] in *; [|exact I].
    destruct fin; cbn [fst snd]; [|exact H].
    etransitivity; [exact H|]. apply prefix_app_r. reflexivity.
  - simpl. reflexivity.
  - destruct (is_Exception e); simpl; [reflexivity|exact I].
Qed.

(** X23. The list that a run of the comprehensive scraper builds only grows at
    its end: whatever a category does, and also when its page cannot be
    fetched or a product of it fails, the products gathered from the
    categories before it stay where they are. *)
Theorem categories_only_append (category_urls : list str)
    (all_products : list Product) (s : scraper Product) :
  match (categories_loop category_urls all_products s).1 with
  | Ret l => all_products `prefix_of` l
  | Raise _ => True
  end.
Proof.
  revert all_products s.
  induction category_urls as [|u rest IH]; intros acc s.
  - simpl. reflexivity.
  - cbn [categories_loop]. unfold bind.
    pose proof (category_body_appends u acc s) as H.
    destruct (category_body u acc s) as [[l1|e] s1]; cbn [fst snd] in *;
      [|exact I].
    specialize (IH l1 s1).
    destruct (categories_loop rest l1 s1) as [[l|e] s2]; cbn [fst snd] in *;
      [|exact I].
    etransitivity; eassumption.
Qed.

End DetailFields.

(** ** The PERFECT scraper: the product URLs *)

Section PerfectUrls.
Context {urls : UrlLib} {order : SetOrder}.
Import Perfect.

Lemma perfect_resolve_links_from (links : list (str * str)) :
  forall l : list str,
    resolve_links links = Some l ->
    forall u, u ∈ l ->
      exists href, product_href href = true
                   /\ urljoin base_url href = Some u.
Proof.
  induction links as [|[href text] rest IH]; intros l H u Hu.
  - injection H as <-. apply elem_of_nil in Hu. contradiction.
  - cbn [resolve_links] in H. destruct (product_href href) eqn:Hh.
    + destruct (urljoin base_url href) as [full_url|] eqn:Hj;
        [|discriminate].
      cbn in H. destruct (resolve_links rest) as [more|]; [|discriminate].
      cbn in H. injection H as <-.
      apply elem_of_cons in Hu. destruct Hu as [->|Hu].
      * exists href. auto.
      * exact (IH more eq_refl u Hu).
    + exact (IH l H u Hu).
Qed.

Lemma collect_urls_from (starts : list str) :
  forall (all_product_urls l : list str) (s s' : scraper PerfectProduct),
    collect_urls starts all_product_urls s = (Ret l, s') ->
    NoDup l
    /\ (forall u, u ∈ l ->
          u ∈ all_product_urls
          \/ exists href, product_href href = true
                          /\ urljoin base_url href = Some u)
    /\ (forall u, u ∈ all_product_urls -> u ∈ l).
Proof.
  induction starts as [|start_url rest IH]; intros acc l s s' H.
  - injection H as <- <-. split; [apply list_of_set_NoDup|].
    split; intros u Hu.
    + left. apply list_of_set_elem, Hu.
    + apply list_of_set_elem, Hu.
  - cbn [collect_urls] in H. unfold bind in H.
    destruct (safe_request_perfect start_url 3 s) as [[[page|]|e] s1];
      [| |discriminate].
    + destruct (resolve_links (page_links page)) as [found|] eqn:Hr;
        [|discriminate].
      destruct (IH _ _ _ _ H) as (N & E & K). split; [exact N|].
      split; intros u Hu.
      * destruct (E u Hu) as [Hin|Hex]; [|right; exact Hex].
        apply elem_of_app in Hin. destruct Hin as [Hin|Hin]; [left; exact Hin|].
        right. exact (perfect_resolve_links_from _ _ Hr u Hin).
      * apply K, elem_of_app. left. exact Hu.
    + exact (IH _ _ _ _ H).
Qed.

(** X24. The URLs that [get_all_product_urls] of the PERFECT scraper returns
    hold no URL twice, and each of them is the resolved target of a link
    whose [href] passed the product filter. *)
Theorem perfect_urls_unique (s s' : scraper PerfectProduct) (l : list str) :
  get_all_product_urls s = (Ret l, s') ->
  NoDup l
  /\ forall u, u ∈ l ->
       exists href, product_href href = true
                    /\ urljoin base_url href = Some u.
Proof.
  intros H. destruct (collect_urls_from _ _ _ _ _ H) as (N & E & _).
  split; [exact N|]. intros u Hu.
  destruct (E u Hu) as [Hin|Hex]; [|exact Hex].
  apply elem_of_nil in Hin. contradiction.
Qed.

End PerfectUrls.

Lemma perfect_urls_unique_witness :
  exists (l : list str) (s' : scraper Perfect.PerfectProduct),
    @Perfect.get_all_product_urls plain_urls as_listed
      (new_scraper (scripted_world perfect_script None)) = (Ret l, s')
    /\ length l = 2%nat
    /\ NoDup l
    /\ forall u, u ∈ l ->
         exists href, Perfect.product_href href = true
                      /\ @urljoin plain_urls Perfect.base_url href = Some u.
Proof.
  eexists _, _. split; [vm_compute; reflexivity|].
  split; [reflexivity|].
  eapply (@perfect_urls_unique plain_urls as_listed
            (new_scraper (scripted_world perfect_script None))).
  vm_compute. reflexivity.
Defined.

(** ** The comprehensive scraper: the name of a category *)











Section CategoryName.
Context {urls : UrlLib} {order : SetOrder}.
Import Comprehensive.


End CategoryName.

